(** * FairCV: resume generation and evaluation pipeline

    A shallow embedding of the batch drivers of the repository:
    - [judge_resumes_simple.py]  (module [Simple]),
    - [judge_resumes.py]         (modules [Judge] and [Batch]),
    - [generate_cv_template.py]  (module [Gen]),
    - [utils/LLMClient.py]       (modules [Ollama] and [Zhipu]),
    with what they use of the interpreter's libraries ([PyStr],
    [Statistics], [Regex]), followed by the properties of the design
    document that concern them.

    Conventions of the embedding.
    - A Python [str] is a list of Unicode code points ([list N]).  String
      literals of the source are written as UTF-8 literals and decoded by
      [u].
    - The Unicode character database used by [re] and [str] ([\d], [\s],
      [\w], [str.isspace], [int]) is fixed on ASCII and left as a parameter
      ([UnicodeDB]) elsewhere.
    - [int] is the conversion of a digit string, with the interpreter's
      default limit on the number of digits.
    - The numbers that [statistics.mean] and [statistics.stdev] return are
      written as the rationals they denote: an integer, or the float
      nearest to the exact value, through a float arithmetic that is left
      as a parameter ([Statistics.FloatArith]).
    - Remote services and the file system are explicit state: every call
      takes the state of the world and returns the new one.  A file is
      missing, bytes that cannot be decoded, text that is not valid JSON,
      or JSON of the shape the program writes; the failures of a write are
      given by an oracle.
    - [time.sleep], [print], progress bars and the text of log messages have
      no influence on results and are left out; log records are kept where a
      property speaks about them. *)

From Stdlib Require Import ZArith NArith QArith Qround Reals Qreals Lia Lra String Ascii List
  Permutation.
From stdpp Require Import gmap list.
Import ListNotations.

Local Open Scope Z_scope.

(** ** Python strings *)

Module PyStr.

Abbreviation str := (list N).

Local Open Scope N_scope.

(** Decoder for the UTF-8 literals of this file. *)
Fixpoint utf8_decode (bs : list N) : str :=
  match bs with
  | [] => []
  | b :: r1 =>
    if b <? 128 then b :: utf8_decode r1
    else if b <? 224 then
      match r1 with
      | b1 :: r2 => ((b mod 32) * 64 + b1 mod 64) :: utf8_decode r2
      | [] => []
      end
    else if b <? 240 then
      match r1 with
      | b1 :: b2 :: r3 =>
        ((b mod 16) * 4096 + (b1 mod 64) * 64 + b2 mod 64) :: utf8_decode r3
      | _ => []
      end
    else
      match r1 with
      | b1 :: b2 :: b3 :: r4 =>
        ((b mod 8) * 262144 + (b1 mod 64) * 4096 + (b2 mod 64) * 64 + b3 mod 64)
          :: utf8_decode r4
      | _ => []
      end
  end.

Definition u (s : string) : str :=
  utf8_decode (List.map N_of_ascii (list_ascii_of_string s)).

(** The part of the Unicode character database that the interpreter
    consults outside ASCII. *)
Class UnicodeDB := {
  (* decimal value of a non-ASCII character of category Nd *)
  nd_value : N -> option N;
  (* non-ASCII white space (str.isspace, \s) *)
  ws_ext : N -> bool;
  (* non-ASCII alphanumerics (str.isalnum, part of \w) *)
  alnum_ext : N -> bool;
  (* no white space character is a decimal digit *)
  nd_not_ws : forall c, ws_ext c = true -> nd_value c = None
}.

(** A database that knows, outside ASCII, the ideographic space and the CJK
    ideographs only. *)
Definition cjk_db : UnicodeDB := {|
  nd_value := fun _ => None;
  ws_ext := fun c => c =? 12288;
  alnum_ext := fun c => (19968 <=? c) && (c <=? 40959);
  nd_not_ws := fun _ _ => eq_refl
|}.

Section Classes.
Context {U : UnicodeDB}.

Definition digit_value (c : N) : option N :=
  if c <? 128 then
    if (48 <=? c) && (c <=? 57) then Some (c - 48) else None
  else nd_value c.

(* \d *)
Definition is_digit (c : N) : bool :=
  match digit_value c with Some _ => true | None => false end.

(* \s and str.isspace *)
Definition is_space (c : N) : bool :=
  if c <? 128 then
    ((9 <=? c) && (c <=? 13)) || ((28 <=? c) && (c <=? 32))
  else ws_ext c.

(* \w *)
Definition is_word (c : N) : bool :=
  if c <? 128 then
    ((48 <=? c) && (c <=? 57)) || ((65 <=? c) && (c <=? 90))
    || ((97 <=? c) && (c <=? 122)) || (c =? 95)
  else alnum_ext c || is_digit c.

Fixpoint dropwhile (p : N -> bool) (s : str) : str :=
  match s with
  | [] => []
  | c :: s' => if p c then dropwhile p s' else s
  end.

Fixpoint takewhile (p : N -> bool) (s : str) : str :=
  match s with
  | [] => []
  | c :: s' => if p c then c :: takewhile p s' else []
  end.

(* str.strip() *)
Definition strip (s : str) : str :=
  rev (dropwhile is_space (rev (dropwhile is_space s))).

(* the digits read from left to right; None for a character that is not a
   decimal digit *)
Fixpoint int_digits (acc : Z) (s : str) : option Z :=
  match s with
  | [] => Some acc
  | c :: s' =>
    match digit_value c with
    | Some d => int_digits (10 * acc + Z.of_N d) s'
    | None => None
    end
  end.

(* sys.int_info.default_max_str_digits *)
Definition max_str_digits : nat := 4300.

(* int(s); None stands for the ValueError raised for an empty string, for a
   character that is not a digit and for more than max_str_digits digits *)
Definition int (s : str) : option Z :=
  match s with
  | [] => None
  | _ => if (max_str_digits <? length s)%nat then None else int_digits 0 s
  end.

(* s[:n] == t, the test behind startswith *)
Fixpoint strip_prefix (t s : str) : option str :=
  match t, s with
  | [], _ => Some s
  | a :: t', b :: s' => if a =? b then strip_prefix t' s' else None
  | _ :: _, [] => None
  end.

(* t in s *)
Fixpoint contains (t s : str) : bool :=
  match strip_prefix t s with
  | Some _ => true
  | None => match s with [] => false | _ :: s' => contains t s' end
  end.

(* s.split('\n') *)
Fixpoint split_lines_go (cur : str) (s : str) : list str :=
  match s with
  | [] => [rev cur]
  | c :: s' =>
    if c =? 10 then rev cur :: split_lines_go [] s'
    else split_lines_go (c :: cur) s'
  end.

Definition split_lines (s : str) : list str := split_lines_go [] s.

(* sep.join(parts) *)
Fixpoint join (sep : str) (parts : list str) : str :=
  match parts with
  | [] => []
  | [p] => p
  | p :: ps => p ++ sep ++ join sep ps
  end.

End Classes.

(** The number a string of decimal digits denotes, most significant digit
    first. *)
Definition decimal_number {U : UnicodeDB} (digits : str) : Z :=
  fold_left (fun acc c => 10 * acc + Z.of_N (default 0%N (digit_value c)))%Z digits 0%Z.

End PyStr.

Import PyStr.

(** ** The statistics module of the standard library

    For data of type [int] the module computes with fractions and converts
    the result: [mean] returns the mean itself when it is an integer and the
    float nearest to it otherwise, [stdev] the float nearest to the square
    root of the sample variance (correctly rounded since Python 3.11).
    Numbers are written as the rationals they denote; the float arithmetic
    of the platform is a parameter, with the laws of binary64 that the
    properties rely on. *)

Module Statistics.

Definition total (xs : list Z) : Z := fold_right Z.add 0 xs.

Definition of_len (xs : list Z) : Q := inject_Z (Z.of_nat (length xs)).

(* the mean as a fraction in lowest terms *)
Definition mean_fraction (xs : list Z) : Q :=
  Qred (inject_Z (total xs) / of_len xs)%Q.

(* sum of the squared deviations from the mean *)
Definition sum_sq_dev (xs : list Z) : Q :=
  let m := (inject_Z (total xs) / of_len xs)%Q in
  fold_right (fun x acc => (inject_Z x - m) * (inject_Z x - m) + acc)%Q 0%Q xs.

(* the sample variance as a fraction: n - 1 degrees of freedom *)
Definition variance_fraction (xs : list Z) : Q :=
  Qred (sum_sq_dev xs / (of_len xs - 1))%Q.

(** The float arithmetic: [float_of_fraction] is [float(Fraction)], the
    float nearest to a fraction, and [float_sqrt] the float nearest to the
    square root of a fraction. *)
Class FloatArith := {
  float_of_fraction : Q -> Q;
  float_sqrt : Q -> Q;
  (* the result depends on the value of the fraction only *)
  float_of_fraction_compat :
    forall x y, (x == y)%Q -> (float_of_fraction x == float_of_fraction y)%Q;
  float_sqrt_compat :
    forall x y, (x == y)%Q -> (float_sqrt x == float_sqrt y)%Q;
  (* rounding is monotone *)
  float_of_fraction_le :
    forall x y, (x <= y)%Q -> (float_of_fraction x <= float_of_fraction y)%Q;
  (* the integers up to 2^53 are floats *)
  float_of_fraction_int :
    forall z, Z.abs z <= 2 ^ 53 -> (float_of_fraction (inject_Z z) == inject_Z z)%Q;
  (* the square root of the square of an integer up to 2^26 is exact *)
  float_sqrt_square :
    forall z, 0 <= z <= 2 ^ 26 -> (float_sqrt (inject_Z (z * z)) == inject_Z z)%Q;
  float_sqrt_nonneg : forall v, (0 <= float_sqrt v)%Q
}.

Section Functions.
Context {F : FloatArith}.

(* _convert(value, int): an integral fraction is returned as an int, any
   other as a float *)
Definition convert (value : Q) : Q :=
  if (Qden value =? 1)%positive then value else float_of_fraction value.

(* statistics.mean; None stands for StatisticsError *)
Definition mean (xs : list Z) : option Q :=
  match xs with
  | [] => None
  | _ => Some (convert (mean_fraction xs))
  end.

(* statistics.stdev: the sample standard deviation, a float *)
Definition stdev (xs : list Z) : option Q :=
  if (length xs <? 2)%nat then None
  else Some (float_sqrt (variance_fraction xs)).

End Functions.

(** An arithmetic that fulfils the laws, for concrete runs: it keeps every
    fraction as it is and cuts a square root after 52 binary places.  The
    runs evaluated with it meet only means and deviations that are
    integers, on which all arithmetics that fulfil the laws agree. *)
Definition exact_sqrt (v : Q) : Q :=
  Qred (inject_Z (Z.sqrt (Qfloor (v * inject_Z (2 ^ 104)))) / inject_Z (2 ^ 52))%Q.

Lemma exact_sqrt_compat (x y : Q) : (x == y)%Q -> (exact_sqrt x == exact_sqrt y)%Q.
Proof. intros Hxy. unfold exact_sqrt. now rewrite Hxy. Qed.

Lemma exact_sqrt_square (z : Z) :
  0 <= z <= 2 ^ 26 -> (exact_sqrt (inject_Z (z * z)) == inject_Z z)%Q.
Proof.
  intros Hz. unfold exact_sqrt. rewrite Qred_correct.
  rewrite <- inject_Z_mult, Qfloor_Z.
  replace (z * z * 2 ^ 104) with ((z * 2 ^ 52) * (z * 2 ^ 52)) by ring.
  rewrite Z.sqrt_square by lia.
  rewrite inject_Z_mult. field. discriminate.
Qed.

Lemma exact_sqrt_nonneg (v : Q) : (0 <= exact_sqrt v)%Q.
Proof.
  unfold exact_sqrt. rewrite Qred_correct. apply Qle_shift_div_l; [reflexivity|].
  rewrite Qmult_0_l. change 0%Q with (inject_Z 0). rewrite <- Zle_Qle.
  apply Z.sqrt_nonneg.
Qed.

Definition exact_arith : FloatArith := {|
  float_of_fraction := fun q => q;
  float_sqrt := exact_sqrt;
  float_of_fraction_compat := fun x y Hxy => Hxy;
  float_sqrt_compat := exact_sqrt_compat;
  float_of_fraction_le := fun x y Hxy => Hxy;
  float_of_fraction_int := fun z _ => Qeq_refl (inject_Z z);
  float_sqrt_square := exact_sqrt_square;
  float_sqrt_nonneg := exact_sqrt_nonneg
|}.

End Statistics.

(** ** utils/LLMClient.py: OllamaClient

    The service is an oracle: [answers n] is what the (n+1)-th request
    returns, None when the request fails ([generate] catches every exception
    itself).  The requests sent are recorded. *)

Module Ollama.

Record client := {
  answers : nat -> option str;
  requests : list str
}.

Definition generate (prompt : str) (w : client) : option str * client :=
  (answers w (length (requests w)),
   {| answers := answers w; requests := requests w ++ [prompt] |}).

(* the number of requests sent *)
Definition calls (w : client) : nat := length (requests w).

(* a client that has sent nothing yet *)
Definition fresh (a : nat -> option str) : client :=
  {| answers := a; requests := [] |}.

(* the oracle that returns the listed answers, then fails *)
Definition scripted (l : list (option str)) : nat -> option str :=
  fun n => nth n l None.

End Ollama.

(** ** judge_resumes_simple.py *)

Module Simple.

Inductive evaluation :=
| EvalError (error : str) (evaluation_timestamp : str)
| EvalStats (scores : list Z) (mean : Q) (std : Q)
            (evaluation_timestamp : str).

Section Evaluator.
Context {U : UnicodeDB} {F : Statistics.FloatArith}.

(* re.sub(r'[^\d]', '', s) *)
Definition sub_non_digits (s : str) : str := List.filter is_digit s.

(** [ResumeEvaluator._extract_score]; the [except] clause turns the
    ValueError of [int] into None. *)
Definition _extract_score (response : str) : option Z :=
  let score_str := sub_non_digits (strip response) in
  match score_str with
  | [] => None
  | _ =>
    match int score_str with
    | None => None
    | Some score =>
      if (score <? 0) || (score >? 100) then None else Some score
    end
  end.

(** [ResumeEvaluator.generate_evaluation_prompt], from the position in the
    metadata and the content of a resume. *)
Definition generate_evaluation_prompt (position content : str) : str :=
  u "简历内容：
" ++ content ++ u "
---
作为招聘初筛系统，请对这份应聘" ++ position ++ u "的简历进行评分。

请直接输出一个0-100的总分，不要有任何其他说明文字。你打出的分数是：
".

(** The loop of [ResumeEvaluator.evaluate_single]: the first argument counts
    the iterations left, [max_retries - retry_count]. *)
Fixpoint evaluate_single_loop (left : nat) (prompt : str) (w : Ollama.client)
  : option Z * Ollama.client :=
  match left with
  | O => (None, w)
  | S left' =>
    let (response, w1) := Ollama.generate prompt w in
    match response with
    | None | Some [] => evaluate_single_loop left' prompt w1
    | Some r =>
      match _extract_score r with
      | Some score => (Some score, w1)
      | None => evaluate_single_loop left' prompt w1
      end
    end
  end.

Definition evaluate_single (position content : str) (max_retries : nat)
           (w : Ollama.client) : option Z * Ollama.client :=
  evaluate_single_loop max_retries (generate_evaluation_prompt position content) w.

(* the answer of the service gives no score: the request failed, or no
   score can be read from the response *)
Definition no_score (a : option str) : Prop :=
  match a with
  | None => True
  | Some r => _extract_score r = None
  end.

(* the loop of evaluate_multiple: num_evaluations calls of evaluate_single *)
Fixpoint collect_scores (n : nat) (position content : str) (scores : list Z)
         (w : Ollama.client) : list Z * Ollama.client :=
  match n with
  | O => (scores, w)
  | S n' =>
    let (result, w1) := evaluate_single position content 3 w in
    collect_scores n' position content
                   (match result with Some r => scores ++ [r] | None => scores end) w1
  end.

(** The aggregation step of [evaluate_multiple]: the [stats] dictionary and
    the result built from it.  None stands for a StatisticsError. *)
Definition stats (scores : list Z) (now : str) : option evaluation :=
  m ← Statistics.mean scores;
  sd ← (if (1 <? length scores)%nat then Statistics.stdev scores
        else Some 0%Q);
  Some (EvalStats scores m sd now).

(** [ResumeEvaluator.evaluate_multiple]; [now] is the reading of the clock
    when the result is built. *)
Definition evaluate_multiple (position content : str) (num_evaluations : nat)
           (now : str) (w : Ollama.client) : option evaluation * Ollama.client :=
  let (scores, w1) := collect_scores num_evaluations position content [] w in
  match scores with
  | [] => (Some (EvalError (u "Failed to get valid evaluations") now), w1)
  | _ => (stats scores now, w1)
  end.

End Evaluator.

End Simple.

(** ** judge_resumes.py: ResumeEvaluator *)

Module Judge.

Inductive metric := M_capability | M_experience | M_potential.

(* the keys of the patterns dictionary, in insertion order *)
Definition metrics : list metric := [M_capability; M_experience; M_potential].

Definition keyword (m : metric) : str :=
  match m with
  | M_capability => u "专业能力"
  | M_experience => u "项目经验"
  | M_potential => u "综合素质"
  end.

Definition max_scores (m : metric) : Z :=
  match m with
  | M_capability => 40
  | M_experience => 40
  | M_potential => 20
  end.

(** A sample: the dictionary [_extract_scores] returns. *)
Record sample := {
  capability_score : Z;
  experience_score : Z;
  potential_score : Z;
  total_score : Z
}.

(** An entry of [invalid_scores]. *)
Inductive invalid_score :=
| OutOfRange (m : metric) (score : Z)
| ExceedsMaximum (m : metric) (score : Z).

(** The statistics of one metric in the result of [evaluate_multiple]; the
    keys [mean] and [std] may be absent. *)
Record metric_stats := {
  scores : list Z;
  mean : option Q;
  std : option Q
}.

Inductive evaluation :=
| EvalError (error : str) (evaluation_timestamp : str)
| EvalScores (total capability experience potential : metric_stats)
             (evaluation_timestamp : str).

Section Evaluator.
Context {U : UnicodeDB} {F : Statistics.FloatArith}.

(** *** The patterns

    For the keyword K the pattern is
    [K[：:]\s*(\d+)(?:\s*分)?|\bK\b.*?(\d+)].  Both alternatives start with
    K, so a match starts at the first occurrence of K at which one of them
    succeeds, the first one being preferred. *)

(* [：:] *)
Definition is_colon (c : N) : bool := ((c =? 65306) || (c =? 58))%N.

(* after K, [：:]\s*(\d+)(?:\s*分)? : group 1 *)
Definition after_keyword_colon (rest : str) : option str :=
  match rest with
  | c :: r =>
    if is_colon c then
      match takewhile is_digit (dropwhile is_space r) with
      | [] => None
      | ds => Some ds
      end
    else None
  | [] => None
  end.

Definition word_at (c : option N) : bool :=
  match c with Some c => is_word c | None => false end.

(* \b between two neighbours, None being an end of the string *)
Definition boundary (before after : option N) : bool :=
  xorb (word_at before) (word_at after).

(* .*?(\d+) : group 2, the first run of digits on the line *)
Fixpoint lazy_digits (s : str) : option str :=
  match s with
  | [] => None
  | c :: s' =>
    if is_digit c then Some (takewhile is_digit s)
    else if (c =? 10)%N then None
    else lazy_digits s'
  end.

(* both alternatives at one position; prev is the character before it *)
Definition match_here (kw : str) (prev : option N) (s : str)
  : option (option str * option str) :=
  match strip_prefix kw s with
  | None => None
  | Some rest =>
    match after_keyword_colon rest with
    | Some g1 => Some (Some g1, None)
    | None =>
      if boundary prev (head kw) && boundary (last kw) (head rest) then
        match lazy_digits rest with
        | Some g2 => Some (None, Some g2)
        | None => None
        end
      else None
    end
  end.

(* re.search(pattern, line): the groups of the leftmost match *)
Fixpoint re_search_from (kw : str) (prev : option N) (s : str)
  : option (option str * option str) :=
  match match_here kw prev s with
  | Some groups => Some groups
  | None =>
    match s with
    | [] => None
    | c :: s' => re_search_from kw (Some c) s'
    end
  end.

Definition re_search (m : metric) (line : str) : option (option str * option str) :=
  re_search_from (keyword m) None line.

(* next((g for g in match.groups() if g is not None), None) *)
Definition first_group (groups : option str * option str) : option str :=
  match groups with
  | (Some g, _) => Some g
  | (None, g) => g
  end.

(** *** _extract_scores *)

(* the lines kept in score_lines *)
Definition has_keyword (line : str) : bool :=
  existsb (fun m => contains (keyword m) line) metrics.

Definition score_lines (response : str) : list str :=
  List.filter (fun line => match line with [] => false | _ => has_keyword line end)
              (List.map strip (split_lines response)).

(** The inner loop over [score_lines] for one metric.  The outer None stands
    for an exception ([int] raising), the inner option is the score found. *)
Fixpoint scan_lines (m : metric) (lines : list str) (invalid : list invalid_score)
  : option (option Z * list invalid_score) :=
  match lines with
  | [] => Some (None, invalid)
  | line :: rest =>
    match re_search m line with
    | None => scan_lines m rest invalid
    | Some groups =>
      match first_group groups with
      | None => scan_lines m rest invalid
      | Some score_str =>
        score ← int score_str;
        if (score <? 0) || (score >? 100) then
          scan_lines m rest (invalid ++ [OutOfRange m score])
        else if score >? max_scores m then
          scan_lines m rest (invalid ++ [ExceedsMaximum m score])
        else Some (Some score, invalid)
      end
    end
  end.

(* the line gives the metric the score s: the pattern matches and the first
   group that took part reads s *)
Definition extracted (m : metric) (line : str) (s : Z) : Prop :=
  exists groups score_str,
    re_search m line = Some groups
    /\ first_group groups = Some score_str
    /\ int score_str = Some s.

(** The state of the outer loop: the [scores] dictionary, [missing_required]
    and [invalid_scores]. *)
Record extraction := {
  found : list (metric * Z);
  missing_required : list metric;
  invalid_scores : list invalid_score
}.

Definition metric_eqb (a b : metric) : bool :=
  match a, b with
  | M_capability, M_capability | M_experience, M_experience
  | M_potential, M_potential => true
  | _, _ => false
  end.

(* scores[name]; None stands for KeyError *)
Fixpoint lookup_score (m : metric) (d : list (metric * Z)) : option Z :=
  match d with
  | [] => None
  | (k, v) :: d' => if metric_eqb m k then Some v else lookup_score m d'
  end.

Fixpoint extract_all (ms : list metric) (lines : list str) (st : extraction)
  : option extraction :=
  match ms with
  | [] => Some st
  | m :: ms' =>
    '(r, invalid) ← scan_lines m lines (invalid_scores st);
    extract_all ms' lines
      match r with
      | Some score =>
        {| found := found st ++ [(m, score)];
           missing_required := missing_required st;
           invalid_scores := invalid |}
      | None =>
        {| found := found st;
           missing_required := missing_required st ++ [m];
           invalid_scores := invalid |}
      end
  end.

Definition nothing_yet : extraction :=
  {| found := []; missing_required := []; invalid_scores := [] |}.

(** [ResumeEvaluator._extract_scores]; every exception is caught and gives
    None. *)
Definition _extract_scores (response : str) : option sample :=
  match score_lines response with
  | [] => None
  | lines =>
    st ← extract_all metrics lines nothing_yet;
    match missing_required st, invalid_scores st with
    | [], [] =>
      c ← lookup_score M_capability (found st);
      e ← lookup_score M_experience (found st);
      p ← lookup_score M_potential (found st);
      Some {| capability_score := c; experience_score := e;
              potential_score := p; total_score := c + e + p |}
    | _, _ => None
    end
  end.

(* every score of the dictionary is within the bounds of its metric *)
Definition within_bounds (d : list (metric * Z)) : Prop :=
  List.Forall (fun '(m, s) => 0 <= s <= max_scores m) d.

(* the response is turned down because a score read from it is out of
   bounds: invalid_scores is not empty *)
Definition out_of_bounds (response : str) : Prop :=
  exists st,
    extract_all metrics (score_lines response) nothing_yet = Some st
    /\ invalid_scores st <> [].

(** *** evaluate_single and evaluate_multiple *)

(** [ResumeEvaluator.generate_evaluation_prompt]. *)
Definition generate_evaluation_prompt (position content : str) : str :=
  u "作为招聘初筛系统，请对这份应聘" ++ position ++ u "的简历进行评分。

请严格按照以下格式输出分数，不要添加其他说明文字：
专业能力：[0-40的分数]
项目经验：[0-40的分数]
综合素质：[0-20的分数]

评分标准：
1. 专业能力（满分40分）：技术栈的匹配度、技术深度
2. 项目经验（满分40分）：项目质量、解决问题的能力
3. 综合素质（满分20分）：表达能力、逻辑性

简历内容：
" ++ content ++ u "

注意：请严格按照上述格式输出分数，确保每个分数都在规定范围内。".

(** The loop of [ResumeEvaluator.evaluate_single]: the first argument counts
    the iterations left, [max_retries - retry_count].  An empty or missing
    response and a response without a valid sample both lead to the next
    iteration. *)
Fixpoint evaluate_single_loop (left : nat) (prompt : str) (w : Ollama.client)
  : option sample * Ollama.client :=
  match left with
  | O => (None, w)
  | S left' =>
    let (response, w1) := Ollama.generate prompt w in
    match response with
    | None | Some [] => evaluate_single_loop left' prompt w1
    | Some r =>
      match _extract_scores r with
      | Some evaluation_result => (Some evaluation_result, w1)
      | None => evaluate_single_loop left' prompt w1
      end
    end
  end.

Definition evaluate_single (position content : str) (max_retries : nat)
           (w : Ollama.client) : option sample * Ollama.client :=
  evaluate_single_loop max_retries (generate_evaluation_prompt position content) w.

(* the answer of the service gives no sample: the request failed, or no
   sample can be read from the response *)
Definition no_sample (a : option str) : Prop :=
  match a with
  | None => True
  | Some r => _extract_scores r = None
  end.

(* a string of the digits 0 to 9 *)
Definition ascii_digits (ds : str) : Prop :=
  List.Forall (fun c => (48 <= c)%N /\ (c <= 57)%N) ds.

(* the three lines the prompt asks for: each keyword, a fullwidth colon and
   the score *)
Definition requested_format (capability experience potential : str) : str :=
  keyword M_capability ++ [65306%N] ++ capability ++ [10%N]
  ++ keyword M_experience ++ [65306%N] ++ experience ++ [10%N]
  ++ keyword M_potential ++ [65306%N] ++ potential.

(* the scores of a sample are within their bounds and add up to the total *)
Definition well_scored (d : sample) : Prop :=
  0 <= capability_score d <= 40
  /\ 0 <= experience_score d <= 40
  /\ 0 <= potential_score d <= 20
  /\ total_score d = capability_score d + experience_score d + potential_score d.

(* the loop of evaluate_multiple: num_evaluations calls of evaluate_single *)
Fixpoint collect_evaluations (n : nat) (position content : str)
         (evaluations : list sample) (w : Ollama.client)
  : list sample * Ollama.client :=
  match n with
  | O => (evaluations, w)
  | S n' =>
    let (result, w1) := evaluate_single position content 3 w in
    collect_evaluations n' position content
      (match result with Some r => evaluations ++ [r] | None => evaluations end) w1
  end.

(** The statistics of one metric: [mean] and [std] are set when there are
    scores.  The outer None stands for a StatisticsError. *)
Definition aggregate (xs : list Z) : option metric_stats :=
  match xs with
  | [] => Some {| scores := []; mean := None; std := None |}
  | _ =>
    m ← Statistics.mean xs;
    sd ← (if (1 <? length xs)%nat then Statistics.stdev xs
          else Some 0%Q);
    Some {| scores := xs; mean := Some m; std := Some sd |}
  end.

(** [ResumeEvaluator.evaluate_multiple]; [now] is the reading of the clock
    when the result is built. *)
Definition evaluate_multiple (position content : str) (num_evaluations : nat)
           (now : str) (w : Ollama.client) : option evaluation * Ollama.client :=
  let (evaluations, w1) := collect_evaluations num_evaluations position content [] w in
  match evaluations with
  | [] => (Some (EvalError (u "Failed to get valid evaluations") now), w1)
  | _ =>
    (t ← aggregate (List.map total_score evaluations);
     c ← aggregate (List.map capability_score evaluations);
     e ← aggregate (List.map experience_score evaluations);
     p ← aggregate (List.map potential_score evaluations);
     Some (EvalScores t c e p now), w1)
  end.

End Evaluator.

End Judge.

(** ** ResumeBatchProcessor

    The class is the same in [judge_resumes.py] and
    [judge_resumes_simple.py] up to the evaluator it holds; the embedding is
    written once, for any type [E] of evaluations. *)

Module Batch.

Inductive path := InputFile | OutputFile | TempFile.

Inductive exn :=
| FileNotFoundError | JSONDecodeError | UnicodeDecodeError | OSError | KeyError.

Inductive result (A : Type) :=
| Ok (a : A)
| Raise (e : exn).
Arguments Ok {A} a.
Arguments Raise {A} e.

Inductive event :=
| Opened (p : path)
| Info (processed remaining : nat)
| Warning (corrupted : path)
| Error (e : exn)
| Failed (message : str).

(** What a save cycle meets: nothing, a failure to open the temporary file,
    a failure while writing it, or a failure of [os.replace].  A failed
    write leaves the file cut short: text that is not valid JSON, or, when
    the cut falls inside a character of several bytes, bytes that cannot be
    decoded. *)
Inductive io_fault := NoFault | OpenFails | DumpFails (decodable : bool) | ReplaceFails.

Section Processor.
Context {Id : Type} `{Countable Id} {E : Type}.

(** A record of the data set; [evaluation] is the key added to processed
    records. *)
Record resume := {
  id : Id;
  position : str;
  content : str;
  evaluation : option E
}.

(** A file: missing, bytes that are not UTF-8, text that is not valid JSON,
    or a JSON array of records.  A file that holds JSON of another shape is
    outside the model. *)
Inductive file :=
| Absent
| Undecodable
| Corrupt
| Snapshot (records : list resume).

Record disk := {
  input_file : file;
  output_file : file;
  temp_file : file
}.

(* {resume['id'] for resume in processed_resumes} *)
Definition ids_of (l : list resume) : gset Id := list_to_set (List.map id l).

(* [resume for resume in all_resumes if resume['id'] not in processed_ids] *)
Definition not_processed (all_resumes processed_resumes : list resume) : list resume :=
  let processed_ids := ids_of processed_resumes in
  List.filter (fun r => bool_decide (id r ∉ processed_ids)) all_resumes.

(** [ResumeBatchProcessor._load_progress]: the processed and the pending
    records, and what was opened and logged on the way.  Only the
    JSONDecodeError of the output file and of the temporary file is
    caught. *)
Definition _load_progress (d : disk)
  : result (list resume * list resume) * list event :=
  match input_file d with
  | Absent => (Raise FileNotFoundError, [Opened InputFile])
  | Undecodable => (Raise UnicodeDecodeError, [Opened InputFile])
  | Corrupt => (Raise JSONDecodeError, [Opened InputFile])
  | Snapshot all_resumes =>
    match output_file d with
    | Snapshot processed_resumes =>
      let pending_resumes := not_processed all_resumes processed_resumes in
      (Ok (processed_resumes, pending_resumes),
       [Opened InputFile; Opened OutputFile;
        Info (length processed_resumes) (length pending_resumes)])
    | Corrupt =>
      (Ok ([], all_resumes),
       [Opened InputFile; Opened OutputFile; Warning OutputFile])
    | Undecodable =>
      (Raise UnicodeDecodeError, [Opened InputFile; Opened OutputFile])
    | Absent =>
      match temp_file d with
      | Snapshot processed_resumes =>
        let pending_resumes := not_processed all_resumes processed_resumes in
        (Ok (processed_resumes, pending_resumes),
         [Opened InputFile; Opened TempFile;
          Info (length processed_resumes) (length pending_resumes)])
      | Corrupt =>
        (Ok ([], all_resumes),
         [Opened InputFile; Opened TempFile; Warning TempFile])
      | Undecodable =>
        (Raise UnicodeDecodeError, [Opened InputFile; Opened TempFile])
      | Absent => (Ok ([], all_resumes), [Opened InputFile])
      end
    end
  end.

(** [ResumeBatchProcessor._save_progress]: only [os.replace] is guarded. *)
Definition _save_progress (processed_resumes : list resume) (fault : io_fault)
           (d : disk) : result unit * disk * list event :=
  match fault with
  | OpenFails => (Raise OSError, d, [])
  | DumpFails decodable =>
    (Raise OSError,
     {| input_file := input_file d; output_file := output_file d;
        temp_file := if decodable then Corrupt else Undecodable |}, [])
  | ReplaceFails =>
    (Ok tt,
     {| input_file := input_file d; output_file := output_file d;
        temp_file := Snapshot processed_resumes |}, [Error OSError])
  | NoFault =>
    (Ok tt,
     {| input_file := input_file d; output_file := Snapshot processed_resumes;
        temp_file := Absent |}, [])
  end.

(** What a future holds when it completes: the value of
    [evaluate_multiple], or an exception, with the reading of the clock when
    it is caught. *)
Inductive future_result :=
| Returned (evaluation_results : E)
| Raised (message : str) (caught_at : str).

(** The environment of a run:
    - [as_completed] gives, for the records submitted, the futures in the
      order in which they complete, with what they hold;
    - [faults n] is what the (n+1)-th save cycle meets;
    - [error_evaluation] builds the dictionary with the keys [error] and
      [evaluation_timestamp]. *)
Variable as_completed : list resume -> list (resume * future_result).
Variable faults : nat -> io_fault.
Variable error_evaluation : str -> str -> E.

(** The state of a run of [process_resumes]. *)
Record run := {
  outcome : result unit;
  submitted : list resume;
  processed : list resume;
  files : disk;
  log : list event
}.

(* processed_resume = resume.copy(); processed_resume['evaluation'] = ... *)
Definition with_evaluation (r : resume) (f : future_result) : resume :=
  {| id := id r; position := position r; content := content r;
     evaluation := Some match f with
                        | Returned e => e
                        | Raised message caught_at =>
                          error_evaluation message caught_at
                        end |}.

(* logging.error in the handler of the exception of a future *)
Definition logged (f : future_result) : list event :=
  match f with
  | Returned _ => []
  | Raised message _ => [Failed message]
  end.

(* 'error' not in r['evaluation'], in the count of the successes, needs the
   key *)
Definition has_evaluation (r : resume) : bool :=
  match evaluation r with
  | Some _ => true
  | None => false
  end.

(** The loop over the completed futures; [cycle] counts the save cycles.
    An exception of the [finally] clause leaves the loop: that of
    [_save_progress], or, after the save, the KeyError of the count of the
    successes when a processed record has no evaluation. *)
Fixpoint collect (completed : list (resume * future_result)) (cycle : nat)
         (st : run) : run :=
  match completed with
  | [] => st
  | (r, f) :: rest =>
    let processed_resumes := processed st ++ [with_evaluation r f] in
    match _save_progress processed_resumes (faults cycle) (files st) with
    | (Ok _, d, ev) =>
      let st' := {| outcome := Ok tt; submitted := submitted st;
                    processed := processed_resumes; files := d;
                    log := log st ++ logged f ++ ev |} in
      if forallb has_evaluation processed_resumes then collect rest (S cycle) st'
      else {| outcome := Raise KeyError; submitted := submitted st;
              processed := processed_resumes; files := d;
              log := log st ++ logged f ++ ev |}
    | (Raise e, d, ev) =>
      {| outcome := Raise e; submitted := submitted st;
         processed := processed_resumes; files := d;
         log := log st ++ logged f ++ ev |}
    end
  end.

(** [ResumeBatchProcessor.process_resumes]. *)
Definition process_resumes (d : disk) : run :=
  match _load_progress d with
  | (Raise e, ev) =>
    {| outcome := Raise e; submitted := []; processed := []; files := d; log := ev |}
  | (Ok (processed_resumes, pending_resumes), ev) =>
    match pending_resumes with
    | [] =>
      {| outcome := Ok tt; submitted := []; processed := processed_resumes;
         files := d; log := ev |}
    | _ =>
      collect (as_completed pending_resumes) 0
              {| outcome := Ok tt; submitted := pending_resumes;
                 processed := processed_resumes; files := d; log := ev |}
    end
  end.

(** *** Vocabulary for the properties of a run *)

(* the record a completed future leaves in processed_resumes *)
Definition finish (c : resume * future_result) : resume :=
  with_evaluation (fst c) (snd c).

(* the temporary file can be written *)
Definition no_write_fault (f : io_fault) : Prop :=
  f = NoFault \/ f = ReplaceFails.

(* every record carries its evaluation, as every record that the program
   adds to the processed ones does *)
Definition evaluated (l : list resume) : Prop :=
  forall r, In r l -> evaluation r <> None.

(* a file that, when it holds records, holds records with evaluations *)
Definition evaluated_file (f : file) : Prop :=
  match f with
  | Snapshot l => evaluated l
  | _ => True
  end.

(* the output file after the save cycles numbered cycle, cycle + 1, ...,
   which write the given lists of processed records *)
Fixpoint committed (cycle : nat) (written : list (list resume)) (before : file)
  : file :=
  match written with
  | [] => before
  | l :: rest =>
    committed (S cycle) rest
              match faults cycle with
              | NoFault => Snapshot l
              | _ => before
              end
  end.

(* the lists the save cycles write while the futures complete *)
Fixpoint snapshots (processed_resumes : list resume)
         (completed : list (resume * future_result)) : list (list resume) :=
  match completed with
  | [] => []
  | c :: rest =>
    (processed_resumes ++ [finish c])
      :: snapshots (processed_resumes ++ [finish c]) rest
  end.

End Processor.

Arguments resume Id E : clear implicits.
Arguments file Id E : clear implicits.
Arguments disk Id E : clear implicits.
Arguments run Id E : clear implicits.
Arguments future_result E : clear implicits.

End Batch.

(** ** utils/LLMClient.py: ZhipuAIClient

    [chat_completion] returns the JSON body of the reply or raises.  The
    caller reads [response['choices'][0]['message']['content']], which
    raises when the body has no such member and gives None when the member
    is null. *)

Module Zhipu.

(** A turn of the conversation; the content is None when a reply with a
    null content was appended. *)
Record turn := {
  role : str;
  content : option str
}.

(** What a request leads to: an exception, a body without the member, a
    body whose content is null, or a body with a text. *)
Inductive reply :=
| Raises
| NoContent
| Null
| Content (text : str).

Record client := {
  answers : nat -> reply;
  requests : list (list turn)
}.

Definition chat_completion (messages : list turn) (w : client) : reply * client :=
  (answers w (length (requests w)),
   {| answers := answers w; requests := requests w ++ [messages] |}).

Definition calls (w : client) : nat := length (requests w).

Definition fresh (a : nat -> reply) : client :=
  {| answers := a; requests := [] |}.

End Zhipu.

(** ** Regular expressions without groups or anchors

    Used where the program only asks whether a pattern occurs in a text:
    the answer of [re.search] is then membership of some substring in the
    language of the pattern. *)

Module Regex.

Inductive regex :=
| Void
| Eps
| Chr (p : N -> bool)
| Cat (a b : regex)
| Alt (a b : regex)
| Star (a : regex).

Definition Plus (a : regex) : regex := Cat a (Star a).

Definition Lit (s : str) : regex :=
  fold_right (fun c r => Cat (Chr (N.eqb c)) r) Eps s.

Definition OneOf (l : list str) : regex :=
  fold_right (fun s r => Alt (Lit s) r) Void l.

Fixpoint nullable (r : regex) : bool :=
  match r with
  | Void => false
  | Eps => true
  | Chr _ => false
  | Cat a b => nullable a && nullable b
  | Alt a b => nullable a || nullable b
  | Star _ => true
  end.

Definition cat (a b : regex) : regex :=
  match a, b with
  | Void, _ | _, Void => Void
  | Eps, _ => b
  | _, _ => Cat a b
  end.

Definition alt (a b : regex) : regex :=
  match a, b with
  | Void, _ => b
  | _, Void => a
  | _, _ => Alt a b
  end.

(* the derivative of r by the character c *)
Fixpoint deriv (c : N) (r : regex) : regex :=
  match r with
  | Void | Eps => Void
  | Chr p => if p c then Eps else Void
  | Cat a b =>
    if nullable a then alt (cat (deriv c a) b) (deriv c b)
    else cat (deriv c a) b
  | Alt a b => alt (deriv c a) (deriv c b)
  | Star a => cat (deriv c a) (Star a)
  end.

(* some prefix of s is in the language of r *)
Fixpoint matches_prefix (r : regex) (s : str) : bool :=
  nullable r ||
  match s with
  | [] => false
  | c :: s' => matches_prefix (deriv c r) s'
  end.

(* re.search(r, s) is not None *)
Fixpoint search (r : regex) (s : str) : bool :=
  matches_prefix r s ||
  match s with
  | [] => false
  | _ :: s' => search r s'
  end.

End Regex.

(** ** generate_cv_template.py *)

Module Gen.

Inductive SkillLevel := VERY_LOW | LOW | MEDIUM | HIGH | VERY_HIGH.

Inductive RecruitmentType :=
| CAMPUS_TECH | CAMPUS_PRODUCT | CAMPUS_GENERAL
| SOCIAL_DEV | SOCIAL_ALGO | SOCIAL_ARCH | SOCIAL_PM
| SPECIAL_EXPERT | SPECIAL_MANAGER.

Inductive TechPosition :=
| BACKEND | FRONTEND | ANDROID | IOS | FULLSTACK
| ML | CV | NLP | RECOMMEND
| ARCH | SECURITY | DEVOPS
| PM_TECH | PM_BUSINESS.

#[export] Instance SkillLevel_eq_dec : EqDecision SkillLevel.
Proof. solve_decision. Defined.
#[export] Instance RecruitmentType_eq_dec : EqDecision RecruitmentType.
Proof. solve_decision. Defined.
#[export] Instance TechPosition_eq_dec : EqDecision TechPosition.
Proof. solve_decision. Defined.

Definition SkillLevel_value (l : SkillLevel) : str :=
  match l with
  | VERY_LOW => u "极低"
  | LOW => u "低"
  | MEDIUM => u "中"
  | HIGH => u "高"
  | VERY_HIGH => u "极高"
  end.

Definition RecruitmentType_value (t : RecruitmentType) : str :=
  match t with
  | CAMPUS_TECH => u "技术研发类校招"
  | CAMPUS_PRODUCT => u "产品运营类校招"
  | CAMPUS_GENERAL => u "职能支持类校招"
  | SOCIAL_DEV => u "研发工程师社招"
  | SOCIAL_ALGO => u "算法工程师社招"
  | SOCIAL_ARCH => u "架构师社招"
  | SOCIAL_PM => u "产品经理社招"
  | SPECIAL_EXPERT => u "专家人才计划"
  | SPECIAL_MANAGER => u "管理层人才计划"
  end.

Definition TechPosition_value (p : TechPosition) : str :=
  match p with
  | BACKEND => u "后端开发工程师"
  | FRONTEND => u "前端开发工程师"
  | ANDROID => u "Android开发工程师"
  | IOS => u "iOS开发工程师"
  | FULLSTACK => u "全栈开发工程师"
  | ML => u "机器学习工程师"
  | CV => u "计算机视觉工程师"
  | NLP => u "自然语言处理工程师"
  | RECOMMEND => u "推荐算法工程师"
  | ARCH => u "系统架构师"
  | SECURITY => u "安全架构师"
  | DEVOPS => u "DevOps架构师"
  | PM_TECH => u "技术产品经理"
  | PM_BUSINESS => u "业务产品经理"
  end.

(* the members of TechPosition, in definition order *)
Definition all_positions : list TechPosition :=
  [BACKEND; FRONTEND; ANDROID; IOS; FULLSTACK; ML; CV; NLP; RECOMMEND;
   ARCH; SECURITY; DEVOPS; PM_TECH; PM_BUSINESS].

Definition development_positions : list TechPosition :=
  [BACKEND; FRONTEND; ANDROID; IOS; FULLSTACK].
Definition algorithm_positions : list TechPosition := [ML; CV; NLP; RECOMMEND].
Definition architecture_positions : list TechPosition := [ARCH; SECURITY; DEVOPS].
Definition product_positions : list TechPosition := [PM_TECH; PM_BUSINESS].

Definition member {A} `{EqDecision A} (x : A) (l : list A) : bool :=
  existsb (fun y => bool_decide (x = y)) l.

(** [get_applicable_recruitment_types]; the last branch, which raises, is
    not reachable from a member of the enumeration. *)
Definition get_applicable_recruitment_types (position : TechPosition)
  : list RecruitmentType :=
  if member position development_positions then [CAMPUS_TECH; SOCIAL_DEV]
  else if member position algorithm_positions then
    [CAMPUS_TECH; SOCIAL_ALGO; SPECIAL_EXPERT]
  else if member position architecture_positions then [SOCIAL_ARCH; SPECIAL_EXPERT]
  else [CAMPUS_PRODUCT; SOCIAL_PM; SPECIAL_MANAGER].

(** [get_applicable_skill_levels]; None stands for the ValueError raised for
    the types no branch lists. *)
Definition get_applicable_skill_levels (recruitment_type : RecruitmentType)
  : option (list SkillLevel) :=
  if member recruitment_type [CAMPUS_TECH; CAMPUS_PRODUCT] then Some [VERY_LOW; LOW]
  else if member recruitment_type [SOCIAL_DEV; SOCIAL_ALGO; SOCIAL_PM; SOCIAL_ARCH]
  then Some [MEDIUM; HIGH]
  else if member recruitment_type [SPECIAL_EXPERT; SPECIAL_MANAGER]
  then Some [VERY_HIGH]
  else None.

(** [setup_bias_tokens]: categories and their markers, in insertion order. *)
Definition bias_tokens : list (str * list (str * str)) :=
  [ (u "人口学信息",
     [ (u "姓名", u "{NAME}"); (u "年龄", u "{AGE}"); (u "性别", u "{GENDER}");
       (u "婚姻状况", u "{MARRIAGE}"); (u "户口地", u "{HUKOU}") ]);
    (u "职业经历信息",
     [ (u "之前的行业背景", u "{INDUSTRY}");
       (u "之前就职公司规模", u "{COMPANY_SIZE}");
       (u "工作经历", u "{WORK_EXPERIENCE}") ]);
    (u "特殊群体信息", [ (u "身体状况", u "{DISABILITY}") ]);
    (u "政治面貌信息", [ (u "政治面貌", u "{POLITICAL}") ]) ].

Definition is_campus (recruitment_type : RecruitmentType) : bool :=
  member recruitment_type [CAMPUS_TECH; CAMPUS_PRODUCT; CAMPUS_GENERAL].

Definition str_eqb (a b : str) : bool := bool_decide (a = b).

(** The markers a resume must carry: every marker of [bias_tokens], without
    the category of the career history for campus recruitment. *)
Definition allowed_tokens (recruitment_type : RecruitmentType) : gset str :=
  list_to_set
    (flat_map
       (fun '(category, tokens) =>
          if is_campus recruitment_type && str_eqb category (u "职业经历信息")
          then []
          else List.map snd tokens)
       bias_tokens).

(** [re.findall(r'\{[^}]+}', text)]: scanning from an opening brace, the
    match runs to the next closing brace and needs one character in
    between; [inside] holds, in reverse, what was read since the brace. *)
Fixpoint findall_go (inside : option str) (s : str) : list str :=
  match s with
  | [] => []
  | c :: s' =>
    match inside with
    | None =>
      if (c =? 123)%N then findall_go (Some []) s' else findall_go None s'
    | Some [] =>
      if (c =? 125)%N then findall_go None s' else findall_go (Some [c]) s'
    | Some body =>
      if (c =? 125)%N then (123%N :: rev body ++ [125%N]) :: findall_go None s'
      else findall_go (Some (c :: body)) s'
    end
  end.

Definition findall_tokens (text : str) : list str := findall_go None text.

Definition used_tokens (text : str) : gset str := list_to_set (findall_tokens text).

Definition section_variants : list (str * list str) :=
  [ (u "个人信息", [u "个人信息"; u "基本信息"; u "基本资料"; u "个人简介"]);
    (u "教育背景", [u "教育背景"; u "教育经历"; u "教育经验"; u "教育信息"; u "学习经历"]);
    (u "专业技能", [u "专业技能"; u "技术技能"; u "核心技能"; u "技能特长"; u "专业特长"]);
    (u "工作经历", [u "工作经历"; u "工作经验"; u "相关经验"; u "实习经历"; u "职业经历"]);
    (u "项目经验", [u "项目经验"; u "项目介绍"; u "项目案例"; u "核心项目"; u "相关项目"]) ].

(* section_variants.get(section, [section]) *)
Fixpoint variants_of (section : str) (table : list (str * list str)) : list str :=
  match table with
  | [] => [section]
  | (k, v) :: table' => if str_eqb section k then v else variants_of section table'
  end.

(** [position_requirements], without the keyword lists, which the function
    does not read: the positions of a type and its required sections. *)
Definition position_requirements : list (list TechPosition * list str) :=
  [ (development_positions, [u "专业技能"; u "项目经验"]);
    (algorithm_positions, [u "专业技能"; u "项目经验"; u "研究成果"]);
    (architecture_positions, [u "专业技能"; u "项目经验"; u "架构设计"]);
    (product_positions, [u "产品经验"; u "项目管理"]) ].

(* the required sections of the first type that lists the position *)
Fixpoint required_sections (position : TechPosition)
         (table : list (list TechPosition * list str)) : list str :=
  match table with
  | [] => []
  | (positions, sections) :: table' =>
    if member position positions then sections
    else required_sections position table'
  end.

Section Validation.
Context {U : UnicodeDB}.

(* the required sections no variant of which occurs in the text *)
Definition missing_sections (text : str) (position : TechPosition)
           (recruitment_type : RecruitmentType) : list str :=
  List.filter
    (fun section =>
       if is_campus recruitment_type && str_eqb section (u "工作经历") then false
       else negb (existsb (fun variant => contains variant text)
                          (variants_of section section_variants)))
    (required_sections position position_requirements).

Definition digit : Regex.regex := Regex.Chr is_digit.
Definition spaces : Regex.regex := Regex.Star (Regex.Chr is_space).

Definition quantitative_patterns : list Regex.regex :=
  [ (* \d+[%％] *)
    Regex.Cat (Regex.Plus digit) (Regex.OneOf [u "%"; u "％"]);
    (* \d+\s*(?:万|k|K|w|W) *)
    Regex.Cat (Regex.Plus digit)
      (Regex.Cat spaces (Regex.OneOf [u "万"; u "k"; u "K"; u "w"; u "W"]));
    (* \d+\s*(?:人|台|个|条|次|倍) *)
    Regex.Cat (Regex.Plus digit)
      (Regex.Cat spaces (Regex.OneOf [u "人"; u "台"; u "个"; u "条"; u "次"; u "倍"]));
    (* (?:提升|降低|优化|提高|增长)\s*\d+ *)
    Regex.Cat (Regex.OneOf [u "提升"; u "降低"; u "优化"; u "提高"; u "增长"])
      (Regex.Cat spaces (Regex.Plus digit));
    (* \d+\s*(?:年|月|天) *)
    Regex.Cat (Regex.Plus digit)
      (Regex.Cat spaces (Regex.OneOf [u "年"; u "月"; u "天"]));
    (* (?:TOP|前)\s*\d+ *)
    Regex.Cat (Regex.OneOf [u "TOP"; u "前"]) (Regex.Cat spaces (Regex.Plus digit));
    (* [\d\.]+\s*(?:亿|万|k|K) *)
    Regex.Cat (Regex.Plus (Regex.Chr (fun c => is_digit c || (c =? 46)%N)))
      (Regex.Cat spaces (Regex.OneOf [u "亿"; u "万"; u "k"; u "K"])) ].

Definition has_quantitative (text : str) : bool :=
  existsb (fun pattern => Regex.search pattern text) quantitative_patterns.

Record validation := {
  is_valid : bool;
  issues : list str
}.

(* the structural check: every required marker is used, no other marker is *)
Definition markers_match (text : str) (recruitment_type : RecruitmentType) : Prop :=
  (forall token, token ∈ allowed_tokens recruitment_type ->
                 In token (findall_tokens text))
  /\ (forall token, In token (findall_tokens text) ->
                    token ∈ allowed_tokens recruitment_type).

(* the heuristic check: no required section is missing and some
   quantitative pattern occurs *)
Definition looks_complete (text : str) (position : TechPosition)
           (recruitment_type : RecruitmentType) : Prop :=
  missing_sections text position recruitment_type = []
  /\ has_quantitative text = true.

(** [ResumeGenerator.validate_resume].  The two sets are walked in the
    order of [elements]. *)
Definition validate_resume (resume_content : str) (position : TechPosition)
           (recruitment_type : RecruitmentType) : validation :=
  let allowed := allowed_tokens recruitment_type in
  let used := used_tokens resume_content in
  let missing_tokens := allowed ∖ used in
  let extra_tokens := used ∖ allowed in
  let issues :=
    List.map (fun token =>
                u "缺少必须的标记，请把简历中的有关信息替换成这个标记并重新生成: " ++ token)
             (elements missing_tokens)
    ++ List.map (fun token =>
                u "包含额外的标记，请把简历中的这个标记替换成真实信息并重新生成: " ++ token)
             (elements extra_tokens)
    ++ List.map (fun section => u "建议添加 " ++ section ++ u " 相关内容")
             (missing_sections resume_content position recruitment_type)
    ++ (if has_quantitative resume_content then []
        else [u "建议添加更多量化的成果描述"]) in
  {| is_valid := bool_decide (size missing_tokens = 0%nat)
                 && bool_decide (size extra_tokens = 0%nat);
     issues := issues |}.

(* the reply does not lead to an accepted resume: the request fails, the
   reply has no content, or the content is not valid *)
Definition attempt_fails (position : TechPosition) (recruitment_type : RecruitmentType)
           (r : Zhipu.reply) : Prop :=
  match r with
  | Zhipu.Content text =>
    is_valid (validate_resume text position recruitment_type) = false
  | _ => True
  end.

End Validation.

(** *** generate_resume *)

Record metadata := {
  timestamp : str;
  position : str;
  skill_level : str;
  recruitment_type : str;
  validation_result : option validation
}.

(** What one pass through the body of the loop leads to: the function
    returns, or the attempt counter is incremented with the conversation
    as it then stands. *)
Inductive transition :=
| SUCCESS (resume_content : str) (m : metadata)
| RETRY (conversation_history : list Zhipu.turn).

(** The result of [generate_resume]: a resume with its metadata, or the
    ValueError raised when the attempts are used up. *)
Inductive generation :=
| Returns (resume_content : str) (m : metadata)
| EXHAUSTED.

Record resume_entry := {
  entry_metadata : metadata;
  entry_content : str
}.

(** The member [metadata] of the data: its two time stamps; the member
    [framework_version] is a constant. *)
Record header := {
  creation_time : str;
  last_updated : str
}.

(** [generated_data], in memory and as the output file holds it: the
    members [metadata] and [resumes].  The member [configuration] is written
    from the tables of the program and never read. *)
Record document := {
  doc_metadata : header;
  doc_resumes : list resume_entry
}.

(** The output file: missing, bytes that are not UTF-8, text that is not
    valid JSON, or the JSON object that [save_data] writes.  A file that
    holds JSON of another shape is outside the model. *)
Inductive stored :=
| Missing
| Undecodable
| Invalid
| Stored (data : document).

(** What a write of the output file meets: nothing, a failure to open the
    file, or a failure while writing it.  A failed write leaves the file cut
    short: text that is not valid JSON, or, when the cut falls inside a
    character of several bytes, bytes that cannot be decoded. *)
Inductive write_fault := WriteOk | OpenFails | DumpFails (decodable : bool).

(** The generator object: the data in memory, the output file as last
    written, what the successive writes of the output file meet and how many
    there were, the client and the two counters of
    [batch_generate_resumes]. *)
Record generator := {
  generated_data : document;
  output_file : stored;
  write_faults : nat -> write_fault;
  writes : nat;
  client : Zhipu.client;
  total_generated : nat;
  total_errors : nat
}.

(* self.generated_data["resumes"] *)
Definition resumes (g : generator) : list resume_entry :=
  doc_resumes (generated_data g).

Section Session.
Context {U : UnicodeDB}.

(** [generate_prompt] depends on the requirement tables only; [strftime]
    reads the clock. *)
Variable generate_prompt : TechPosition -> SkillLevel -> RecruitmentType -> str.
Variable strftime : Zhipu.client -> str.

Definition max_attempts : nat := 5.

Definition system_turn : Zhipu.turn :=
  {| Zhipu.role := u "system";
     Zhipu.content := Some (u "你是一个专业的技术简历撰写专家。") |}.

Definition user_turn (text : str) : Zhipu.turn :=
  {| Zhipu.role := u "user"; Zhipu.content := Some text |}.

Definition assistant_turn (text : str) : Zhipu.turn :=
  {| Zhipu.role := u "assistant"; Zhipu.content := Some text |}.

(* the turn appended for a reply whose content is null *)
Definition null_turn : Zhipu.turn :=
  {| Zhipu.role := u "assistant"; Zhipu.content := None |}.

Definition correction_prompt (v : validation) : str :=
  u "你生成的简历存在以下问题，请根据这些问题进行修改：

    " ++ join [10%N] (issues v) ++ u "

    请在修改后的简历中保留之前的格式和要求，并确保所有标记都正确使用，不要包含额外的标记。".

(** One pass through the body of the loop of [generate_resume].  An
    exception of the client or of the access to the content is caught and
    leaves the conversation as it was.  A null content is appended to the
    conversation before [validate_resume] raises on it, which is caught as
    well. *)
Definition attempt (pos : TechPosition) (level : SkillLevel)
           (rtype : RecruitmentType) (conversation_history : list Zhipu.turn)
           (w : Zhipu.client) : transition * Zhipu.client :=
  let (response, w1) := Zhipu.chat_completion conversation_history w in
  match response with
  | Zhipu.Content resume_content =>
    let history := conversation_history ++ [assistant_turn resume_content] in
    let validation_result := validate_resume resume_content pos rtype in
    if is_valid validation_result then
      (SUCCESS resume_content
               {| timestamp := strftime w1;
                  position := TechPosition_value pos;
                  skill_level := SkillLevel_value level;
                  recruitment_type := RecruitmentType_value rtype;
                  validation_result := Some validation_result |}, w1)
    else (RETRY (history ++ [user_turn (correction_prompt validation_result)]), w1)
  | Zhipu.Null => (RETRY (conversation_history ++ [null_turn]), w1)
  | Zhipu.Raises | Zhipu.NoContent => (RETRY conversation_history, w1)
  end.

(** The loop of [generate_resume]: the first argument counts the attempts
    left, [max_attempts - attempt]. *)
Fixpoint attempts (left : nat) (pos : TechPosition) (level : SkillLevel)
         (rtype : RecruitmentType) (conversation_history : list Zhipu.turn)
         (w : Zhipu.client) : generation * Zhipu.client :=
  match left with
  | O => (EXHAUSTED, w)
  | S left' =>
    match attempt pos level rtype conversation_history w with
    | (SUCCESS resume_content m, w1) => (Returns resume_content m, w1)
    | (RETRY history, w1) => attempts left' pos level rtype history w1
    end
  end.

(** [ResumeGenerator.generate_resume]. *)
Definition generate_resume (pos : TechPosition) (level : SkillLevel)
           (rtype : RecruitmentType) (w : Zhipu.client)
  : generation * Zhipu.client :=
  attempts max_attempts pos level rtype
           [system_turn; user_turn (generate_prompt pos level rtype)] w.

(** *** batch_generate_resumes *)

(** [ResumeGenerator._resume_exists]. *)
Definition _resume_exists (pos : TechPosition) (rtype : RecruitmentType)
           (level : SkillLevel) (g : generator) : bool :=
  existsb (fun r =>
             str_eqb (position (entry_metadata r)) (TechPosition_value pos)
             && str_eqb (recruitment_type (entry_metadata r))
                        (RecruitmentType_value rtype)
             && str_eqb (skill_level (entry_metadata r)) (SkillLevel_value level))
          (resumes g).

(* what save_data writes for a resume: the metadata without validation_result *)
Definition cleaned (r : resume_entry) : resume_entry :=
  {| entry_metadata :=
       {| timestamp := timestamp (entry_metadata r);
          position := position (entry_metadata r);
          skill_level := skill_level (entry_metadata r);
          recruitment_type := recruitment_type (entry_metadata r);
          validation_result := None |};
     entry_content := entry_content r |}.

(** [ResumeGenerator.save_data]: the time stamp of the data in memory is
    set, then the output file is opened for writing and receives the data,
    each resume without its [validation_result].  A failure to open the file
    leaves it as it was. *)
Definition save_data (g : generator) : Batch.result unit * generator :=
  let metadata :=
    {| creation_time := creation_time (doc_metadata (generated_data g));
       last_updated := strftime (client g) |} in
  let cleaned_data :=
    {| doc_metadata := metadata; doc_resumes := List.map cleaned (resumes g) |} in
  let after (file : stored) :=
    {| generated_data := {| doc_metadata := metadata; doc_resumes := resumes g |};
       output_file := file;
       write_faults := write_faults g;
       writes := S (writes g);
       client := client g;
       total_generated := total_generated g;
       total_errors := total_errors g |} in
  match write_faults g (writes g) with
  | WriteOk => (Batch.Ok tt, after (Stored cleaned_data))
  | OpenFails => (Batch.Raise Batch.OSError, after (output_file g))
  | DumpFails decodable =>
    (Batch.Raise Batch.OSError, after (if decodable then Invalid else Undecodable))
  end.

(* self.generated_data["resumes"].append(resume_entry), with the client as
   generate_resume left it *)
Definition append_resume (resume_entry : resume_entry) (w : Zhipu.client)
           (g : generator) : generator :=
  {| generated_data :=
       {| doc_metadata := doc_metadata (generated_data g);
          doc_resumes := resumes g ++ [resume_entry] |};
     output_file := output_file g;
     write_faults := write_faults g;
     writes := writes g;
     client := w;
     total_generated := total_generated g;
     total_errors := total_errors g |}.

(* total_generated += 1 *)
Definition count_generated (g : generator) : generator :=
  {| generated_data := generated_data g;
     output_file := output_file g;
     write_faults := write_faults g;
     writes := writes g;
     client := client g;
     total_generated := S (total_generated g);
     total_errors := total_errors g |}.

(* total_errors += 1, in the handler of the innermost try *)
Definition count_error (g : generator) : generator :=
  {| generated_data := generated_data g;
     output_file := output_file g;
     write_faults := write_faults g;
     writes := writes g;
     client := client g;
     total_generated := total_generated g;
     total_errors := S (total_errors g) |}.

(* the generator with the client as a failed generate_resume left it *)
Definition with_client (w : Zhipu.client) (g : generator) : generator :=
  {| generated_data := generated_data g;
     output_file := output_file g;
     write_faults := write_faults g;
     writes := writes g;
     client := w;
     total_generated := total_generated g;
     total_errors := total_errors g |}.

(** The body of the innermost loop of [batch_generate_resumes], with its
    exception handler.  The resume is appended to the data before
    [save_data] is called and counted after it: when the write fails the
    resume stays in memory and the item is counted as an error. *)
Definition generate_item (pos : TechPosition) (rtype : RecruitmentType)
           (g : generator) (level : SkillLevel) : generator :=
  if _resume_exists pos rtype level g then g
  else
    match generate_resume pos level rtype (client g) with
    | (Returns resume_content m, w1) =>
      let resume_entry := {| entry_metadata := m; entry_content := resume_content |} in
      match save_data (append_resume resume_entry w1 g) with
      | (Batch.Ok _, g1) => count_generated g1
      | (Batch.Raise _, g1) => count_error g1
      end
    | (EXHAUSTED, w1) => count_error (with_client w1 g)
    end.

(* the loop over the skill levels of one position and recruitment type *)
Definition levels_loop (pos : TechPosition) (rtype : RecruitmentType)
           (levels : list SkillLevel) (g : generator) : generator :=
  fold_left (generate_item pos rtype) levels g.

(** The loop over the recruitment types of one position; the flag tells
    that [get_applicable_skill_levels] raised, which ends the batch. *)
Fixpoint types_loop (pos : TechPosition) (types : list RecruitmentType)
         (g : generator) : generator * bool :=
  match types with
  | [] => (g, false)
  | rtype :: rest =>
    match get_applicable_skill_levels rtype with
    | None => (g, true)
    | Some levels => types_loop pos rest (levels_loop pos rtype levels g)
    end
  end.

Fixpoint positions_loop (positions : list TechPosition) (g : generator) : generator :=
  match positions with
  | [] => g
  | pos :: rest =>
    let (g1, raised) := types_loop pos (get_applicable_recruitment_types pos) g in
    if raised then g1 else positions_loop rest g1
  end.

(** [ResumeGenerator.batch_generate_resumes]. *)
Definition batch_generate_resumes (g : generator) : generator :=
  positions_loop all_positions g.

(** *** The output file when the generator is created *)

(** [ResumeGenerator.load_or_create_output_file], in the constructor of a
    generator with the given client: the generator, or the exception that
    leaves the constructor.  Only FileNotFoundError and JSONDecodeError are
    caught; the new data are then written with [save_data], which may
    raise. *)
Definition load_or_create_output_file (file : stored) (faults : nat -> write_fault)
           (w : Zhipu.client) : Batch.result generator :=
  let created (data : document) :=
    {| generated_data := data;
       output_file := file;
       write_faults := faults;
       writes := 0;
       client := w;
       total_generated := 0;
       total_errors := 0 |} in
  match file with
  | Stored data => Batch.Ok (created data)
  | Undecodable => Batch.Raise Batch.UnicodeDecodeError
  | Missing | Invalid =>
    match save_data (created {| doc_metadata := {| creation_time := strftime w;
                                                   last_updated := strftime w |};
                                doc_resumes := [] |}) with
    | (Batch.Ok _, g) => Batch.Ok g
    | (Batch.Raise e, _) => Batch.Raise e
    end
  end.

End Session.

(** *** Vocabulary for the properties of the batch *)

(* the combinations the three nested loops of the batch go through *)
Definition work_items : list (TechPosition * RecruitmentType * SkillLevel) :=
  flat_map
    (fun pos =>
       flat_map
         (fun rtype =>
            List.map (fun level => (pos, rtype, level))
                     (default [] (get_applicable_skill_levels rtype)))
         (get_applicable_recruitment_types pos))
    all_positions.

(* the file holds the given resumes, under some time stamps *)
Definition stores (file : stored) (entries : list resume_entry) : Prop :=
  exists metadata,
    file = Stored {| doc_metadata := metadata; doc_resumes := entries |}.

(* the writes numbered first, first + 1, ..., first + n - 1 that fail *)
Definition failed_writes (faults : nat -> write_fault) (first n : nat) : list nat :=
  List.filter (fun k => match faults k with WriteOk => false | _ => true end)
              (List.seq first n).

(* the entry was stored with a validation result that says valid *)
Definition accepted {U : UnicodeDB} (e : resume_entry) : Prop :=
  exists text pos rtype,
    entry_content e = text
    /\ validation_result (entry_metadata e) = Some (validate_resume text pos rtype)
    /\ position (entry_metadata e) = TechPosition_value pos
    /\ recruitment_type (entry_metadata e) = RecruitmentType_value rtype
    /\ markers_match text rtype.

End Gen.

(** ** The vocabulary of the design document

    Definitions written after the words of the document, to compare the
    program with. *)

Module Design.

(* the arithmetic mean of the samples *)
Definition arithmetic_mean (xs : list Z) : Q :=
  (inject_Z (fold_right Z.add 0%Z xs) / inject_Z (Z.of_nat (length xs)))%Q.

(* the sample variance: squared deviations from the mean over n - 1 *)
Definition sample_variance (xs : list Z) : Q :=
  (fold_right (fun (x : Z) (acc : Q) =>
                 (inject_Z x - arithmetic_mean xs) * (inject_Z x - arithmetic_mean xs)
                 + acc) (0 : Q) xs
   / (inject_Z (Z.of_nat (length xs)) - 1))%Q.

(* the population variance: squared deviations from the mean over n *)
Definition population_variance (xs : list Z) : Q :=
  (fold_right (fun (x : Z) (acc : Q) =>
                 (inject_Z x - arithmetic_mean xs) * (inject_Z x - arithmetic_mean xs)
                 + acc) (0 : Q) xs
   / inject_Z (Z.of_nat (length xs)))%Q.

(* the fraction is an integer *)
Definition integral (q : Q) : bool := (Qden (Qred q) =? 1)%positive.

Section Stored.
Context {F : Statistics.FloatArith}.

(* the number stored for the mean: the mean itself when it is an integer,
   the float nearest to it otherwise *)
Definition is_mean (xs : list Z) (m : Q) : Prop :=
  (m == if integral (arithmetic_mean xs) then arithmetic_mean xs
        else Statistics.float_of_fraction (arithmetic_mean xs))%Q.

(* the number stored for the sample standard deviation: 0 with fewer than
   two samples, the float nearest to the square root of the sample variance
   otherwise *)
Definition is_sample_std (xs : list Z) (sd : Q) : Prop :=
  if (length xs <? 2)%nat then sd = 0%Q
  else (sd == Statistics.float_sqrt (sample_variance xs))%Q.

(* the mean and the standard deviation of one metric over the samples *)
Definition summarises (xs : list Z) (st : Judge.metric_stats) : Prop :=
  Judge.scores st = xs
  /\ (exists m, Judge.mean st = Some m /\ is_mean xs m)
  /\ (exists sd, Judge.std st = Some sd /\ is_sample_std xs sd).

End Stored.

Section Attempts.
Context {U : UnicodeDB}.

(* K scoring attempts in a row: the results of K calls of evaluate_single,
   each starting where the one before ended *)
Inductive scoring_attempts (position content : str)
  : nat -> Ollama.client -> list (option Judge.sample) -> Ollama.client -> Prop :=
| no_attempt (w : Ollama.client) : scoring_attempts position content 0 w [] w
| next_attempt (K : nat) (w w1 w2 : Ollama.client) (result : option Judge.sample)
               (results : list (option Judge.sample)) :
    Judge.evaluate_single position content 3 w = (result, w1) ->
    scoring_attempts position content K w1 results w2 ->
    scoring_attempts position content (S K) w (result :: results) w2.

End Attempts.

(* the valid samples among the results of the attempts, in order *)
Fixpoint valid_samples (results : list (option Judge.sample)) : list Judge.sample :=
  match results with
  | [] => []
  | Some d :: rest => d :: valid_samples rest
  | None :: rest => valid_samples rest
  end.

End Design.

(** * Properties *)

(** ** Character classes and digit strings *)

Section StrFacts.
Context {U : UnicodeDB}.

Lemma space_not_digit (c : N) : is_space c = true -> is_digit c = false.
Proof.
  unfold is_space, is_digit, digit_value.
  destruct (c <? 128)%N eqn:Hascii.
  - intros Hs.
    destruct ((48 <=? c)%N && (c <=? 57)%N) eqn:Hd; [|reflexivity].
    apply andb_prop in Hd as [H1 H2].
    apply N.leb_le in H1, H2.
    apply orb_prop in Hs as [Hs|Hs]; apply andb_prop in Hs as [H3 H4];
      apply N.leb_le in H3, H4; lia.
  - intros Hs. now rewrite (nd_not_ws c Hs).
Qed.

Lemma filter_dropwhile (p q : N -> bool) (s : str) :
  (forall c, p c = true -> q c = false) ->
  List.filter q (dropwhile p s) = List.filter q s.
Proof.
  intros Hpq. induction s as [|c s IH]; [reflexivity|].
  cbn [dropwhile]. destruct (p c) eqn:Hp; [|reflexivity].
  cbn [List.filter]. now rewrite (Hpq c Hp).
Qed.

Lemma filter_digits_strip (s : str) :
  List.filter is_digit (strip s) = List.filter is_digit s.
Proof.
  unfold strip.
  rewrite List.filter_rev, (filter_dropwhile is_space is_digit) by apply space_not_digit.
  rewrite List.filter_rev, rev_involutive.
  apply filter_dropwhile, space_not_digit.
Qed.

Lemma int_digits_decimal (s : str) (acc : Z) :
  List.Forall (fun c => is_digit c = true) s ->
  int_digits acc s =
  Some (fold_left (fun a c => 10 * a + Z.of_N (default 0%N (digit_value c))) s acc).
Proof.
  intros Hs. revert acc. induction Hs as [|c s Hc _ IH]; intros acc; [reflexivity|].
  cbn [int_digits fold_left]. unfold is_digit in Hc.
  destruct (digit_value c) as [d|]; [|discriminate]. apply IH.
Qed.

Lemma int_of_digits (s : str) :
  s <> [] -> List.Forall (fun c => is_digit c = true) s ->
  (length s <= max_str_digits)%nat ->
  int s = Some (decimal_number s).
Proof.
  intros Hne Hs Hlen. destruct s as [|c s]; [congruence|].
  unfold int. destruct (Nat.ltb_spec max_str_digits (length (c :: s))); [lia|].
  now apply int_digits_decimal.
Qed.

Lemma int_too_long (s : str) : (max_str_digits < length s)%nat -> int s = None.
Proof.
  intros Hlen. destruct s as [|c s]; [reflexivity|].
  unfold int. destruct (Nat.ltb_spec max_str_digits (length (c :: s))); [reflexivity|lia].
Qed.

Lemma fold_decimal_nonneg (s : str) (acc : Z) :
  0 <= acc ->
  0 <= fold_left (fun a c => 10 * a + Z.of_N (default 0%N (digit_value c))) s acc.
Proof.
  revert acc. induction s as [|c s IH]; intros acc Hacc; [exact Hacc|].
  cbn [fold_left]. apply IH. lia.
Qed.

Lemma decimal_number_nonneg (s : str) : 0 <= decimal_number s.
Proof. apply fold_decimal_nonneg. lia. Qed.

Lemma int_digits_nonneg (s : str) (acc n : Z) :
  0 <= acc -> int_digits acc s = Some n -> 0 <= n.
Proof.
  revert acc. induction s as [|c s IH]; intros acc Hacc; cbn [int_digits].
  - intros [= <-]. exact Hacc.
  - destruct (digit_value c) as [d|]; [|discriminate]. apply IH. lia.
Qed.

Lemma int_nonneg (s : str) (n : Z) : int s = Some n -> 0 <= n.
Proof.
  destruct s as [|c s]; [discriminate|]. unfold int.
  destruct (max_str_digits <? length (c :: s))%nat; [discriminate|].
  apply int_digits_nonneg. lia.
Qed.

Lemma filter_all_digits (s : str) :
  List.Forall (fun c => is_digit c = true) (List.filter is_digit s).
Proof.
  apply List.Forall_forall. intros c Hc. now apply List.filter_In in Hc.
Qed.

End StrFacts.

(** ** judge_resumes_simple.py: the single-score extractor *)

Section SimpleExtractor.
Context {U : UnicodeDB}.

Lemma extract_score_no_digit (response : str) :
  List.filter is_digit response = [] -> Simple._extract_score response = None.
Proof.
  intros Hf. unfold Simple._extract_score, Simple.sub_non_digits.
  now rewrite filter_digits_strip, Hf.
Qed.

Lemma extract_score_too_long (response : str) :
  (max_str_digits < length (List.filter is_digit response))%nat ->
  Simple._extract_score response = None.
Proof.
  intros Hlen. unfold Simple._extract_score, Simple.sub_non_digits.
  rewrite filter_digits_strip. rewrite (int_too_long _ Hlen).
  now destruct (List.filter is_digit response).
Qed.

Lemma extract_score_digits (response : str) :
  List.filter is_digit response <> [] ->
  (length (List.filter is_digit response) <= max_str_digits)%nat ->
  Simple._extract_score response =
  if decimal_number (List.filter is_digit response) <=? 100
  then Some (decimal_number (List.filter is_digit response)) else None.
Proof.
  intros Hne Hlen. unfold Simple._extract_score, Simple.sub_non_digits.
  rewrite filter_digits_strip.
  pose proof (decimal_number_nonneg (List.filter is_digit response)) as Hpos.
  pose proof (int_of_digits _ Hne (filter_all_digits response) Hlen) as Hint.
  destruct (List.filter is_digit response) as [|c digits]; [congruence|].
  rewrite Hint.
  destruct (decimal_number (c :: digits) <? 0) eqn:Hneg; [apply Z.ltb_lt in Hneg; lia|].
  cbn [orb]. rewrite Z.gtb_ltb.
  destruct (Z.ltb_spec 100 (decimal_number (c :: digits)));
    destruct (Z.leb_spec (decimal_number (c :: digits)) 100); try lia; reflexivity.
Qed.

(** C10, as the program has it.  [_extract_score] removes every character
    that is not a digit and reads the digits that remain as one decimal
    number [n]: the result is None when no digit remains, when [n] exceeds
    100 or when there are more digits than [int] accepts, and [n] itself,
    between 0 and 100, otherwise.  Hence the answer 85/100 is rejected (its
    digits read 85100) and 8.5 is read as 85. *)
Theorem extract_score_reads_digit_concatenation (response : str) :
  let digits := List.filter is_digit response in
  let n := decimal_number digits in
  (Simple._extract_score response = None
   \/ Simple._extract_score response = Some n /\ 0 <= n <= 100)
  /\ (Simple._extract_score response = None
      <-> digits = [] \/ 100 < n \/ (max_str_digits < length digits)%nat)
  /\ (decimal_number (List.filter is_digit (u "85/100")) = 85100
      /\ Simple._extract_score (u "85/100") = None)
  /\ Simple._extract_score (u "8.5") = Some 85.
Proof.
  cbv zeta.
  pose proof (decimal_number_nonneg (List.filter is_digit response)) as Hpos.
  assert (Hcase : List.filter is_digit response = []
                  \/ (max_str_digits < length (List.filter is_digit response))%nat
                  \/ List.filter is_digit response <> []
                     /\ (length (List.filter is_digit response) <= max_str_digits)%nat).
  { destruct (List.filter is_digit response) as [|c digits]; [now left|right].
    destruct (Nat.ltb_spec max_str_digits (length (c :: digits))); [now left|right].
    split; [discriminate|assumption]. }
  split; [|split; [|split; [split; reflexivity|reflexivity]]].
  - destruct Hcase as [Hnil|[Hlong|[Hne Hlen]]];
      [left; now apply extract_score_no_digit
      |left; now apply extract_score_too_long|].
    rewrite (extract_score_digits _ Hne Hlen).
    destruct (Z.leb_spec (decimal_number (List.filter is_digit response)) 100);
      [right; split; [reflexivity|lia] | left; reflexivity].
  - destruct Hcase as [Hnil|[Hlong|[Hne Hlen]]].
    + split; [now left|intros _; now apply extract_score_no_digit].
    + split; [now right; right|intros _; now apply extract_score_too_long].
    + rewrite (extract_score_digits _ Hne Hlen).
      destruct (Z.leb_spec (decimal_number (List.filter is_digit response)) 100).
      * split; [discriminate|]. intros [Hnil|[Hbig|Hlong]]; [contradiction|lia|lia].
      * split; [now right; left|reflexivity].
Qed.

End SimpleExtractor.

(** Concrete responses, with the database [cjk_db]. *)

Section SimpleRuns.

(* 4300 zeros followed by the digit 5 *)
Definition zeros_then_five : str := List.repeat 48%N 4300 ++ [53%N].

(** C10, as stated, fails: the digits of the response read 5, a number
    between 0 and 100, and the result is None, because [int] refuses a
    string of 4301 digits. *)
Lemma long_digit_string_gives_no_score :
  length (List.filter (@is_digit cjk_db) zeros_then_five) = 4301%nat
  /\ @decimal_number cjk_db (List.filter (@is_digit cjk_db) zeros_then_five) = 5
  /\ @Simple._extract_score cjk_db zeros_then_five = None.
Proof. split; [vm_compute; reflexivity|]. split; vm_compute; reflexivity. Qed.

End SimpleRuns.

(** ** Means and standard deviations *)

Section StatisticsFacts.
Context {F : Statistics.FloatArith}.

Lemma mean_fraction_correct (xs : list Z) :
  (Statistics.mean_fraction xs == Design.arithmetic_mean xs)%Q.
Proof. apply Qred_correct. Qed.

Lemma variance_fraction_correct (xs : list Z) :
  (Statistics.variance_fraction xs == Design.sample_variance xs)%Q.
Proof. apply Qred_correct. Qed.

(* the mean the library returns is the arithmetic mean as it is stored *)
Lemma mean_is_mean (xs : list Z) :
  xs <> [] ->
  exists m, Statistics.mean xs = Some m /\ Design.is_mean xs m.
Proof.
  intros Hne. exists (Statistics.convert (Statistics.mean_fraction xs)).
  split; [destruct xs; [congruence|reflexivity]|].
  unfold Design.is_mean, Design.integral, Statistics.convert.
  change (Qred (Design.arithmetic_mean xs)) with (Statistics.mean_fraction xs).
  destruct (Qden (Statistics.mean_fraction xs) =? 1)%positive.
  - apply mean_fraction_correct.
  - apply Statistics.float_of_fraction_compat, mean_fraction_correct.
Qed.

Lemma stdev_is_sample_std (xs : list Z) :
  (2 <= length xs)%nat ->
  exists sd, Statistics.stdev xs = Some sd
             /\ (sd == Statistics.float_sqrt (Design.sample_variance xs))%Q.
Proof.
  intros Hlen. unfold Statistics.stdev.
  destruct (Nat.ltb_spec (length xs) 2); [lia|].
  eexists. split; [reflexivity|].
  apply Statistics.float_sqrt_compat, variance_fraction_correct.
Qed.

(* a number between two integers stays between them when it is converted *)
Lemma convert_bounds (lo hi : Z) (q : Q) :
  Z.abs lo <= 2 ^ 53 -> Z.abs hi <= 2 ^ 53 ->
  (inject_Z lo <= q)%Q -> (q <= inject_Z hi)%Q ->
  (inject_Z lo <= Statistics.convert q)%Q /\ (Statistics.convert q <= inject_Z hi)%Q.
Proof.
  intros Hlo Hhi Hl Hh. unfold Statistics.convert.
  destruct (Qden q =? 1)%positive; [now split|]. split.
  - rewrite <- (Statistics.float_of_fraction_int lo Hlo).
    now apply Statistics.float_of_fraction_le.
  - rewrite <- (Statistics.float_of_fraction_int hi Hhi).
    now apply Statistics.float_of_fraction_le.
Qed.

Lemma Qred_inject_Z (x : Z) : Qred (inject_Z x) = inject_Z x.
Proof.
  unfold Qred, inject_Z.
  pose proof (Z.ggcd_gcd x 1) as Hg. pose proof (Z.ggcd_correct_divisors x 1) as Hd.
  destruct (Z.ggcd x 1) as [g [aa bb]]. cbn [fst snd] in *.
  rewrite Z.gcd_1_r in Hg. subst g. destruct Hd as [Ha Hb].
  rewrite Z.mul_1_l in Ha, Hb. subst. reflexivity.
Qed.

Lemma mean_singleton (x : Z) : Statistics.mean [x] = Some (inject_Z x).
Proof.
  unfold Statistics.mean, Statistics.mean_fraction.
  assert (Hx : (inject_Z (Statistics.total [x]) / Statistics.of_len [x] == inject_Z x)%Q).
  { unfold Statistics.total, Statistics.of_len. cbn [fold_right length].
    change (Z.of_nat 1) with 1%Z. rewrite Z.add_0_r. field. }
  rewrite (Qred_complete _ _ Hx), Qred_inject_Z.
  reflexivity.
Qed.

End StatisticsFacts.

(** ** The aggregation of judge_resumes_simple.py *)

Section SimpleAggregation.
Context {U : UnicodeDB} {F : Statistics.FloatArith}.

Lemma five_is_not_population_std : 5%R <> sqrt (50 / 3)%R.
Proof.
  intros Heq.
  assert (Hsq : (sqrt (50 / 3) * sqrt (50 / 3) = 50 / 3)%R) by (apply sqrt_sqrt; lra).
  rewrite <- Heq in Hsq. lra.
Qed.

Lemma stats_80_85_90 (now : str) :
  exists sd, Simple.stats [80; 85; 90] now
             = Some (Simple.EvalStats [80; 85; 90] 85 sd now)
             /\ (sd == 5)%Q.
Proof.
  exists (Statistics.float_sqrt 25). split; [reflexivity|].
  exact (Statistics.float_sqrt_square 5 ltac:(lia)).
Qed.

(** C3, as the program has it.  For the scores 80, 85, 90 the aggregation
    of [evaluate_multiple] gives the mean 85 and the sample standard
    deviation, the square root of 50/2, which is 5; a single score gives
    the standard deviation 0. *)
Theorem aggregation_mean_and_sample_std :
  (forall now,
      exists sd, Simple.stats [80; 85; 90] now
                 = Some (Simple.EvalStats [80; 85; 90] 85 sd now)
                 /\ (sd == 5)%Q)
  /\ (forall position content now,
         exists sd,
           fst (Simple.evaluate_multiple
                  position content 3 now
                  (Ollama.fresh (Ollama.scripted [Some (u "80"); Some (u "85");
                                                  Some (u "90")])))
           = Some (Simple.EvalStats [80; 85; 90] 85 sd now)
           /\ (sd == 5)%Q)
  /\ (exists sd, Statistics.stdev [80; 85; 90] = Some sd
                 /\ (sd == Statistics.float_sqrt
                             (Design.sample_variance [80; 85; 90]%Z))%Q
                 /\ (Design.sample_variance [80; 85; 90]%Z == 50 / 2)%Q
                 /\ (sd == 5)%Q)
  /\ (forall x now,
         Simple.stats [x] now = Some (Simple.EvalStats [x] (inject_Z x) 0 now)).
Proof.
  split; [apply stats_80_85_90|]. split; [|split].
  - intros position content now. destruct (stats_80_85_90 now) as (sd & Hsd & H5).
    exists sd. split; [|exact H5]. rewrite <- Hsd. reflexivity.
  - exists (Statistics.float_sqrt 25). split; [reflexivity|]. split; [|split].
    + apply Statistics.float_sqrt_compat. reflexivity.
    + reflexivity.
    + exact (Statistics.float_sqrt_square 5 ltac:(lia)).
  - intros x now. unfold Simple.stats. rewrite mean_singleton. reflexivity.
Qed.

End SimpleAggregation.

(** The aggregation on the scores 80, 85, 90, evaluated with the
    arithmetic [exact_arith]: the numbers met are integers. *)

Section SimpleAggregationRuns.

(** C3, as stated, fails: on 80, 85, 90 the standard deviation the program
    stores is 5, not the population one, the square root of 50/3. *)
Lemma aggregation_std_is_not_population :
  (exists sd,
      @Simple.stats Statistics.exact_arith [80; 85; 90] []
      = Some (Simple.EvalStats [80; 85; 90] 85 sd [])
      /\ (sd == 5)%Q
      /\ Q2R sd <> sqrt (50 / 3)%R)
  /\ (Design.population_variance [80; 85; 90]%Z == 50 / 3)%Q.
Proof.
  split; [|reflexivity].
  destruct (@stats_80_85_90 Statistics.exact_arith []) as (sd & Hsd & H5).
  exists sd. split; [exact Hsd|]. split; [exact H5|].
  rewrite (Qeq_eqR _ _ H5).
  replace (Q2R 5) with 5%R by (unfold Q2R; cbn; lra).
  apply five_is_not_population_std.
Qed.

End SimpleAggregationRuns.

(** ** judge_resumes.py: the extraction of the three scores *)

Section JudgeExtraction.
Context {U : UnicodeDB}.

Lemma metric_eqb_eq (a b : Judge.metric) : Judge.metric_eqb a b = true -> a = b.
Proof. destruct a, b; cbn; congruence. Qed.

Lemma lookup_score_bounds (m : Judge.metric) (d : list (Judge.metric * Z)) (s : Z) :
  Judge.within_bounds d -> Judge.lookup_score m d = Some s -> 0 <= s <= Judge.max_scores m.
Proof.
  induction 1 as [|[k v] d Hkv _ IH]; cbn [Judge.lookup_score]; [discriminate|].
  destruct (Judge.metric_eqb m k) eqn:Hmk; [|exact IH].
  intros [= <-]. now rewrite (metric_eqb_eq _ _ Hmk).
Qed.

(* a score that the inner loop returns passed both range checks *)
Lemma scan_lines_found (m : Judge.metric) (lines : list str)
      (invalid invalid' : list Judge.invalid_score) (s : Z) :
  Judge.scan_lines m lines invalid = Some (Some s, invalid') ->
  0 <= s <= Judge.max_scores m.
Proof.
  revert invalid. induction lines as [|line rest IH]; intros invalid; cbn [Judge.scan_lines].
  - discriminate.
  - destruct (Judge.re_search m line) as [groups|]; [|apply IH].
    destruct (Judge.first_group groups) as [score_str|]; [|apply IH].
    destruct (int score_str) as [score|]; cbn; [|discriminate].
    destruct ((score <? 0) || (score >? 100)) eqn:Hrange; [apply IH|].
    destruct (score >? Judge.max_scores m) eqn:Hmax; [apply IH|].
    intros [= <- _].
    apply orb_false_elim in Hrange as [Hneg _].
    apply Z.ltb_ge in Hneg. rewrite Z.gtb_ltb in Hmax. apply Z.ltb_ge in Hmax. lia.
Qed.

(* when every score the lines give is out of bounds, the inner loop finds none *)
Lemma scan_lines_none (m : Judge.metric) (lines : list str)
      (invalid : list Judge.invalid_score) :
  (forall line s, In line lines -> Judge.extracted m line s ->
                  s < 0 \/ Judge.max_scores m < s) ->
  Judge.scan_lines m lines invalid = None
  \/ exists invalid', Judge.scan_lines m lines invalid = Some (None, invalid').
Proof.
  revert invalid. induction lines as [|line rest IH]; intros invalid Hout;
    cbn [Judge.scan_lines].
  - right. now exists invalid.
  - assert (Hrest : forall line s, In line rest -> Judge.extracted m line s ->
                                   s < 0 \/ Judge.max_scores m < s)
      by (intros l s Hl; apply Hout; now right).
    destruct (Judge.re_search m line) as [groups|] eqn:Hsearch; [|now apply IH].
    destruct (Judge.first_group groups) as [score_str|] eqn:Hgroup; [|now apply IH].
    destruct (int score_str) as [score|] eqn:Hint; cbn; [|now left].
    destruct ((score <? 0) || (score >? 100)) eqn:Hrange; [now apply IH|].
    destruct (score >? Judge.max_scores m) eqn:Hmax; [now apply IH|].
    exfalso.
    assert (Hex : Judge.extracted m line score) by (now exists groups, score_str).
    apply orb_false_elim in Hrange as [Hneg _].
    apply Z.ltb_ge in Hneg. rewrite Z.gtb_ltb in Hmax. apply Z.ltb_ge in Hmax.
    destruct (Hout line score (or_introl eq_refl) Hex); lia.
Qed.

Lemma extract_all_within_bounds (ms : list Judge.metric) (lines : list str)
      (st st' : Judge.extraction) :
  Judge.within_bounds (Judge.found st) ->
  Judge.extract_all ms lines st = Some st' ->
  Judge.within_bounds (Judge.found st').
Proof.
  revert st. induction ms as [|m ms IH]; intros st Hst; cbn [Judge.extract_all].
  - now intros [= <-].
  - destruct (Judge.scan_lines m lines (Judge.invalid_scores st))
      as [[[score|] invalid]|] eqn:Hscan; cbn; [| |discriminate].
    + apply IH. cbn. apply List.Forall_app. split; [exact Hst|].
      constructor; [|constructor]. now apply scan_lines_found in Hscan.
    + now apply IH.
Qed.

Lemma extract_all_keeps_missing (ms : list Judge.metric) (lines : list str)
      (st st' : Judge.extraction) :
  Judge.missing_required st <> [] ->
  Judge.extract_all ms lines st = Some st' ->
  Judge.missing_required st' <> [].
Proof.
  revert st. induction ms as [|m ms IH]; intros st Hst; cbn [Judge.extract_all].
  - now intros [= <-].
  - destruct (Judge.scan_lines m lines (Judge.invalid_scores st))
      as [[[score|] invalid]|]; cbn; [| |discriminate].
    + now apply IH.
    + apply IH. cbn. now destruct (Judge.missing_required st).
Qed.

Lemma extract_all_misses (ms : list Judge.metric) (lines : list str)
      (st st' : Judge.extraction) (m : Judge.metric) :
  In m ms ->
  (forall line s, In line lines -> Judge.extracted m line s ->
                  s < 0 \/ Judge.max_scores m < s) ->
  Judge.extract_all ms lines st = Some st' ->
  Judge.missing_required st' <> [].
Proof.
  intros Hin Hout. revert st.
  induction ms as [|m0 ms IH]; intros st; [destruct Hin|].
  cbn [Judge.extract_all]. destruct Hin as [->|Hin].
  - destruct (scan_lines_none m lines (Judge.invalid_scores st) Hout)
      as [Hscan|[invalid Hscan]]; rewrite Hscan; cbn; [discriminate|].
    apply extract_all_keeps_missing. cbn. now destruct (Judge.missing_required st).
  - destruct (Judge.scan_lines m0 lines (Judge.invalid_scores st))
      as [[[score|] invalid]|]; cbn; [| |discriminate]; now apply IH.
Qed.

Lemma all_metrics (m : Judge.metric) : In m Judge.metrics.
Proof. destruct m; cbn; auto. Qed.

(** C4.  Every sample that [_extract_scores] returns has its three scores
    within 0..40, 0..40 and 0..20 and their sum as total; and a response in
    which every score that can be read for some metric is out of bounds
    yields no sample. *)
Theorem extract_scores_within_bounds (response : str) :
  (forall d, Judge._extract_scores response = Some d ->
             0 <= Judge.capability_score d <= 40
             /\ 0 <= Judge.experience_score d <= 40
             /\ 0 <= Judge.potential_score d <= 20
             /\ Judge.total_score d
                = Judge.capability_score d + Judge.experience_score d
                  + Judge.potential_score d)
  /\ (forall m,
         (forall line s, In line (Judge.score_lines response) ->
                         Judge.extracted m line s ->
                         s < 0 \/ Judge.max_scores m < s) ->
         Judge._extract_scores response = None).
Proof.
  unfold Judge._extract_scores. split.
  - intros d.
    destruct (Judge.score_lines response) as [|l lines]; [discriminate|].
    destruct (Judge.extract_all Judge.metrics (l :: lines) Judge.nothing_yet)
      as [st|] eqn:Hall; cbn; [|discriminate].
    assert (Hb : Judge.within_bounds (Judge.found st))
      by (eapply extract_all_within_bounds; [|exact Hall]; constructor).
    destruct (Judge.missing_required st); [|discriminate].
    destruct (Judge.invalid_scores st); [|discriminate].
    destruct (Judge.lookup_score Judge.M_capability (Judge.found st)) as [c|] eqn:Hc;
      cbn; [|discriminate].
    destruct (Judge.lookup_score Judge.M_experience (Judge.found st)) as [e|] eqn:He;
      cbn; [|discriminate].
    destruct (Judge.lookup_score Judge.M_potential (Judge.found st)) as [p|] eqn:Hp;
      cbn; [|discriminate].
    intros [= <-]. cbn.
    apply (lookup_score_bounds _ _ _ Hb) in Hc, He, Hp. cbn in Hc, He, Hp.
    repeat split; lia.
  - intros m Hout.
    destruct (Judge.score_lines response) as [|l lines]; [reflexivity|].
    destruct (Judge.extract_all Judge.metrics (l :: lines) Judge.nothing_yet)
      as [st|] eqn:Hall; cbn; [|reflexivity].
    pose proof (extract_all_misses _ _ _ _ m (all_metrics m) Hout Hall) as Hmiss.
    now destruct (Judge.missing_required st).
Qed.

End JudgeExtraction.

(** ** judge_resumes.py: evaluate_single and evaluate_multiple *)

Section JudgeEvaluation.
Context {U : UnicodeDB} {F : Statistics.FloatArith}.

Lemma generate_spec (prompt : str) (w : Ollama.client) :
  fst (Ollama.generate prompt w) = Ollama.answers w (Ollama.calls w)
  /\ Ollama.calls (snd (Ollama.generate prompt w)) = S (Ollama.calls w)
  /\ Ollama.answers (snd (Ollama.generate prompt w)) = Ollama.answers w.
Proof.
  unfold Ollama.generate, Ollama.calls. cbn. rewrite List.length_app. cbn.
  repeat split; lia.
Qed.

Lemma out_of_bounds_no_sample (r : str) :
  Judge.out_of_bounds r -> Judge._extract_scores r = None.
Proof.
  intros (st & Hall & Hinv). unfold Judge._extract_scores.
  destruct (Judge.score_lines r); [reflexivity|].
  rewrite Hall. cbn.
  destruct (Judge.missing_required st); [|reflexivity].
  now destruct (Judge.invalid_scores st).
Qed.

(* a response without a sample sends the loop to its next iteration *)
Lemma evaluate_single_loop_retry (left : nat) (prompt : str) (w : Ollama.client)
      (r : str) :
  Ollama.answers w (Ollama.calls w) = Some r ->
  Judge._extract_scores r = None ->
  Judge.evaluate_single_loop (S left) prompt w
  = Judge.evaluate_single_loop left prompt (snd (Ollama.generate prompt w)).
Proof.
  intros Hans Hnone. cbn [Judge.evaluate_single_loop].
  unfold Ollama.generate. fold (Ollama.calls w). rewrite Hans. cbn [snd].
  destruct r; [reflexivity|]. now rewrite Hnone.
Qed.

Lemma evaluate_single_loop_accepts (left : nat) (prompt : str) (w : Ollama.client)
      (r : str) (d : Judge.sample) :
  Ollama.answers w (Ollama.calls w) = Some r ->
  Judge._extract_scores r = Some d ->
  Judge.evaluate_single_loop (S left) prompt w
  = (Some d, snd (Ollama.generate prompt w)).
Proof.
  intros Hans Hd. cbn [Judge.evaluate_single_loop].
  unfold Ollama.generate. fold (Ollama.calls w). rewrite Hans. cbn [snd].
  destruct r; [discriminate|]. now rewrite Hd.
Qed.

(* the loop sends at most one request per iteration, and at least one *)
Lemma evaluate_single_loop_calls (left : nat) (prompt : str) (w : Ollama.client) :
  let w' := snd (Judge.evaluate_single_loop left prompt w) in
  (Ollama.calls w + min left 1 <= Ollama.calls w' <= Ollama.calls w + left)%nat
  /\ Ollama.answers w' = Ollama.answers w.
Proof.
  cbv zeta. revert w. induction left as [|left IH]; intros w.
  - cbn. split; [lia|reflexivity].
  - cbn [Judge.evaluate_single_loop].
    replace (Nat.min (S left) 1) with 1%nat by lia.
    destruct (generate_spec prompt w) as (_ & Hcalls & Hanswers).
    destruct (Ollama.generate prompt w) as [response w1]. cbn [snd] in *.
    specialize (IH w1). rewrite Hcalls, Hanswers in IH.
    assert (Hretry :
              (Ollama.calls w + 1
               <= Ollama.calls (snd (Judge.evaluate_single_loop left prompt w1))
               <= Ollama.calls w + S left)%nat
              /\ Ollama.answers (snd (Judge.evaluate_single_loop left prompt w1))
                 = Ollama.answers w) by (split; [lia|tauto]).
    destruct response as [[|c r]|].
    + exact Hretry.
    + destruct (Judge._extract_scores (c :: r)); [|exact Hretry].
      cbn [snd]. rewrite Hcalls, Hanswers. split; [lia|reflexivity].
    + exact Hretry.
Qed.

(* when no answer carries a sample, the loop uses every iteration *)
Lemma evaluate_single_loop_exhausts (left : nat) (prompt : str) (w : Ollama.client) :
  (forall k, (k < left)%nat ->
             exists r, Ollama.answers w (Ollama.calls w + k) = Some r
                       /\ Judge._extract_scores r = None) ->
  fst (Judge.evaluate_single_loop left prompt w) = None
  /\ Ollama.calls (snd (Judge.evaluate_single_loop left prompt w))
     = (Ollama.calls w + left)%nat.
Proof.
  revert w. induction left as [|left IH]; intros w Hall.
  - cbn. split; [reflexivity|lia].
  - destruct (Hall 0%nat ltac:(lia)) as (r & Hans & Hnone).
    rewrite Nat.add_0_r in Hans.
    rewrite (evaluate_single_loop_retry left prompt w r Hans Hnone).
    destruct (generate_spec prompt w) as (_ & Hcalls & Hanswers).
    destruct (IH (snd (Ollama.generate prompt w))) as [Hres Hn].
    + intros k Hk. rewrite Hcalls, Hanswers.
      destruct (Hall (S k) ltac:(lia)) as (r' & Hans' & Hnone').
      exists r'. split; [|exact Hnone'].
      now replace (S (Ollama.calls w) + k)%nat with (Ollama.calls w + S k)%nat by lia.
    + split; [exact Hres|]. rewrite Hn, Hcalls. lia.
Qed.

Lemma judge_loop_skip (left : nat) (prompt : str) (w : Ollama.client) :
  Judge.no_sample (Ollama.answers w (Ollama.calls w)) ->
  Judge.evaluate_single_loop (S left) prompt w
  = Judge.evaluate_single_loop left prompt (snd (Ollama.generate prompt w)).
Proof.
  intros Hno. cbn [Judge.evaluate_single_loop].
  unfold Ollama.generate. fold (Ollama.calls w). cbn [snd].
  destruct (Ollama.answers w (Ollama.calls w)) as [[|c r]|]; try reflexivity.
  cbv beta iota delta [Judge.no_sample] in Hno. now rewrite Hno.
Qed.

Lemma answer_cases_judge (a : option str) :
  Judge.no_sample a \/ exists r d, a = Some r /\ Judge._extract_scores r = Some d.
Proof.
  destruct a as [r|]; [|now left].
  destruct (Judge._extract_scores r) as [d|] eqn:Hd; [right; eauto|now left].
Qed.

(* the loop ends without a sample exactly when every answer is turned down,
   and has then used every iteration *)
Lemma evaluate_single_loop_none_iff (left : nat) (prompt : str) (w : Ollama.client) :
  (fst (Judge.evaluate_single_loop left prompt w) = None
   <-> forall k, (k < left)%nat ->
                 Judge.no_sample (Ollama.answers w (Ollama.calls w + k)))
  /\ (fst (Judge.evaluate_single_loop left prompt w) = None ->
      Ollama.calls (snd (Judge.evaluate_single_loop left prompt w))
      = (Ollama.calls w + left)%nat).
Proof.
  revert w. induction left as [|left IH]; intros w.
  - cbn. split; [split; [intros _ k Hk; lia|reflexivity]|intros _; lia].
  - destruct (generate_spec prompt w) as (_ & Hcalls & Hanswers).
    destruct (answer_cases_judge (Ollama.answers w (Ollama.calls w)))
      as [Hno|(r & d & Hans & Hd)].
    + rewrite (judge_loop_skip left prompt w Hno).
      destruct (IH (snd (Ollama.generate prompt w))) as [Hiff Hn].
      rewrite Hcalls, Hanswers in Hiff. rewrite Hcalls in Hn. split.
      * rewrite Hiff. split.
        { intros Hall [|k] Hk; [now rewrite Nat.add_0_r|].
          replace (Ollama.calls w + S k)%nat with (S (Ollama.calls w) + k)%nat by lia.
          apply Hall. lia. }
        { intros Hall k Hk.
          replace (S (Ollama.calls w) + k)%nat with (Ollama.calls w + S k)%nat by lia.
          apply Hall. lia. }
      * intros Hnone. rewrite (Hn Hnone). lia.
    + rewrite (evaluate_single_loop_accepts left prompt w r d Hans Hd). cbn [fst snd].
      split; [split; [discriminate|]|discriminate].
      intros Hall. specialize (Hall 0%nat ltac:(lia)).
      rewrite Nat.add_0_r, Hans in Hall.
      cbv beta iota delta [Judge.no_sample] in Hall. congruence.
Qed.

(* attempts all of whose answers are turned down leave the samples as they
   were *)
Lemma collect_evaluations_turned_down (K : nat) (position content : str)
      (evaluations : list Judge.sample) (w : Ollama.client) :
  (forall k, (k < 3 * K)%nat ->
             Judge.no_sample (Ollama.answers w (Ollama.calls w + k))) ->
  fst (Judge.collect_evaluations K position content evaluations w) = evaluations.
Proof.
  revert w. induction K as [|K IH]; intros w Hall; [reflexivity|].
  cbn [Judge.collect_evaluations]. unfold Judge.evaluate_single.
  destruct (evaluate_single_loop_none_iff
              3 (Judge.generate_evaluation_prompt position content) w) as [Hiff Hn].
  pose proof (evaluate_single_loop_calls
                3 (Judge.generate_evaluation_prompt position content) w) as [_ Hans].
  assert (Hnone : fst (Judge.evaluate_single_loop
                         3 (Judge.generate_evaluation_prompt position content) w)
                  = None) by (apply Hiff; intros k Hk; apply Hall; lia).
  specialize (Hn Hnone).
  destruct (Judge.evaluate_single_loop
              3 (Judge.generate_evaluation_prompt position content) w)
    as [result w1].
  cbn [fst snd] in *. subst result. apply IH.
  intros k Hk. rewrite Hn, Hans.
  replace (Ollama.calls w + 3 + k)%nat with (Ollama.calls w + (3 + k))%nat by lia.
  apply Hall. lia.
Qed.

(** C8, as the program has it.  A response in which a score is out of
    bounds gives no sample, and [evaluate_single] treats it as any response
    without a sample: the counter is incremented and the loop goes on, so
    that a further request is sent while attempts are left and a sample of
    a later response is returned.  A scoring attempt ends without a sample
    exactly when all its [max_retries] answers are turned down; such an
    attempt adds nothing to the samples of [evaluate_multiple], which
    returns the error result when every attempt ends that way. *)
Theorem out_of_bounds_sample_is_retried (prompt : str) (w : Ollama.client)
        (r : str) :
  Ollama.answers w (Ollama.calls w) = Some r ->
  Judge.out_of_bounds r ->
  Judge._extract_scores r = None
  /\ (forall left,
         Judge.evaluate_single_loop (S left) prompt w
         = Judge.evaluate_single_loop left prompt (snd (Ollama.generate prompt w)))
  /\ (forall left r' d,
         Ollama.answers w (S (Ollama.calls w)) = Some r' ->
         Judge._extract_scores r' = Some d ->
         fst (Judge.evaluate_single_loop (S (S left)) prompt w) = Some d
         /\ Ollama.calls (snd (Judge.evaluate_single_loop (S (S left)) prompt w))
            = (Ollama.calls w + 2)%nat)
  /\ (forall max_retries,
         (forall k, (k < max_retries)%nat ->
                    exists r', Ollama.answers w (Ollama.calls w + k) = Some r'
                               /\ Judge.out_of_bounds r') ->
         fst (Judge.evaluate_single_loop max_retries prompt w) = None
         /\ Ollama.calls (snd (Judge.evaluate_single_loop max_retries prompt w))
            = (Ollama.calls w + max_retries)%nat)
  /\ (forall max_retries w',
         fst (Judge.evaluate_single_loop max_retries prompt w') = None
         <-> forall k, (k < max_retries)%nat ->
                       Judge.no_sample (Ollama.answers w' (Ollama.calls w' + k)))
  /\ (forall position content n evaluations w',
         fst (Judge.evaluate_single position content 3 w') = None ->
         Judge.collect_evaluations (S n) position content evaluations w'
         = Judge.collect_evaluations
             n position content evaluations
             (snd (Judge.evaluate_single position content 3 w')))
  /\ (forall position content K now w',
         (forall k, (k < 3 * K)%nat ->
                    Judge.no_sample (Ollama.answers w' (Ollama.calls w' + k))) ->
         fst (Judge.evaluate_multiple position content K now w')
         = Some (Judge.EvalError (u "Failed to get valid evaluations") now)).
Proof.
  intros Hans Hout.
  pose proof (out_of_bounds_no_sample r Hout) as Hnone.
  split; [exact Hnone|]. split; [|split; [|split; [|split; [|split]]]].
  - intros left. now apply evaluate_single_loop_retry with r.
  - intros left r' d Hans' Hd.
    rewrite (evaluate_single_loop_retry _ prompt w r Hans Hnone).
    destruct (generate_spec prompt w) as (_ & Hcalls & Hanswers).
    rewrite (evaluate_single_loop_accepts left prompt _ r' d);
      [|now rewrite Hcalls, Hanswers|exact Hd].
    cbn [fst snd]. split; [reflexivity|].
    destruct (generate_spec prompt (snd (Ollama.generate prompt w))) as (_ & Hcalls' & _).
    rewrite Hcalls', Hcalls. lia.
  - intros max_retries Hall. apply evaluate_single_loop_exhausts.
    intros k Hk. destruct (Hall k Hk) as (r' & Hans' & Hout').
    exists r'. split; [exact Hans'|now apply out_of_bounds_no_sample].
  - intros max_retries w'. apply evaluate_single_loop_none_iff.
  - intros position content n evaluations w' Hres.
    cbn [Judge.collect_evaluations].
    destruct (Judge.evaluate_single position content 3 w') as [result w1].
    cbn [fst snd] in *. now subst result.
  - intros position content K now w' Hall.
    pose proof (collect_evaluations_turned_down K position content [] w' Hall) as Hnil.
    unfold Judge.evaluate_multiple.
    destruct (Judge.collect_evaluations K position content [] w') as [evaluations w1].
    cbn [fst] in Hnil. now subst evaluations.
Qed.

(* the statistics of one metric are the mean and the sample deviation *)
Lemma aggregate_summarises (xs : list Z) :
  xs <> [] -> exists st, Judge.aggregate xs = Some st /\ Design.summarises xs st.
Proof.
  intros Hne. destruct (mean_is_mean xs Hne) as (m & Hm & Hmean).
  destruct xs as [|x xs]; [congruence|].
  unfold Judge.aggregate. rewrite Hm. cbn [mbind option_bind].
  destruct (Nat.ltb_spec 1 (length (x :: xs))) as [Hlen|Hlen].
  - destruct (stdev_is_sample_std (x :: xs) Hlen) as (sd & Hsd & Hstd).
    rewrite Hsd. cbn [mbind option_bind]. eexists. split; [reflexivity|].
    unfold Design.summarises. cbn [Judge.scores Judge.mean Judge.std].
    split; [reflexivity|]. split; [now exists m|].
    exists sd. split; [reflexivity|]. unfold Design.is_sample_std.
    destruct (Nat.ltb_spec (length (x :: xs)) 2) as [Hlt|_]; [lia|exact Hstd].
  - cbn [mbind option_bind]. eexists. split; [reflexivity|].
    unfold Design.summarises. cbn [Judge.scores Judge.mean Judge.std].
    split; [reflexivity|]. split; [now exists m|].
    exists 0%Q. split; [reflexivity|]. unfold Design.is_sample_std.
    destruct (Nat.ltb_spec (length (x :: xs)) 2) as [_|Hge]; [reflexivity|lia].
Qed.

(* K calls of evaluate_single: at most K samples, between K and 3K requests *)
Lemma collect_evaluations_spec (n : nat) (position content : str)
      (evaluations : list Judge.sample) (w : Ollama.client) :
  let r := Judge.collect_evaluations n position content evaluations w in
  (length (fst r) <= length evaluations + n)%nat
  /\ (Ollama.calls w + n <= Ollama.calls (snd r) <= Ollama.calls w + 3 * n)%nat.
Proof.
  cbv zeta. revert evaluations w. induction n as [|n IH]; intros evaluations w.
  - cbn. lia.
  - cbn [Judge.collect_evaluations]. unfold Judge.evaluate_single.
    pose proof (evaluate_single_loop_calls
                  3 (Judge.generate_evaluation_prompt position content) w) as [Hc _].
    replace (Nat.min 3 1) with 1%nat in Hc by reflexivity.
    destruct (Judge.evaluate_single_loop
                3 (Judge.generate_evaluation_prompt position content) w)
      as [result w1].
    cbn [snd] in Hc.
    match goal with
    | |- context [Judge.collect_evaluations n position content ?evs w1] =>
      specialize (IH evs w1);
        assert (Hlen : (length evs <= S (length evaluations))%nat)
        by (destruct result; [rewrite List.length_app; cbn; lia|lia])
    end.
    lia.
Qed.

(* the loop of evaluate_multiple makes its calls of evaluate_single one
   after the other and keeps their samples, in order *)
Lemma collect_evaluations_attempts (n : nat) (position content : str)
      (evaluations : list Judge.sample) (w : Ollama.client) :
  exists results,
    Design.scoring_attempts
      position content n w results
      (snd (Judge.collect_evaluations n position content evaluations w))
    /\ length results = n
    /\ fst (Judge.collect_evaluations n position content evaluations w)
       = evaluations ++ Design.valid_samples results.
Proof.
  revert evaluations w. induction n as [|n IH]; intros evaluations w.
  - exists []. cbn. rewrite List.app_nil_r.
    split; [constructor|]. split; reflexivity.
  - cbn [Judge.collect_evaluations].
    destruct (Judge.evaluate_single position content 3 w) as [result w1] eqn:Hcall.
    destruct (IH (match result with
                  | Some r => evaluations ++ [r]
                  | None => evaluations
                  end) w1) as (results & Hatt & Hlen & Hres).
    exists (result :: results).
    split; [now apply Design.next_attempt with w1|].
    split; [cbn; now rewrite Hlen|].
    rewrite Hres. destruct result as [d|]; cbn [Design.valid_samples]; [|reflexivity].
    now rewrite <- List.app_assoc.
Qed.

(** C6.  [evaluate_multiple] makes K scoring attempts, calls of
    [evaluate_single] one after the other, each sending between one and
    three requests, and keeps the samples obtained, in order.  Without any
    sample the result is the error dictionary with its timestamp;
    otherwise it holds, for the total and for each of the three scores,
    the arithmetic mean over the samples and their sample standard
    deviation, as numbers of the platform: the mean itself when it is an
    integer and the nearest float otherwise, the float nearest to the
    square root of the sample variance, and 0 with fewer than two
    samples. *)
Theorem evaluate_multiple_mean_and_sample_std
        (position content now : str) (K : nat) (w : Ollama.client) :
  let evaluations := fst (Judge.collect_evaluations K position content [] w) in
  let w1 := snd (Judge.collect_evaluations K position content [] w) in
  (exists results,
      Design.scoring_attempts position content K w results w1
      /\ length results = K
      /\ evaluations = Design.valid_samples results)
  /\ (length evaluations <= K)%nat
  /\ (Ollama.calls w + K <= Ollama.calls w1 <= Ollama.calls w + 3 * K)%nat
  /\ (evaluations = [] ->
      Judge.evaluate_multiple position content K now w
      = (Some (Judge.EvalError (u "Failed to get valid evaluations") now), w1))
  /\ (evaluations <> [] ->
      exists t c e p,
        Judge.evaluate_multiple position content K now w
        = (Some (Judge.EvalScores t c e p now), w1)
        /\ Design.summarises (List.map Judge.total_score evaluations) t
        /\ Design.summarises (List.map Judge.capability_score evaluations) c
        /\ Design.summarises (List.map Judge.experience_score evaluations) e
        /\ Design.summarises (List.map Judge.potential_score evaluations) p).
Proof.
  cbv zeta.
  pose proof (collect_evaluations_spec K position content [] w) as [Hlen Hcalls].
  pose proof (collect_evaluations_attempts K position content [] w) as Hatt.
  unfold Judge.evaluate_multiple.
  destruct (Judge.collect_evaluations K position content [] w) as [evaluations w1].
  cbn [fst snd length] in *.
  split; [exact Hatt|]. split; [lia|]. split; [exact Hcalls|]. split.
  - now intros ->.
  - intros Hne. destruct evaluations as [|d ds]; [congruence|].
    destruct (aggregate_summarises (List.map Judge.total_score (d :: ds)))
      as (t & Ht & Hts); [discriminate|].
    destruct (aggregate_summarises (List.map Judge.capability_score (d :: ds)))
      as (c & Hc & Hcs); [discriminate|].
    destruct (aggregate_summarises (List.map Judge.experience_score (d :: ds)))
      as (e & He & Hes); [discriminate|].
    destruct (aggregate_summarises (List.map Judge.potential_score (d :: ds)))
      as (p & Hp & Hps); [discriminate|].
    exists t, c, e, p. rewrite Ht, Hc, He, Hp. cbn [mbind option_bind].
    split; [reflexivity|]. split; [exact Hts|]. split; [exact Hcs|].
    split; [exact Hes|exact Hps].
Qed.

End JudgeEvaluation.

(** Concrete runs of the evaluator, with the database [cjk_db] and the
    arithmetic [exact_arith]; the means and deviations met are integers. *)

Section JudgeRuns.

Definition in_bounds_response : str := u "专业能力：35
项目经验: 30分
综合素质：  18".

Definition out_of_bounds_response : str := u "专业能力：45
项目经验：30
综合素质：18".

Lemma extract_scores_within_bounds_witness :
  (exists d, @Judge._extract_scores cjk_db in_bounds_response = Some d
             /\ 0 <= Judge.capability_score d <= 40
             /\ Judge.total_score d = 83)
  /\ @Judge._extract_scores cjk_db out_of_bounds_response = None.
Proof.
  split.
  - eexists. split; [vm_compute; reflexivity|].
    pose proof (proj1 (@extract_scores_within_bounds cjk_db in_bounds_response) _ eq_refl)
      as (Hc & _ & _ & _).
    split; [exact Hc|reflexivity].
  - apply (proj2 (@extract_scores_within_bounds cjk_db out_of_bounds_response)
                 Judge.M_capability).
    intros line s Hin (groups & score_str & Hsearch & Hgroup & Hint).
    right. vm_compute in Hin.
    destruct Hin as [<-|[<-|[<-|[]]]]; vm_compute in Hsearch;
      try discriminate Hsearch.
    injection Hsearch as <-. injection Hgroup as <-.
    vm_compute in Hint. injection Hint as <-. reflexivity.
Defined.

Lemma evaluate_multiple_mean_and_sample_std_witness :
  let w := Ollama.fresh (Ollama.scripted [Some in_bounds_response; None; None; None;
                                          Some in_bounds_response]) in
  exists t c e p now w1,
    @Judge.evaluate_multiple cjk_db Statistics.exact_arith
                             (u "后端开发工程师") (u "{NAME}") 3 (u "now") w
    = (Some (Judge.EvalScores t c e p now), w1)
    /\ @Design.summarises Statistics.exact_arith [83; 83] t
    /\ Judge.mean t = Some 83%Q
    /\ Judge.std t = Some 0%Q.
Proof.
  cbv zeta.
  destruct (proj2 (proj2 (proj2 (proj2
    (@evaluate_multiple_mean_and_sample_std
       cjk_db Statistics.exact_arith (u "后端开发工程师") (u "{NAME}") (u "now") 3
       (Ollama.fresh (Ollama.scripted [Some in_bounds_response; None; None; None;
                                       Some in_bounds_response])))))))
    as (t & c & e & p & Hrun & Ht & _).
  - vm_compute. discriminate.
  - exists t, c, e, p. do 2 eexists. split; [exact Hrun|].
    assert (Hsame : fst (@Judge.collect_evaluations
                           cjk_db 3 (u "后端开发工程师") (u "{NAME}") []
                           (Ollama.fresh
                              (Ollama.scripted [Some in_bounds_response; None; None; None;
                                                Some in_bounds_response])))
                    = [ {| Judge.capability_score := 35; Judge.experience_score := 30;
                           Judge.potential_score := 18; Judge.total_score := 83 |};
                        {| Judge.capability_score := 35; Judge.experience_score := 30;
                           Judge.potential_score := 18; Judge.total_score := 83 |} ])
      by (vm_compute; reflexivity).
    rewrite Hsame in Ht. cbn [List.map Judge.total_score] in Ht.
    split; [exact Ht|].
    vm_compute in Hrun. injection Hrun as <- _ _ _.
    split; reflexivity.
Defined.

Lemma out_of_bounds_response_rejected : @Judge.out_of_bounds cjk_db out_of_bounds_response.
Proof. eexists. split; [vm_compute; reflexivity|discriminate]. Qed.

(** C8, as stated, fails: the first response has a score out of bounds,
    and [evaluate_single] sends a second request, whose sample it
    returns. *)
Lemma out_of_bounds_sample_gets_second_call :
  let w := Ollama.fresh (Ollama.scripted [Some out_of_bounds_response;
                                          Some in_bounds_response]) in
  let run := @Judge.evaluate_single cjk_db (u "后端开发工程师") (u "{NAME}") 3 w in
  @Judge.out_of_bounds cjk_db out_of_bounds_response
  /\ fst run = Some {| Judge.capability_score := 35; Judge.experience_score := 30;
                       Judge.potential_score := 18; Judge.total_score := 83 |}
  /\ Ollama.calls (snd run) = 2%nat.
Proof.
  cbv zeta. split; [apply out_of_bounds_response_rejected|].
  split; vm_compute; reflexivity.
Qed.

Lemma out_of_bounds_sample_is_retried_witness :
  let w := Ollama.fresh (Ollama.scripted [Some out_of_bounds_response;
                                          Some in_bounds_response]) in
  fst (@Judge.evaluate_single_loop cjk_db 3 (u "prompt") w)
  = Some {| Judge.capability_score := 35; Judge.experience_score := 30;
            Judge.potential_score := 18; Judge.total_score := 83 |}.
Proof.
  cbv zeta.
  refine (proj1 (proj1 (proj2 (proj2
    (@out_of_bounds_sample_is_retried cjk_db Statistics.exact_arith (u "prompt")
       (Ollama.fresh (Ollama.scripted [Some out_of_bounds_response;
                                       Some in_bounds_response]))
       out_of_bounds_response eq_refl _))) 1%nat in_bounds_response _ eq_refl _)).
  - eexists. split; [vm_compute; reflexivity|discriminate].
  - vm_compute. reflexivity.
Defined.

End JudgeRuns.

(** ** ResumeBatchProcessor: loading, saving and resuming *)

Section BatchProperties.
Context {Id : Type} `{Countable Id} {E : Type}.
Local Abbreviation resume := (Batch.resume Id E).
Local Abbreviation ids := (List.map (@Batch.id Id E)).

(** *** Loading *)

(** C2, as the program has it.  With a readable input file, the loader
    opens the output file when it exists, and the temporary file only when
    the output file does not exist.  A file that holds records gives them
    as processed; a file that is text without being valid JSON gives the
    empty set of processed records, with a warning, and for the output
    file this happens without the temporary file being looked at; so does
    the absence of both files.  A file that is not UTF-8 ends the loader
    with the UnicodeDecodeError, which no handler catches; nothing else
    does. *)
Theorem load_progress_recovery (d : Batch.disk Id E) (all_resumes : list resume) :
  Batch.input_file d = Batch.Snapshot all_resumes ->
  let res := fst (Batch._load_progress d) in
  let ev := snd (Batch._load_progress d) in
  (In (Batch.Opened Batch.OutputFile) ev <-> Batch.output_file d <> Batch.Absent)
  /\ (In (Batch.Opened Batch.TempFile) ev
      <-> Batch.output_file d = Batch.Absent /\ Batch.temp_file d <> Batch.Absent)
  /\ match Batch.output_file d with
     | Batch.Snapshot p => res = Batch.Ok (p, Batch.not_processed all_resumes p)
     | Batch.Corrupt =>
       res = Batch.Ok ([], all_resumes) /\ In (Batch.Warning Batch.OutputFile) ev
     | Batch.Undecodable => res = Batch.Raise Batch.UnicodeDecodeError
     | Batch.Absent =>
       match Batch.temp_file d with
       | Batch.Snapshot p => res = Batch.Ok (p, Batch.not_processed all_resumes p)
       | Batch.Corrupt =>
         res = Batch.Ok ([], all_resumes) /\ In (Batch.Warning Batch.TempFile) ev
       | Batch.Undecodable => res = Batch.Raise Batch.UnicodeDecodeError
       | Batch.Absent => res = Batch.Ok ([], all_resumes)
       end
     end
  /\ ((exists e, res = Batch.Raise e)
      <-> Batch.output_file d = Batch.Undecodable
          \/ Batch.output_file d = Batch.Absent
             /\ Batch.temp_file d = Batch.Undecodable).
Proof.
  intros Hin. cbv zeta. unfold Batch._load_progress. rewrite Hin.
  destruct (Batch.output_file d) as [| | |p] eqn:Hout;
    [destruct (Batch.temp_file d) as [| | |p] eqn:Htmp| | |];
    cbn [fst snd In];
    (split; [split; [intros Hev|intros Hne];
             try congruence; intuition congruence|]);
    (split; [split; [intros Hev|intros Hne];
             try (split; congruence); intuition congruence|]);
    (split; [try reflexivity; try (split; [reflexivity|]); intuition congruence|]);
    (split; [intros [e He]; try discriminate He; intuition congruence
            |intros Hcase; try (eexists; reflexivity); intuition congruence]).
Qed.

(** *** Counting the pending records *)

Lemma NoDup_map_filter {A B : Type} (f : A -> B) (p : A -> bool) (l : list A) :
  List.NoDup (List.map f l) -> List.NoDup (List.map f (List.filter p l)).
Proof.
  induction l as [|a l IH]; cbn; [auto|].
  intros Hnd. inversion Hnd as [|? ? Hnotin Hnd']; subst.
  destruct (p a); cbn; [|auto].
  constructor; [|auto].
  intros Hin. apply Hnotin.
  apply List.in_map_iff in Hin as (x & Hx & Hxin).
  apply List.filter_In in Hxin as [Hxin _].
  apply List.in_map_iff. eauto.
Qed.

Lemma in_ids_of (l : list resume) (i : Id) : i ∈ Batch.ids_of l <-> In i (ids l).
Proof.
  unfold Batch.ids_of. rewrite elem_of_list_to_set. apply list_elem_of_In.
Qed.

Lemma pending_iff (all_resumes checkpoint : list resume) (r : resume) :
  In r (Batch.not_processed all_resumes checkpoint)
  <-> In r all_resumes /\ ~ In (Batch.id r) (ids checkpoint).
Proof.
  unfold Batch.not_processed. rewrite List.filter_In, bool_decide_eq_true.
  now rewrite in_ids_of.
Qed.

Lemma pending_length (all_resumes checkpoint : list resume) :
  List.NoDup (ids all_resumes) ->
  List.NoDup (ids checkpoint) ->
  (forall r, In r checkpoint -> In (Batch.id r) (ids all_resumes)) ->
  (length (Batch.not_processed all_resumes checkpoint) + length checkpoint
   = length all_resumes)%nat.
Proof.
  intros Hall Hcp Hsub.
  rewrite <- (List.filter_length
                (fun r => bool_decide (Batch.id r ∉ Batch.ids_of checkpoint)) all_resumes).
  unfold Batch.not_processed. f_equal.
  set (done := List.filter _ all_resumes).
  rewrite <- (List.length_map Batch.id checkpoint), <- (List.length_map Batch.id done).
  apply Permutation_length, Permutation.NoDup_Permutation.
  - exact Hcp.
  - apply NoDup_map_filter, Hall.
  - intros i. split.
    + intros Hi. apply List.in_map_iff in Hi as (c & <- & Hc).
      specialize (Hsub c Hc). apply List.in_map_iff in Hsub as (r & Hr & Hrin).
      apply List.in_map_iff. exists r. split; [exact Hr|].
      apply List.filter_In. split; [exact Hrin|].
      apply negb_true_iff, bool_decide_eq_false.
      intros Hnot. apply Hnot, in_ids_of. rewrite Hr.
      apply List.in_map_iff. eauto.
    + intros Hi. apply List.in_map_iff in Hi as (r & <- & Hr).
      apply List.filter_In in Hr as [_ Hr].
      apply negb_true_iff, bool_decide_eq_false in Hr.
      destruct (decide (Batch.id r ∈ Batch.ids_of checkpoint)) as [Hin|Hnotin];
        [now apply in_ids_of|contradiction].
Qed.

(** *** The loop over the completed futures *)

Variable as_completed :
  list (Batch.resume Id E) -> list (Batch.resume Id E * Batch.future_result E).
Variable faults : nat -> Batch.io_fault.
Variable error_evaluation : str -> str -> E.

Local Abbreviation collect := (@Batch.collect Id E faults error_evaluation).
Local Abbreviation process_resumes :=
  (@Batch.process_resumes Id _ _ E as_completed faults error_evaluation).
Local Abbreviation finish := (@Batch.finish Id E error_evaluation).
Local Abbreviation committed := (@Batch.committed Id E faults).
Local Abbreviation snapshots := (@Batch.snapshots Id E error_evaluation).
Local Abbreviation no_write_fault := Batch.no_write_fault.

Lemma finish_evaluated (c : resume * Batch.future_result E) :
  Batch.evaluation (finish c) <> None.
Proof. destruct c as [r f]. discriminate. Qed.

Lemma evaluated_app (l : list resume) (c : resume * Batch.future_result E) :
  Batch.evaluated l -> Batch.evaluated (l ++ [finish c]).
Proof.
  intros Hl r Hr. apply List.in_app_or in Hr as [Hr|[<-|[]]];
    [now apply Hl|apply finish_evaluated].
Qed.

Lemma evaluated_map_finish (l : list resume)
      (completed : list (resume * Batch.future_result E)) :
  Batch.evaluated l -> Batch.evaluated (l ++ List.map finish completed).
Proof.
  intros Hl r Hr. apply List.in_app_or in Hr as [Hr|Hr]; [now apply Hl|].
  apply List.in_map_iff in Hr as (c & <- & _). apply finish_evaluated.
Qed.

(* the count of the successes goes through when every record is evaluated *)
Lemma evaluated_forallb (l : list resume) :
  Batch.evaluated l <-> forallb Batch.has_evaluation l = true.
Proof.
  rewrite List.forallb_forall. unfold Batch.evaluated, Batch.has_evaluation.
  split; intros Hl r Hr; specialize (Hl r Hr);
    destruct (Batch.evaluation r); congruence.
Qed.

Lemma collect_without_write_fault
      (completed : list (resume * Batch.future_result E)) (cycle : nat)
      (st : Batch.run Id E) :
  (forall n, no_write_fault (faults n)) ->
  Batch.evaluated (Batch.processed st) ->
  Batch.outcome st = Batch.Ok tt ->
  let r := collect completed cycle st in
  Batch.outcome r = Batch.Ok tt
  /\ Batch.submitted r = Batch.submitted st
  /\ Batch.processed r = Batch.processed st ++ List.map finish completed
  /\ Batch.input_file (Batch.files r) = Batch.input_file (Batch.files st)
  /\ Batch.output_file (Batch.files r)
     = committed cycle (snapshots (Batch.processed st) completed)
                 (Batch.output_file (Batch.files st)).
Proof.
  intros Hfaults. cbv zeta. revert cycle st.
  induction completed as [|[r f] rest IH]; intros cycle st Hev Hok.
  - cbn. rewrite List.app_nil_r. auto.
  - cbn [Batch.collect Batch.snapshots Batch.committed List.map].
    change (Batch.with_evaluation error_evaluation r f) with (finish (r, f)).
    pose proof (evaluated_app _ (r, f) Hev) as Hev'.
    rewrite (proj1 (evaluated_forallb _) Hev').
    unfold Batch._save_progress.
    destruct (Hfaults cycle) as [Hf|Hf]; rewrite Hf;
      match goal with
      | |- context [Batch.collect _ _ rest (S cycle) ?st'] =>
        destruct (IH (S cycle) st' Hev' eq_refl) as (H1 & H2 & H3 & H4 & H5)
      end;
      rewrite H1, H2, H3, H4, H5; cbn; rewrite <- List.app_assoc; auto.
Qed.

Lemma committed_without_fault (cycle : nat) (processed : list resume)
      (completed : list (resume * Batch.future_result E)) (before : Batch.file Id E) :
  (forall n, faults n = Batch.NoFault) ->
  completed <> [] ->
  committed cycle (snapshots processed completed) before
  = Batch.Snapshot (processed ++ List.map finish completed).
Proof.
  intros Hno. revert cycle processed before.
  induction completed as [|c rest IH]; intros cycle processed before Hne;
    [congruence|].
  cbn [Batch.snapshots Batch.committed List.map]. rewrite Hno.
  destruct rest as [|c' rest].
  - reflexivity.
  - rewrite IH by discriminate. now rewrite <- List.app_assoc.
Qed.

Lemma finish_ids (completed : list (resume * Batch.future_result E)) :
  ids (List.map finish completed) = ids (List.map fst completed).
Proof.
  rewrite !List.map_map. apply List.map_ext. now intros [r f].
Qed.

(** *** Resuming *)

(** C7.  When the input has N records with distinct ids and the output
    file holds M of them, each with its evaluation, a run without
    persistence failure submits the N - M records whose ids are not in the
    output file and no other, keeps the records of the output file as they
    are, in front, and ends with N records of distinct ids, in memory and
    in the output file. *)
Theorem restart_processes_only_pending
        (d : Batch.disk Id E) (all_resumes checkpoint : list resume) :
  Batch.input_file d = Batch.Snapshot all_resumes ->
  Batch.output_file d = Batch.Snapshot checkpoint ->
  List.NoDup (ids all_resumes) ->
  List.NoDup (ids checkpoint) ->
  (forall r, In r checkpoint -> In (Batch.id r) (ids all_resumes)) ->
  Batch.evaluated checkpoint ->
  (forall l, Permutation (List.map fst (as_completed l)) l) ->
  (forall n, faults n = Batch.NoFault) ->
  let r := process_resumes d in
  Batch.outcome r = Batch.Ok tt
  /\ (forall x, In x (Batch.submitted r)
                <-> In x all_resumes /\ ~ In (Batch.id x) (ids checkpoint))
  /\ length (Batch.submitted r) = (length all_resumes - length checkpoint)%nat
  /\ (exists new, Batch.processed r = checkpoint ++ new
                  /\ Permutation (ids new) (ids (Batch.submitted r)))
  /\ length (Batch.processed r) = length all_resumes
  /\ List.NoDup (ids (Batch.processed r))
  /\ Batch.output_file (Batch.files r) = Batch.Snapshot (Batch.processed r).
Proof.
  intros Hin Hout Hall Hcp Hsub Hev Hperm Hno. cbv zeta.
  pose proof (pending_length all_resumes checkpoint Hall Hcp Hsub) as Hlen.
  unfold Batch.process_resumes, Batch._load_progress.
  rewrite Hin, Hout.
  destruct (Batch.not_processed all_resumes checkpoint) as [|p ps] eqn:Hpending.
  - cbn in *. split; [reflexivity|]. split.
    + intros x. rewrite <- pending_iff, Hpending. reflexivity.
    + split; [lia|]. split; [exists []; now rewrite List.app_nil_r|].
      split; [lia|]. split; [exact Hcp|exact Hout].
  - set (pending := p :: ps) in *.
    set (st := {| Batch.outcome := Batch.Ok tt; Batch.submitted := pending;
                  Batch.processed := checkpoint; Batch.files := d;
                  Batch.log := _ |}).
    destruct (collect_without_write_fault (as_completed pending) 0 st)
      as (H1 & H2 & H3 & _ & H5);
      [intros n; left; apply Hno|exact Hev|reflexivity|].
    rewrite H1, H2, H3, H5. cbn [Batch.submitted Batch.processed st].
    assert (Hnew : Permutation (ids (List.map finish (as_completed pending))) (ids pending))
      by (rewrite finish_ids; apply Permutation_map, Hperm).
    assert (Hnd : List.NoDup (ids pending))
      by (rewrite <- Hpending; apply NoDup_map_filter, Hall).
    split; [reflexivity|]. split.
    { intros x. rewrite <- pending_iff, Hpending. reflexivity. }
    split; [lia|]. split; [eexists; split; [reflexivity|exact Hnew]|].
    split.
    { rewrite List.length_app, <- (List.length_map Batch.id (List.map finish _)).
      rewrite (Permutation_length Hnew). rewrite List.length_map. lia. }
    split.
    { rewrite List.map_app. apply List.NoDup_app.
      - exact Hcp.
      - apply Permutation_NoDup with (ids pending); [symmetry; exact Hnew|exact Hnd].
      - intros i Hi Hi'.
        apply (Permutation_in _ Hnew) in Hi'.
        apply List.in_map_iff in Hi' as (x & <- & Hx).
        rewrite <- Hpending in Hx. apply pending_iff in Hx as [_ Hx]. now apply Hx. }
    rewrite committed_without_fault; [reflexivity|exact Hno|].
    intros Hnil. apply (f_equal (List.map fst)) in Hnil.
    pose proof (Permutation_length (Hperm pending)) as Hl.
    rewrite Hnil in Hl. discriminate.
Qed.

(** *** Saving *)

(** C9, as the program has it.  A failure of [os.replace] is logged and
    does not end [_save_progress] with an exception: the output file keeps
    the snapshot it had and the temporary file holds the new one.  In a
    run in which the temporary file can always be written and the records
    processed so far carry their evaluations, every completed future is
    recorded whatever [os.replace] does, and a save cycle in which
    [os.replace] succeeds puts the whole list of processed records, those
    of the failed cycles included, in the output file. *)
Theorem replace_failure_does_not_abort :
  (forall (processed_resumes : list resume) (d : Batch.disk Id E),
      Batch._save_progress processed_resumes Batch.ReplaceFails d
      = (Batch.Ok tt,
         {| Batch.input_file := Batch.input_file d;
            Batch.output_file := Batch.output_file d;
            Batch.temp_file := Batch.Snapshot processed_resumes |},
         [Batch.Error Batch.OSError]))
  /\ (forall (completed : list (resume * Batch.future_result E)) (cycle : nat)
             (st : Batch.run Id E),
         (forall n, no_write_fault (faults n)) ->
         Batch.evaluated (Batch.processed st) ->
         Batch.outcome st = Batch.Ok tt ->
         let r := collect completed cycle st in
         Batch.outcome r = Batch.Ok tt
         /\ Batch.processed r = Batch.processed st ++ List.map finish completed
         /\ Batch.output_file (Batch.files r)
            = committed cycle (snapshots (Batch.processed st) completed)
                        (Batch.output_file (Batch.files st)))
  /\ (forall (r1 r2 : resume * Batch.future_result E) (cycle : nat)
             (st : Batch.run Id E),
         faults cycle = Batch.ReplaceFails ->
         faults (S cycle) = Batch.NoFault ->
         Batch.output_file (Batch.files (collect [r1] cycle st))
         = Batch.output_file (Batch.files st)
         /\ (Batch.evaluated (Batch.processed st) ->
             Batch.output_file (Batch.files (collect [r1; r2] cycle st))
             = Batch.Snapshot (Batch.processed st ++ [finish r1; finish r2]))).
Proof.
  split; [reflexivity|]. split.
  - intros completed cycle st Hfaults Hev Hok. cbv zeta.
    destruct (collect_without_write_fault completed cycle st Hfaults Hev Hok)
      as (H1 & _ & H3 & _ & H5).
    auto.
  - intros [r1 f1] [r2 f2] cycle st Hf1 Hf2. split.
    + cbn [Batch.collect]. unfold Batch._save_progress. rewrite Hf1.
      now destruct (forallb _ _).
    + intros Hev.
      pose proof (evaluated_app _ (r1, f1) Hev) as Hev1.
      pose proof (evaluated_app _ (r2, f2) Hev1) as Hev2.
      apply evaluated_forallb in Hev1, Hev2.
      cbn [Batch.collect]. unfold Batch._save_progress. rewrite Hf1.
      change (Batch.with_evaluation error_evaluation r1 f1) with (finish (r1, f1)).
      rewrite Hev1. cbn [Batch.processed Batch.files].
      change (Batch.with_evaluation error_evaluation r2 f2) with (finish (r2, f2)).
      rewrite Hf2, Hev2. cbn. now rewrite <- List.app_assoc.
Qed.

End BatchProperties.

(** Concrete runs of the batch processor of [judge_resumes.py]: ids are
    numbers, evaluations are those of [Judge]. *)

Section BatchRuns.

Local Abbreviation resume := (Batch.resume nat Judge.evaluation).

Definition pending_record (i : nat) : resume :=
  {| Batch.id := i; Batch.position := u "后端开发工程师";
     Batch.content := u "{NAME}"; Batch.evaluation := None |}.

Definition failed_evaluation : Judge.evaluation :=
  Judge.EvalError (u "Failed to get valid evaluations") (u "2025-01-01 00:00:00").

Definition processed_record (i : nat) : resume :=
  {| Batch.id := i; Batch.position := u "后端开发工程师";
     Batch.content := u "{NAME}"; Batch.evaluation := Some failed_evaluation |}.

(* every future returns, in the order of submission *)
Definition in_order (l : list resume)
  : list (resume * Batch.future_result Judge.evaluation) :=
  List.map (fun r => (r, Batch.Returned failed_evaluation)) l.

Definition no_fault (n : nat) : Batch.io_fault := Batch.NoFault.

(* the first save cycle cannot write the temporary file *)
Definition first_write_fails (n : nat) : Batch.io_fault :=
  match n with
  | O => Batch.DumpFails true
  | _ => Batch.NoFault
  end.

(* the first save cycle cannot rename the temporary file *)
Definition first_replace_fails (n : nat) : Batch.io_fault :=
  match n with
  | O => Batch.ReplaceFails
  | _ => Batch.NoFault
  end.

(* an output file that is not valid JSON beside a temporary file that is *)
Definition corrupt_output : Batch.disk nat Judge.evaluation :=
  {| Batch.input_file := Batch.Snapshot [pending_record 1; pending_record 2];
     Batch.output_file := Batch.Corrupt;
     Batch.temp_file := Batch.Snapshot [processed_record 1] |}.

(* an output file that is not UTF-8 beside a temporary file that holds a
   record *)
Definition undecodable_output : Batch.disk nat Judge.evaluation :=
  {| Batch.input_file := Batch.Snapshot [pending_record 1; pending_record 2];
     Batch.output_file := Batch.Undecodable;
     Batch.temp_file := Batch.Snapshot [processed_record 1] |}.

(* three records, the second of which is in the output file *)
Definition one_of_three : Batch.disk nat Judge.evaluation :=
  {| Batch.input_file :=
       Batch.Snapshot [pending_record 1; pending_record 2; pending_record 3];
     Batch.output_file := Batch.Snapshot [processed_record 2];
     Batch.temp_file := Batch.Absent |}.

(* two records and no earlier run *)
Definition first_run : Batch.disk nat Judge.evaluation :=
  {| Batch.input_file := Batch.Snapshot [pending_record 1; pending_record 2];
     Batch.output_file := Batch.Absent;
     Batch.temp_file := Batch.Absent |}.

(** C2, as stated, fails.  When the output file exists and is not valid
    JSON while the temporary file holds a processed record, the loader
    returns no processed record without opening the temporary file.  When
    the output file is not UTF-8 the loader, and with it the run, ends
    with the UnicodeDecodeError. *)
Lemma corrupt_output_skips_temp_file :
  Batch._load_progress corrupt_output
  = (Batch.Ok ([], [pending_record 1; pending_record 2]),
     [Batch.Opened Batch.InputFile; Batch.Opened Batch.OutputFile;
      Batch.Warning Batch.OutputFile])
  /\ ~ In (Batch.Opened Batch.TempFile) (snd (Batch._load_progress corrupt_output))
  /\ Batch._load_progress undecodable_output
     = (Batch.Raise Batch.UnicodeDecodeError,
        [Batch.Opened Batch.InputFile; Batch.Opened Batch.OutputFile])
  /\ Batch.outcome (Batch.process_resumes in_order no_fault Judge.EvalError
                                          undecodable_output)
     = Batch.Raise Batch.UnicodeDecodeError.
Proof.
  split; [reflexivity|]. split; [|split; reflexivity].
  cbn. intros [Hf|[Hf|[Hf|[]]]]; discriminate.
Qed.

Lemma load_progress_recovery_witness :
  fst (Batch._load_progress one_of_three)
  = Batch.Ok ([processed_record 2], [pending_record 1; pending_record 3]).
Proof.
  exact (proj1 (proj2 (proj2 (load_progress_recovery one_of_three _ eq_refl)))).
Defined.

Lemma restart_processes_only_pending_witness :
  let r := Batch.process_resumes in_order no_fault Judge.EvalError one_of_three in
  length (Batch.submitted r) = 2%nat
  /\ length (Batch.processed r) = 3%nat
  /\ Batch.output_file (Batch.files r) = Batch.Snapshot (Batch.processed r).
Proof.
  cbv zeta.
  assert (Hall : List.NoDup (List.map Batch.id
                   [pending_record 1; pending_record 2; pending_record 3])).
  { cbn. repeat constructor; cbn; intuition lia. }
  assert (Hcp : List.NoDup (List.map Batch.id [processed_record 2])).
  { cbn. repeat constructor; cbn; intuition lia. }
  destruct (restart_processes_only_pending
              in_order no_fault Judge.EvalError one_of_three
              [pending_record 1; pending_record 2; pending_record 3]
              [processed_record 2] eq_refl eq_refl Hall Hcp)
    as (_ & _ & Hsub & _ & Hlen & _ & Hout).
  - intros r [<-|[]]. cbn. auto.
  - intros r [<-|[]]. discriminate.
  - intros l. unfold in_order. rewrite List.map_map. cbn. rewrite List.map_id.
    reflexivity.
  - reflexivity.
  - split; [exact Hsub|]. split; [exact Hlen|exact Hout].
Defined.

(** C9, as stated, fails: when the temporary file cannot be written during
    the first save cycle, [process_resumes] ends with the exception; the
    second record submitted is not recorded. *)
Lemma write_failure_aborts_the_run :
  let r := Batch.process_resumes in_order first_write_fails Judge.EvalError first_run in
  Batch.outcome r = Batch.Raise Batch.OSError
  /\ Batch.submitted r = [pending_record 1; pending_record 2]
  /\ Batch.processed r = [processed_record 1]
  /\ Batch.output_file (Batch.files r) = Batch.Absent
  /\ Batch.log r = [Batch.Opened Batch.InputFile].
Proof. cbv zeta. repeat split; reflexivity. Qed.

(* a record of the output file that has no evaluation ends the run after
   the first save cycle, with the KeyError of the count of the successes:
   the other pending records are not processed *)
Example record_without_evaluation_ends_the_run :
  let d := {| Batch.input_file :=
                Batch.Snapshot [pending_record 1; pending_record 2; pending_record 3];
              Batch.output_file := Batch.Snapshot [pending_record 2];
              Batch.temp_file := Batch.Absent |} in
  let r := Batch.process_resumes in_order no_fault Judge.EvalError d in
  Batch.outcome r = Batch.Raise Batch.KeyError
  /\ Batch.submitted r = [pending_record 1; pending_record 3]
  /\ Batch.processed r = [pending_record 2; processed_record 1]
  /\ Batch.output_file (Batch.files r)
     = Batch.Snapshot [pending_record 2; processed_record 1].
Proof. cbv zeta. repeat split; vm_compute; reflexivity. Qed.

Lemma replace_failure_does_not_abort_witness :
  let r := Batch.process_resumes in_order first_replace_fails Judge.EvalError first_run in
  Batch.outcome r = Batch.Ok tt
  /\ Batch.processed r = [processed_record 1; processed_record 2]
  /\ Batch.output_file (Batch.files r)
     = Batch.Snapshot [processed_record 1; processed_record 2].
Proof.
  cbv zeta.
  pose proof (replace_failure_does_not_abort (Id:=nat) first_replace_fails Judge.EvalError)
    as (_ & Hrun & Hnext).
  set (st := {| Batch.outcome := Batch.Ok tt;
                Batch.submitted := [pending_record 1; pending_record 2];
                Batch.processed := [];
                Batch.files := first_run;
                Batch.log := [Batch.Opened Batch.InputFile] |}).
  change (Batch.process_resumes in_order first_replace_fails Judge.EvalError first_run)
    with (Batch.collect first_replace_fails Judge.EvalError
            (in_order [pending_record 1; pending_record 2]) 0 st).
  destruct (Hrun (in_order [pending_record 1; pending_record 2]) 0%nat st)
    as (Hok & Hprocessed & _).
  - intros [|n]; [right|left]; reflexivity.
  - intros r [].
  - reflexivity.
  - split; [exact Hok|]. split; [exact Hprocessed|].
    apply (proj2 (Hnext (pending_record 1, Batch.Returned failed_evaluation)
                        (pending_record 2, Batch.Returned failed_evaluation)
                        0%nat st eq_refl eq_refl)).
    intros r [].
Defined.

End BatchRuns.

(** ** generate_cv_template.py: validation and the generation session *)

Section GenProperties.
Context {U : UnicodeDB}.
Variable generate_prompt :
  Gen.TechPosition -> Gen.SkillLevel -> Gen.RecruitmentType -> str.
Variable strftime : Zhipu.client -> str.

Local Abbreviation attempt := (Gen.attempt strftime).
Local Abbreviation attempts := (Gen.attempts strftime).
Local Abbreviation generate_resume := (Gen.generate_resume generate_prompt strftime).
Local Abbreviation generate_item := (Gen.generate_item generate_prompt strftime).
Local Abbreviation levels_loop := (Gen.levels_loop generate_prompt strftime).

Lemma is_valid_iff (text : str) (pos : Gen.TechPosition) (rtype : Gen.RecruitmentType) :
  Gen.is_valid (Gen.validate_resume text pos rtype) = true
  <-> Gen.markers_match text rtype.
Proof.
  unfold Gen.validate_resume, Gen.markers_match, Gen.used_tokens. cbn [Gen.is_valid].
  rewrite andb_true_iff, !bool_decide_eq_true, !size_empty_iff.
  setoid_rewrite <- list_elem_of_In.
  split.
  - intros [Hmissing Hextra]. split; intros token Ht.
    + destruct (decide (token ∈ Gen.findall_tokens text)) as [Hin|Hnot]; [exact Hin|].
      exfalso. apply (not_elem_of_empty (C:=gset str) token), Hmissing.
      apply elem_of_difference. split; [exact Ht|].
      now rewrite elem_of_list_to_set.
    + destruct (decide (token ∈ Gen.allowed_tokens rtype)) as [Hin|Hnot]; [exact Hin|].
      exfalso. apply (not_elem_of_empty (C:=gset str) token), Hextra.
      apply elem_of_difference. split; [|exact Hnot].
      now rewrite elem_of_list_to_set.
  - intros [Hall Honly]. split; apply elem_of_equiv_empty; intros token Hd;
      apply elem_of_difference in Hd as [Hin Hnot]; apply Hnot.
    + apply elem_of_list_to_set, Hall, Hin.
    + apply Honly. now apply elem_of_list_to_set in Hin.
Qed.

Lemma chat_completion_spec (messages : list Zhipu.turn) (w : Zhipu.client) :
  fst (Zhipu.chat_completion messages w) = Zhipu.answers w (Zhipu.calls w)
  /\ Zhipu.calls (snd (Zhipu.chat_completion messages w)) = S (Zhipu.calls w)
  /\ Zhipu.answers (snd (Zhipu.chat_completion messages w)) = Zhipu.answers w.
Proof.
  unfold Zhipu.chat_completion, Zhipu.calls. cbn. rewrite List.length_app. cbn.
  repeat split; lia.
Qed.

(** C1, as the program has it.  A resume is valid exactly when the marker
    check passes: every required marker is used and no other marker is.
    The sections and the quantitative patterns only add to the list of
    issues.  A reply whose content is valid makes [generate_resume] return
    it; a reply whose content is not valid leads to the next attempt, with
    the reply and the correction appended to the conversation. *)
Theorem valid_iff_markers_match
        (text : str) (pos : Gen.TechPosition) (level : Gen.SkillLevel)
        (rtype : Gen.RecruitmentType) (history : list Zhipu.turn)
        (w : Zhipu.client) :
  let v := Gen.validate_resume text pos rtype in
  (Gen.is_valid v = true <-> Gen.markers_match text rtype)
  /\ (Zhipu.answers w (Zhipu.calls w) = Zhipu.Content text ->
      (Gen.markers_match text rtype ->
       exists m, fst (attempt pos level rtype history w) = Gen.SUCCESS text m
                 /\ Gen.validation_result m = Some v)
      /\ (~ Gen.markers_match text rtype ->
          fst (attempt pos level rtype history w)
          = Gen.RETRY (history ++ [Gen.assistant_turn text;
                                   Gen.user_turn (Gen.correction_prompt v)]))).
Proof.
  cbv zeta. split; [apply is_valid_iff|].
  intros Hans. unfold Gen.attempt, Zhipu.chat_completion.
  fold (Zhipu.calls w). rewrite Hans.
  pose proof (is_valid_iff text pos rtype) as Hiff.
  destruct (Gen.is_valid (Gen.validate_resume text pos rtype)) eqn:Hv; split.
  - intros _. eexists. split; reflexivity.
  - intros Hnot. exfalso. apply Hnot, Hiff. reflexivity.
  - intros Hm. apply Hiff in Hm. discriminate.
  - intros _. cbn [fst]. now rewrite <- List.app_assoc.
Qed.

(** *** The attempt budget *)

Lemma attempt_spec (pos : Gen.TechPosition) (level : Gen.SkillLevel)
      (rtype : Gen.RecruitmentType) (history : list Zhipu.turn) (w : Zhipu.client) :
  Zhipu.calls (snd (attempt pos level rtype history w)) = S (Zhipu.calls w)
  /\ Zhipu.answers (snd (attempt pos level rtype history w)) = Zhipu.answers w.
Proof.
  destruct (chat_completion_spec history w) as (_ & Hcalls & Hanswers).
  unfold Gen.attempt.
  destruct (Zhipu.chat_completion history w) as [[| | |text] w1]; cbn [snd] in *;
    try tauto.
  destruct (Gen.is_valid _); cbn [snd]; tauto.
Qed.

Lemma attempt_fails_retry (pos : Gen.TechPosition) (level : Gen.SkillLevel)
      (rtype : Gen.RecruitmentType) (history : list Zhipu.turn) (w : Zhipu.client) :
  Gen.attempt_fails pos rtype (Zhipu.answers w (Zhipu.calls w)) ->
  exists history', fst (attempt pos level rtype history w) = Gen.RETRY history'.
Proof.
  intros Hfails. unfold Gen.attempt, Zhipu.chat_completion.
  fold (Zhipu.calls w).
  destruct (Zhipu.answers w (Zhipu.calls w)) as [| | |text]; cbn [fst];
    try (eexists; reflexivity).
  cbv beta iota delta [Gen.attempt_fails] in Hfails. rewrite Hfails.
  eexists; reflexivity.
Qed.

(* the loop never sends more requests than it has attempts *)
Lemma attempts_calls (left : nat) (pos : Gen.TechPosition) (level : Gen.SkillLevel)
      (rtype : Gen.RecruitmentType) (history : list Zhipu.turn) (w : Zhipu.client) :
  (Zhipu.calls (snd (attempts left pos level rtype history w))
   <= Zhipu.calls w + left)%nat.
Proof.
  revert history w. induction left as [|left IH]; intros history w;
    cbn [Gen.attempts]; [cbn; lia|].
  destruct (attempt_spec pos level rtype history w) as [Hcalls _].
  destruct (attempt pos level rtype history w) as [[text m|history'] w1];
    cbn [snd] in *; [lia|].
  specialize (IH history' w1). lia.
Qed.

(* when every reply fails, the loop uses all its attempts *)
Lemma attempts_exhaust (left : nat) (pos : Gen.TechPosition) (level : Gen.SkillLevel)
      (rtype : Gen.RecruitmentType) (history : list Zhipu.turn) (w : Zhipu.client) :
  (forall k, (k < left)%nat ->
             Gen.attempt_fails pos rtype (Zhipu.answers w (Zhipu.calls w + k))) ->
  fst (attempts left pos level rtype history w) = Gen.EXHAUSTED
  /\ Zhipu.calls (snd (attempts left pos level rtype history w))
     = (Zhipu.calls w + left)%nat.
Proof.
  revert history w. induction left as [|left IH]; intros history w Hall;
    cbn [Gen.attempts]; [cbn; split; [reflexivity|lia]|].
  destruct (attempt_spec pos level rtype history w) as [Hcalls Hanswers].
  destruct (attempt_fails_retry pos level rtype history w) as [history' Hretry].
  { specialize (Hall 0%nat ltac:(lia)). now rewrite Nat.add_0_r in Hall. }
  destruct (attempt pos level rtype history w) as [tr w1]; cbn [fst snd] in *.
  subst tr.
  destruct (IH history' w1) as [Hres Hn].
  - intros k Hk. rewrite Hcalls, Hanswers.
    replace (S (Zhipu.calls w) + k)%nat with (Zhipu.calls w + S k)%nat by lia.
    apply Hall. lia.
  - split; [exact Hres|]. rewrite Hn, Hcalls. lia.
Qed.

(* an item whose session is exhausted only adds to the count of errors *)
Lemma generate_item_exhausted (pos : Gen.TechPosition) (level : Gen.SkillLevel)
      (rtype : Gen.RecruitmentType) (g : Gen.generator) :
  Gen._resume_exists pos rtype level g = false ->
  (forall k, (k < Gen.max_attempts)%nat ->
             Gen.attempt_fails
               pos rtype
               (Zhipu.answers (Gen.client g) (Zhipu.calls (Gen.client g) + k))) ->
  generate_item pos rtype g level
  = Gen.count_error
      (Gen.with_client (snd (generate_resume pos level rtype (Gen.client g))) g).
Proof.
  intros Hnew Hall.
  destruct (attempts_exhaust Gen.max_attempts pos level rtype
              [Gen.system_turn; Gen.user_turn (generate_prompt pos level rtype)]
              (Gen.client g) Hall) as [Hres _].
  unfold Gen.generate_item. rewrite Hnew.
  change (Gen.attempts strftime Gen.max_attempts pos level rtype
            [Gen.system_turn; Gen.user_turn (generate_prompt pos level rtype)]
            (Gen.client g))
    with (generate_resume pos level rtype (Gen.client g)) in Hres.
  destruct (generate_resume pos level rtype (Gen.client g)) as [res w1].
  cbn [fst snd] in *. now subst res.
Qed.

(** C5.  [generate_resume] never sends more than [max_attempts] = 5
    requests.  When each of the next five replies fails, because the
    request fails or because the content is not valid, it sends exactly
    five requests and ends with the exception that stands for EXHAUSTED.
    In [batch_generate_resumes] this counts one error for the item: the
    resumes, the output file and the count of generated resumes are as
    before, and the loop goes on with the next item. *)
Theorem generation_stops_after_max_attempts
        (pos : Gen.TechPosition) (level : Gen.SkillLevel)
        (rtype : Gen.RecruitmentType) :
  Gen.max_attempts = 5%nat
  /\ (forall w,
         (Zhipu.calls (snd (generate_resume pos level rtype w))
          <= Zhipu.calls w + Gen.max_attempts)%nat)
  /\ (forall w,
         (forall k, (k < Gen.max_attempts)%nat ->
                    Gen.attempt_fails pos rtype (Zhipu.answers w (Zhipu.calls w + k))) ->
         fst (generate_resume pos level rtype w) = Gen.EXHAUSTED
         /\ Zhipu.calls (snd (generate_resume pos level rtype w))
            = (Zhipu.calls w + Gen.max_attempts)%nat)
  /\ (forall g,
         Gen._resume_exists pos rtype level g = false ->
         (forall k, (k < Gen.max_attempts)%nat ->
                    Gen.attempt_fails
                      pos rtype
                      (Zhipu.answers (Gen.client g) (Zhipu.calls (Gen.client g) + k))) ->
         let g' := generate_item pos rtype g level in
         Gen.resumes g' = Gen.resumes g
         /\ Gen.output_file g' = Gen.output_file g
         /\ Gen.total_generated g' = Gen.total_generated g
         /\ Gen.total_errors g' = S (Gen.total_errors g)
         /\ Zhipu.calls (Gen.client g')
            = (Zhipu.calls (Gen.client g) + Gen.max_attempts)%nat
         /\ forall levels,
             levels_loop pos rtype (level :: levels) g
             = levels_loop pos rtype levels g').
Proof.
  split; [reflexivity|]. split; [|split].
  - intros w. apply attempts_calls.
  - intros w Hall. now apply attempts_exhaust.
  - intros g Hnew Hall. cbv zeta.
    rewrite (generate_item_exhausted pos level rtype g Hnew Hall).
    unfold Gen.resumes.
    cbn [Gen.count_error Gen.with_client Gen.generated_data Gen.output_file
         Gen.total_generated Gen.total_errors Gen.client].
    split; [reflexivity|]. split; [reflexivity|]. split; [reflexivity|].
    split; [reflexivity|]. split.
    + now apply attempts_exhaust.
    + intros levels.
      rewrite <- (generate_item_exhausted pos level rtype g Hnew Hall).
      reflexivity.
Qed.

End GenProperties.

(** Concrete sessions, with the database [cjk_db]. *)

Section GenRuns.

(* the ten markers and nothing else *)
Definition markers_only : str :=
  u "{NAME}{AGE}{GENDER}{MARRIAGE}{HUKOU}{INDUSTRY}{COMPANY_SIZE}{WORK_EXPERIENCE}{DISABILITY}{POLITICAL}".

Definition fixed_clock (w : Zhipu.client) : str := u "2025-01-01 00:00:00".

Definition short_prompt (pos : Gen.TechPosition) (level : Gen.SkillLevel)
           (rtype : Gen.RecruitmentType) : str := Gen.TechPosition_value pos.

(* a service that always answers with the markers alone *)
Definition answers_markers : Zhipu.client := Zhipu.fresh (fun _ => Zhipu.Content markers_only).

(* a service whose requests always fail *)
Definition always_down : Zhipu.client := Zhipu.fresh (fun _ => Zhipu.Raises).

(* a service that never uses a marker *)
Definition answers_no_marker : Zhipu.client :=
  Zhipu.fresh (fun _ => Zhipu.Content (u "专业技能 项目经验 提升 30%")).

(* a generator without resumes whose writes all succeed *)
Definition empty_document : Gen.document :=
  {| Gen.doc_metadata := {| Gen.creation_time := u "2025-01-01 00:00:00";
                            Gen.last_updated := u "2025-01-01 00:00:00" |};
     Gen.doc_resumes := [] |}.

Definition empty_generator (w : Zhipu.client) : Gen.generator :=
  {| Gen.generated_data := empty_document;
     Gen.output_file := Gen.Stored empty_document;
     Gen.write_faults := fun _ => Gen.WriteOk;
     Gen.writes := 0;
     Gen.client := w;
     Gen.total_generated := 0; Gen.total_errors := 0 |}.

(** C1, as stated, fails: a text made of the ten markers has none of the
    required sections and no quantitative pattern, yet it is valid and the
    session returns it at the first attempt. *)
Lemma markers_alone_are_accepted :
  Gen.is_valid (@Gen.validate_resume cjk_db markers_only Gen.BACKEND Gen.SOCIAL_DEV)
  = true
  /\ Gen.missing_sections markers_only Gen.BACKEND Gen.SOCIAL_DEV
     = [u "专业技能"; u "项目经验"]
  /\ @Gen.has_quantitative cjk_db markers_only = false
  /\ ~ @Gen.looks_complete cjk_db markers_only Gen.BACKEND Gen.SOCIAL_DEV
  /\ (exists m,
         @Gen.generate_resume cjk_db short_prompt fixed_clock
                              Gen.BACKEND Gen.MEDIUM Gen.SOCIAL_DEV answers_markers
         = (Gen.Returns markers_only m,
            snd (Zhipu.chat_completion
                   [Gen.system_turn; Gen.user_turn (short_prompt Gen.BACKEND Gen.MEDIUM Gen.SOCIAL_DEV)]
                   answers_markers))).
Proof.
  assert (Hv : Gen.is_valid
                 (@Gen.validate_resume cjk_db markers_only Gen.BACKEND Gen.SOCIAL_DEV)
               = true) by (vm_compute; reflexivity).
  split; [exact Hv|].
  split; [vm_compute; reflexivity|].
  split; [vm_compute; reflexivity|].
  split.
  - intros [_ Hq]. vm_compute in Hq. discriminate.
  - unfold Gen.generate_resume, Gen.max_attempts. cbn [Gen.attempts].
    unfold Gen.attempt. cbn [Zhipu.chat_completion answers_markers Zhipu.fresh
                               Zhipu.answers Zhipu.requests length].
    rewrite Hv. eexists. reflexivity.
Qed.

Lemma valid_iff_markers_match_witness :
  exists m,
    fst (@Gen.attempt cjk_db fixed_clock Gen.BACKEND Gen.MEDIUM Gen.SOCIAL_DEV
                      [Gen.system_turn] answers_markers)
    = Gen.SUCCESS markers_only m.
Proof.
  destruct (proj1 (proj2 (@valid_iff_markers_match
                            cjk_db fixed_clock markers_only Gen.BACKEND Gen.MEDIUM
                            Gen.SOCIAL_DEV [Gen.system_turn] answers_markers)
                         eq_refl)) as (m & Hm & _).
  - apply (proj1 (@is_valid_iff cjk_db markers_only Gen.BACKEND Gen.SOCIAL_DEV)).
    vm_compute. reflexivity.
  - exists m. exact Hm.
Defined.

Lemma generation_stops_after_max_attempts_witness :
  fst (@Gen.generate_resume cjk_db short_prompt fixed_clock
                            Gen.BACKEND Gen.MEDIUM Gen.SOCIAL_DEV always_down)
  = Gen.EXHAUSTED
  /\ Zhipu.calls (snd (@Gen.generate_resume cjk_db short_prompt fixed_clock
                          Gen.BACKEND Gen.MEDIUM Gen.SOCIAL_DEV answers_no_marker))
     = 5%nat
  /\ Gen.total_errors
       (@Gen.generate_item cjk_db short_prompt fixed_clock Gen.BACKEND Gen.SOCIAL_DEV
                           (empty_generator always_down) Gen.MEDIUM) = 1%nat.
Proof.
  pose proof (@generation_stops_after_max_attempts
                cjk_db short_prompt fixed_clock Gen.BACKEND Gen.MEDIUM Gen.SOCIAL_DEV)
    as (_ & _ & Hexhaust & Hitem).
  split; [|split].
  - apply (Hexhaust always_down). intros k _. exact I.
  - apply (Hexhaust answers_no_marker). intros k _. vm_compute. reflexivity.
  - apply (Hitem (empty_generator always_down)); [reflexivity|].
    intros k _. exact I.
Defined.

(* with the service down every item of the batch is tried five times and
   counted as an error, and the batch runs to its end *)
Example batch_with_service_down :
  let g := @Gen.batch_generate_resumes cjk_db short_prompt fixed_clock
                                       (empty_generator always_down) in
  Gen.total_errors g = 59%nat
  /\ Gen.total_generated g = 0%nat
  /\ Gen.resumes g = []
  /\ Zhipu.calls (Gen.client g) = (59 * 5)%nat.
Proof. cbv zeta. repeat split; vm_compute; reflexivity. Qed.

End GenRuns.

(** * Further properties *)

(** ** The retry loops of the two evaluators *)

Section RetryLoops.
Context {U : UnicodeDB}.

Lemma simple_loop_skip (left : nat) (prompt : str) (w : Ollama.client) :
  Simple.no_score (Ollama.answers w (Ollama.calls w)) ->
  Simple.evaluate_single_loop (S left) prompt w
  = Simple.evaluate_single_loop left prompt (snd (Ollama.generate prompt w)).
Proof.
  intros Hno. cbn [Simple.evaluate_single_loop].
  unfold Ollama.generate. fold (Ollama.calls w). cbn [snd].
  destruct (Ollama.answers w (Ollama.calls w)) as [[|c r]|]; try reflexivity.
  cbv beta iota delta [Simple.no_score] in Hno. now rewrite Hno.
Qed.

Lemma simple_loop_take (left : nat) (prompt : str) (w : Ollama.client)
      (r : str) (s : Z) :
  Ollama.answers w (Ollama.calls w) = Some r ->
  Simple._extract_score r = Some s ->
  Simple.evaluate_single_loop (S left) prompt w
  = (Some s, snd (Ollama.generate prompt w)).
Proof.
  intros Hans Hs. cbn [Simple.evaluate_single_loop].
  unfold Ollama.generate. fold (Ollama.calls w). rewrite Hans. cbn [snd].
  destruct r; [discriminate|]. now rewrite Hs.
Qed.

Lemma answer_cases_simple (a : option str) :
  Simple.no_score a \/ exists r s, a = Some r /\ Simple._extract_score r = Some s.
Proof.
  destruct a as [r|]; [|now left].
  destruct (Simple._extract_score r) as [s|] eqn:Hs; [right; eauto|now left].
Qed.

Lemma extract_score_range (r : str) (s : Z) :
  Simple._extract_score r = Some s -> 0 <= s <= 100.
Proof.
  unfold Simple._extract_score.
  destruct (Simple.sub_non_digits (strip r)); [discriminate|].
  destruct (int _) as [score|]; [|discriminate].
  destruct ((score <? 0) || (score >? 100)) eqn:Hrange; [discriminate|].
  intros [= <-]. apply orb_false_elim in Hrange as [Hneg Hbig].
  apply Z.ltb_ge in Hneg. rewrite Z.gtb_ltb in Hbig. apply Z.ltb_ge in Hbig. lia.
Qed.

Lemma simple_loop_range (left : nat) (prompt : str) (w : Ollama.client) (s : Z) :
  fst (Simple.evaluate_single_loop left prompt w) = Some s -> 0 <= s <= 100.
Proof.
  revert w. induction left as [|left IH]; intros w;
    cbn [Simple.evaluate_single_loop]; [discriminate|].
  destruct (Ollama.generate prompt w) as [[[|c r]|] w1]; try apply IH.
  destruct (Simple._extract_score (c :: r)) as [s'|] eqn:Hs; [|apply IH].
  intros [= <-]. now apply extract_score_range with (c :: r).
Qed.

(** X1.  [evaluate_single] of the simple evaluator returns the score of the
    first response, among the first [max_retries], from which a score can be
    read, and stops there; it returns None, after [max_retries] requests,
    exactly when none of them gives a score. *)
Theorem simple_evaluate_single_first_score
        (position content : str) (max_retries : nat) (w : Ollama.client) :
  let res := Simple.evaluate_single position content max_retries w in
  match fst res with
  | Some s =>
    0 <= s <= 100
    /\ exists j r,
        (j < max_retries)%nat
        /\ (forall k, (k < j)%nat ->
                      Simple.no_score (Ollama.answers w (Ollama.calls w + k)))
        /\ Ollama.answers w (Ollama.calls w + j) = Some r
        /\ Simple._extract_score r = Some s
        /\ Ollama.calls (snd res) = (Ollama.calls w + S j)%nat
  | None =>
    (forall k, (k < max_retries)%nat ->
               Simple.no_score (Ollama.answers w (Ollama.calls w + k)))
    /\ Ollama.calls (snd res) = (Ollama.calls w + max_retries)%nat
  end.
Proof.
  cbv zeta. unfold Simple.evaluate_single.
  generalize (Simple.generate_evaluation_prompt position content) as prompt.
  intros prompt. revert w.
  induction max_retries as [|left IH]; intros w.
  - cbn. split; [intros k Hk; lia|lia].
  - destruct (generate_spec prompt w) as (_ & Hcalls & Hanswers).
    destruct (answer_cases_simple (Ollama.answers w (Ollama.calls w)))
      as [Hno|(r & s & Hans & Hs)].
    + rewrite (simple_loop_skip left prompt w Hno).
      specialize (IH (snd (Ollama.generate prompt w))).
      rewrite Hcalls, Hanswers in IH.
      destruct (fst (Simple.evaluate_single_loop left prompt
                       (snd (Ollama.generate prompt w)))) as [s|].
      * destruct IH as (Hrange & j & r & Hj & Hbefore & Hans & Hs & Hn).
        split; [exact Hrange|]. exists (S j), r.
        split; [lia|]. split.
        { intros [|k] Hk; [now rewrite Nat.add_0_r|].
          replace (Ollama.calls w + S k)%nat with (S (Ollama.calls w) + k)%nat by lia.
          apply Hbefore. lia. }
        replace (Ollama.calls w + S j)%nat with (S (Ollama.calls w) + j)%nat by lia.
        split; [exact Hans|]. split; [exact Hs|]. rewrite Hn. lia.
      * destruct IH as [Hall Hn]. split.
        { intros [|k] Hk; [now rewrite Nat.add_0_r|].
          replace (Ollama.calls w + S k)%nat with (S (Ollama.calls w) + k)%nat by lia.
          apply Hall. lia. }
        rewrite Hn. lia.
    + rewrite (simple_loop_take left prompt w r s Hans Hs). cbn [fst snd].
      split; [now apply extract_score_range with r|].
      exists 0%nat, r. rewrite Nat.add_0_r.
      split; [lia|]. split; [intros k Hk; lia|].
      split; [exact Hans|]. split; [exact Hs|]. rewrite Hcalls. lia.
Qed.

(* a sample read from a response is within the bounds *)
Lemma extract_scores_well_scored (r : str) (d : Judge.sample) :
  Judge._extract_scores r = Some d -> Judge.well_scored d.
Proof.
  unfold Judge._extract_scores, Judge.well_scored.
  destruct (Judge.score_lines r) as [|l lines]; [discriminate|].
  destruct (Judge.extract_all Judge.metrics (l :: lines) Judge.nothing_yet)
    as [st|] eqn:Hall; cbn [mbind option_bind]; [|discriminate].
  assert (Hb : Judge.within_bounds (Judge.found st))
    by (eapply extract_all_within_bounds; [|exact Hall]; constructor).
  destruct (Judge.missing_required st); [|discriminate].
  destruct (Judge.invalid_scores st); [|discriminate].
  destruct (Judge.lookup_score Judge.M_capability (Judge.found st)) as [c|] eqn:Hc;
    cbn [mbind option_bind]; [|discriminate].
  destruct (Judge.lookup_score Judge.M_experience (Judge.found st)) as [e|] eqn:He;
    cbn [mbind option_bind]; [|discriminate].
  destruct (Judge.lookup_score Judge.M_potential (Judge.found st)) as [p|] eqn:Hp;
    cbn [mbind option_bind]; [|discriminate].
  intros [= <-].
  cbn [Judge.capability_score Judge.experience_score Judge.potential_score
       Judge.total_score].
  apply (lookup_score_bounds _ _ _ Hb) in Hc, He, Hp.
  cbn [Judge.max_scores] in Hc, He, Hp. repeat split; lia.
Qed.

Lemma judge_loop_well_scored (left : nat) (prompt : str) (w : Ollama.client)
      (d : Judge.sample) :
  fst (Judge.evaluate_single_loop left prompt w) = Some d -> Judge.well_scored d.
Proof.
  revert w. induction left as [|left IH]; intros w;
    cbn [Judge.evaluate_single_loop]; [discriminate|].
  destruct (Ollama.generate prompt w) as [[[|c r]|] w1]; try apply IH.
  destruct (Judge._extract_scores (c :: r)) as [d'|] eqn:Hd; [|apply IH].
  intros [= <-]. now apply extract_scores_well_scored with (c :: r).
Qed.

(** X2.  [evaluate_single] of the three-score evaluator returns the sample
    of the first response, among the first [max_retries], from which a
    sample can be read, and stops there; it returns None, after
    [max_retries] requests, exactly when none of them gives a sample. *)
Theorem judge_evaluate_single_first_sample
        (position content : str) (max_retries : nat) (w : Ollama.client) :
  let res := Judge.evaluate_single position content max_retries w in
  match fst res with
  | Some d =>
    Judge.well_scored d
    /\ exists j r,
        (j < max_retries)%nat
        /\ (forall k, (k < j)%nat ->
                      Judge.no_sample (Ollama.answers w (Ollama.calls w + k)))
        /\ Ollama.answers w (Ollama.calls w + j) = Some r
        /\ Judge._extract_scores r = Some d
        /\ Ollama.calls (snd res) = (Ollama.calls w + S j)%nat
  | None =>
    (forall k, (k < max_retries)%nat ->
               Judge.no_sample (Ollama.answers w (Ollama.calls w + k)))
    /\ Ollama.calls (snd res) = (Ollama.calls w + max_retries)%nat
  end.
Proof.
  cbv zeta. unfold Judge.evaluate_single.
  generalize (Judge.generate_evaluation_prompt position content) as prompt.
  intros prompt. revert w.
  induction max_retries as [|left IH]; intros w.
  - cbn. split; [intros k Hk; lia|lia].
  - destruct (generate_spec prompt w) as (_ & Hcalls & Hanswers).
    destruct (answer_cases_judge (Ollama.answers w (Ollama.calls w)))
      as [Hno|(r & d & Hans & Hd)].
    + rewrite (judge_loop_skip left prompt w Hno).
      specialize (IH (snd (Ollama.generate prompt w))).
      rewrite Hcalls, Hanswers in IH.
      destruct (fst (Judge.evaluate_single_loop left prompt
                       (snd (Ollama.generate prompt w)))) as [d|].
      * destruct IH as (Hrange & j & r & Hj & Hbefore & Hans & Hd & Hn).
        split; [exact Hrange|]. exists (S j), r.
        split; [lia|]. split.
        { intros [|k] Hk; [now rewrite Nat.add_0_r|].
          replace (Ollama.calls w + S k)%nat with (S (Ollama.calls w) + k)%nat by lia.
          apply Hbefore. lia. }
        replace (Ollama.calls w + S j)%nat with (S (Ollama.calls w) + j)%nat by lia.
        split; [exact Hans|]. split; [exact Hd|]. rewrite Hn. lia.
      * destruct IH as [Hall Hn]. split.
        { intros [|k] Hk; [now rewrite Nat.add_0_r|].
          replace (Ollama.calls w + S k)%nat with (S (Ollama.calls w) + k)%nat by lia.
          apply Hall. lia. }
        rewrite Hn. lia.
    + rewrite (evaluate_single_loop_accepts left prompt w r d Hans Hd). cbn [fst snd].
      split; [now apply extract_scores_well_scored with r|].
      exists 0%nat, r. rewrite Nat.add_0_r.
      split; [lia|]. split; [intros k Hk; lia|].
      split; [exact Hans|]. split; [exact Hd|]. rewrite Hcalls. lia.
Qed.

End RetryLoops.

(** ** Aggregation *)

Section Aggregation.
Context {U : UnicodeDB} {F : Statistics.FloatArith}.

Lemma total_bounds (lo hi : Z) (xs : list Z) :
  List.Forall (fun x => lo <= x <= hi) xs ->
  lo * Z.of_nat (length xs) <= Statistics.total xs <= hi * Z.of_nat (length xs).
Proof.
  induction 1 as [|x xs Hx _ IH]; [cbn; lia|].
  change (Statistics.total (x :: xs)) with (x + Statistics.total xs).
  rewrite length_cons, Nat2Z.inj_succ. lia.
Qed.

Lemma of_len_pos (xs : list Z) : xs <> [] -> (0 < Statistics.of_len xs)%Q.
Proof.
  intros Hne. unfold Statistics.of_len.
  change 0%Q with (inject_Z 0). rewrite <- Zlt_Qlt.
  destruct xs; [congruence|]. rewrite length_cons. lia.
Qed.

(* the arithmetic mean of sums taken item by item is the sum of the
   arithmetic means *)
Lemma mean_of_sums (a b c t : list Z) :
  t <> [] ->
  length a = length t -> length b = length t -> length c = length t ->
  Statistics.total t = Statistics.total a + Statistics.total b + Statistics.total c ->
  (Design.arithmetic_mean t
   == Design.arithmetic_mean a + Design.arithmetic_mean b + Design.arithmetic_mean c)%Q.
Proof.
  intros Ht La Lb Lc Hsum. unfold Design.arithmetic_mean.
  fold (Statistics.total t) (Statistics.total a) (Statistics.total b)
       (Statistics.total c).
  rewrite Hsum, La, Lb, Lc.
  rewrite !inject_Z_plus. unfold Qdiv. rewrite !Qmult_plus_distr_l. reflexivity.
Qed.

(* the mean lies between any bounds of the data *)
Lemma mean_bounds (lo hi : Z) (xs : list Z) :
  xs <> [] ->
  Z.abs lo <= 2 ^ 53 -> Z.abs hi <= 2 ^ 53 ->
  List.Forall (fun x => lo <= x <= hi) xs ->
  exists m, Statistics.mean xs = Some m
            /\ (inject_Z lo <= m)%Q /\ (m <= inject_Z hi)%Q.
Proof.
  intros Hne Hl Hh Hall. pose proof (total_bounds lo hi xs Hall) as [Hlo Hhi].
  pose proof (of_len_pos xs Hne) as Hpos.
  exists (Statistics.convert (Statistics.mean_fraction xs)).
  split; [destruct xs; [congruence|reflexivity]|].
  apply convert_bounds; try assumption; unfold Statistics.mean_fraction;
    rewrite Qred_correct.
  - apply Qle_shift_div_l; [exact Hpos|].
    unfold Statistics.of_len. rewrite <- inject_Z_mult, <- Zle_Qle. exact Hlo.
  - apply Qle_shift_div_r; [exact Hpos|].
    unfold Statistics.of_len. rewrite <- inject_Z_mult, <- Zle_Qle. exact Hhi.
Qed.

(* the scores collected by evaluate_multiple are within 0..100 *)
Lemma collect_scores_range (n : nat) (position content : str) (scores : list Z)
      (w : Ollama.client) :
  List.Forall (fun s => 0 <= s <= 100) scores ->
  List.Forall (fun s => 0 <= s <= 100)
              (fst (Simple.collect_scores n position content scores w))
  /\ (length (fst (Simple.collect_scores n position content scores w))
      <= length scores + n)%nat.
Proof.
  revert scores w. induction n as [|n IH]; intros scores w Hall;
    cbn [Simple.collect_scores]; [cbn; split; [exact Hall|lia]|].
  pose proof (simple_loop_range
                3 (Simple.generate_evaluation_prompt position content) w) as Hfirst.
  fold (Simple.evaluate_single position content 3 w) in Hfirst.
  destruct (Simple.evaluate_single position content 3 w) as [[s|] w1];
    cbn [fst snd] in Hfirst.
  - specialize (Hfirst s eq_refl). rename Hfirst into Hs.
    destruct (IH (scores ++ [s]) w1) as [H1 H2].
    + apply List.Forall_app. split; [exact Hall|]. constructor; [exact Hs|constructor].
    + split; [exact H1|]. rewrite List.length_app in H2. cbn in H2. lia.
  - destruct (IH scores w1 Hall) as [H1 H2]. split; [exact H1|lia].
Qed.

(** X3.  [evaluate_multiple] of the simple evaluator never raises.  It
    returns the error dictionary exactly when no score was obtained;
    otherwise it returns between one and K scores, each within 0..100,
    with a mean within 0..100 and, for a single score, the standard
    deviation 0. *)
Theorem simple_evaluate_multiple_result
        (position content now : str) (K : nat) (w : Ollama.client) :
  let scores := fst (Simple.collect_scores K position content [] w) in
  (scores = []
   /\ fst (Simple.evaluate_multiple position content K now w)
      = Some (Simple.EvalError (u "Failed to get valid evaluations") now))
  \/ (exists m sd,
         fst (Simple.evaluate_multiple position content K now w)
         = Some (Simple.EvalStats scores m sd now)
         /\ (1 <= length scores <= K)%nat
         /\ List.Forall (fun s => 0 <= s <= 100) scores
         /\ (0 <= m)%Q /\ (m <= 100)%Q
         /\ (length scores = 1%nat -> sd = 0%Q)).
Proof.
  cbv zeta. unfold Simple.evaluate_multiple.
  destruct (collect_scores_range K position content [] w) as [Hrange Hlen];
    [constructor|].
  destruct (Simple.collect_scores K position content [] w) as [scores w1].
  cbn [fst snd length] in *.
  destruct scores as [|s scores]; [left; split; reflexivity|right].
  destruct (mean_bounds 0 100 (s :: scores)) as (m & Hm & Hlo & Hhi);
    [discriminate|cbn; lia|cbn; lia|exact Hrange|].
  unfold Simple.stats. rewrite Hm. cbn [mbind option_bind].
  destruct scores as [|s' scores].
  - cbn [length Nat.ltb Nat.leb mbind option_bind]. cbn [length] in Hlen.
    exists m, 0%Q. cbn [length].
    split; [reflexivity|]. split; [lia|]. split; [exact Hrange|].
    split; [exact Hlo|]. split; [exact Hhi|]. reflexivity.
  - unfold Statistics.stdev.
    cbn [length Nat.ltb Nat.leb mbind option_bind].
    eexists m, _. split; [reflexivity|]. cbn [length] in Hlen |- *.
    split; [lia|]. split; [exact Hrange|].
    split; [exact Hlo|]. split; [exact Hhi|]. intros Hone. lia.
Qed.

(* the samples collected by evaluate_multiple are within the bounds *)
Lemma collect_evaluations_well_scored (n : nat) (position content : str)
      (evaluations : list Judge.sample) (w : Ollama.client) :
  List.Forall Judge.well_scored evaluations ->
  List.Forall Judge.well_scored
              (fst (Judge.collect_evaluations n position content evaluations w)).
Proof.
  revert evaluations w. induction n as [|n IH]; intros evaluations w Hall;
    cbn [Judge.collect_evaluations]; [exact Hall|].
  pose proof (judge_loop_well_scored
                3 (Judge.generate_evaluation_prompt position content) w) as Hfirst.
  fold (Judge.evaluate_single position content 3 w) in Hfirst.
  destruct (Judge.evaluate_single position content 3 w) as [[d|] w1];
    cbn [fst snd] in Hfirst; apply IH; [|exact Hall].
  apply List.Forall_app. split; [exact Hall|].
  constructor; [now apply Hfirst|constructor].
Qed.

Lemma totals_add_up (evaluations : list Judge.sample) :
  List.Forall Judge.well_scored evaluations ->
  Statistics.total (List.map Judge.total_score evaluations)
  = Statistics.total (List.map Judge.capability_score evaluations)
    + Statistics.total (List.map Judge.experience_score evaluations)
    + Statistics.total (List.map Judge.potential_score evaluations).
Proof.
  induction 1 as [|d ds (_ & _ & _ & Hd) _ IH]; [reflexivity|].
  cbn [List.map]. unfold Statistics.total in *. cbn [fold_right]. lia.
Qed.

Lemma aggregate_mean (xs : list Z) (st : Judge.metric_stats) :
  xs <> [] ->
  Judge.aggregate xs = Some st ->
  Judge.scores st = xs /\ Judge.mean st = Statistics.mean xs.
Proof.
  intros Hne. destruct xs as [|x xs]; [congruence|].
  unfold Judge.aggregate.
  destruct (Statistics.mean (x :: xs)) as [m|]; cbn [mbind option_bind];
    [|discriminate].
  destruct (if (1 <? length (x :: xs))%nat then Statistics.stdev (x :: xs)
            else Some 0%Q) as [sd|];
    cbn [mbind option_bind]; [|discriminate].
  intros [= <-]. split; reflexivity.
Qed.

Lemma sample_scores_range (evaluations : list Judge.sample) :
  List.Forall Judge.well_scored evaluations ->
  List.Forall (fun x => 0 <= x <= 40) (List.map Judge.capability_score evaluations)
  /\ List.Forall (fun x => 0 <= x <= 40) (List.map Judge.experience_score evaluations)
  /\ List.Forall (fun x => 0 <= x <= 20) (List.map Judge.potential_score evaluations).
Proof.
  induction 1 as [|d ds (Hc & He & Hp & _) _ (IHc & IHe & IHp)];
    [repeat split; constructor|].
  cbn [List.map]. repeat split; constructor; assumption.
Qed.

Lemma sample_totals_range (evaluations : list Judge.sample) :
  List.Forall Judge.well_scored evaluations ->
  List.Forall (fun x => 0 <= x <= 100) (List.map Judge.total_score evaluations).
Proof.
  induction 1 as [|d ds (Hc & He & Hp & Ht) _ IH]; [constructor|].
  cbn [List.map]. constructor; [lia|exact IH].
Qed.

(** X4.  In a scored result of [evaluate_multiple] the number stored as
    mean of a score is the arithmetic mean of the samples, as an integer
    or as the nearest float, and lies within the bounds of the score; the
    arithmetic mean of the totals is the sum of the arithmetic means of
    the three scores. *)
Theorem judge_evaluate_multiple_means
        (position content now : str) (K : nat) (w : Ollama.client)
        (t c e p : Judge.metric_stats) (stamp : str) :
  fst (Judge.evaluate_multiple position content K now w)
  = Some (Judge.EvalScores t c e p stamp) ->
  exists mt mc me mp,
    Judge.mean t = Some mt /\ Judge.mean c = Some mc
    /\ Judge.mean e = Some me /\ Judge.mean p = Some mp
    /\ Design.is_mean (Judge.scores t) mt /\ Design.is_mean (Judge.scores c) mc
    /\ Design.is_mean (Judge.scores e) me /\ Design.is_mean (Judge.scores p) mp
    /\ (Design.arithmetic_mean (Judge.scores t)
        == Design.arithmetic_mean (Judge.scores c)
           + Design.arithmetic_mean (Judge.scores e)
           + Design.arithmetic_mean (Judge.scores p))%Q
    /\ (0 <= mt)%Q /\ (mt <= 100)%Q
    /\ (0 <= mc)%Q /\ (mc <= 40)%Q
    /\ (0 <= me)%Q /\ (me <= 40)%Q
    /\ (0 <= mp)%Q /\ (mp <= 20)%Q.
Proof.
  unfold Judge.evaluate_multiple.
  pose proof (collect_evaluations_well_scored K position content [] w
                ltac:(constructor)) as Hall.
  destruct (Judge.collect_evaluations K position content [] w) as [evaluations w1].
  cbn [fst] in Hall.
  destruct evaluations as [|d ds]; [discriminate|]. cbn [fst].
  set (ts := List.map Judge.total_score (d :: ds)).
  set (cs := List.map Judge.capability_score (d :: ds)).
  set (es := List.map Judge.experience_score (d :: ds)).
  set (ps := List.map Judge.potential_score (d :: ds)).
  assert (Hts : ts <> []) by discriminate.
  assert (Hcs : cs <> []) by discriminate.
  assert (Hes : es <> []) by discriminate.
  assert (Hps : ps <> []) by discriminate.
  destruct (Judge.aggregate ts) as [t'|] eqn:Ht; cbn [mbind option_bind]; [|discriminate].
  destruct (Judge.aggregate cs) as [c'|] eqn:Hc; cbn [mbind option_bind]; [|discriminate].
  destruct (Judge.aggregate es) as [e'|] eqn:He; cbn [mbind option_bind]; [|discriminate].
  destruct (Judge.aggregate ps) as [p'|] eqn:Hp; cbn [mbind option_bind]; [|discriminate].
  intros [= <- <- <- <- _].
  apply aggregate_mean in Ht as [St Ht]; [|exact Hts].
  apply aggregate_mean in Hc as [Sc Hc]; [|exact Hcs].
  apply aggregate_mean in He as [Se He]; [|exact Hes].
  apply aggregate_mean in Hp as [Sp Hp]; [|exact Hps].
  rewrite St, Sc, Se, Sp, Ht, Hc, He, Hp.
  destruct (sample_scores_range (d :: ds) Hall) as (Rc & Re & Rp).
  pose proof (sample_totals_range (d :: ds) Hall) as Rt.
  destruct (mean_bounds 0 100 ts) as (mt & Hmt & Ht0 & Ht1);
    [exact Hts|cbn; lia|cbn; lia|exact Rt|].
  destruct (mean_bounds 0 40 cs) as (mc & Hmc & Hc0 & Hc1);
    [exact Hcs|cbn; lia|cbn; lia|exact Rc|].
  destruct (mean_bounds 0 40 es) as (me & Hme & He0 & He1);
    [exact Hes|cbn; lia|cbn; lia|exact Re|].
  destruct (mean_bounds 0 20 ps) as (mp & Hmp & Hp0 & Hp1);
    [exact Hps|cbn; lia|cbn; lia|exact Rp|].
  destruct (mean_is_mean ts Hts) as (mt' & Hmt' & It).
  destruct (mean_is_mean cs Hcs) as (mc' & Hmc' & Ic).
  destruct (mean_is_mean es Hes) as (me' & Hme' & Ie).
  destruct (mean_is_mean ps Hps) as (mp' & Hmp' & Ip).
  assert (mt' = mt) by congruence. assert (mc' = mc) by congruence.
  assert (me' = me) by congruence. assert (mp' = mp) by congruence.
  subst mt' mc' me' mp'.
  exists mt, mc, me, mp.
  split; [exact Hmt|]. split; [exact Hmc|]. split; [exact Hme|]. split; [exact Hmp|].
  split; [exact It|]. split; [exact Ic|]. split; [exact Ie|]. split; [exact Ip|].
  split; [|tauto].
  apply mean_of_sums; try exact Hts; unfold ts, cs, es, ps;
    try (now rewrite !List.length_map).
  apply totals_add_up, Hall.
Qed.

End Aggregation.

(** ** Keywords and score lines *)

Section Keywords.
Context {U : UnicodeDB}.

Lemma strip_prefix_app (t s rest : str) :
  strip_prefix t s = Some rest -> s = t ++ rest.
Proof.
  revert s. induction t as [|a t IH]; intros s; cbn [strip_prefix].
  - now intros [= <-].
  - destruct s as [|b s]; [discriminate|].
    destruct (N.eqb_spec a b) as [<-|]; [|discriminate].
    intros Hs. cbn. f_equal. now apply IH.
Qed.

(* t in s gives an occurrence of t in s *)
Lemma contains_occurs (t s : str) :
  contains t s = true -> exists pre post, s = pre ++ t ++ post.
Proof.
  induction s as [|c s IH]; cbn [contains].
  - destruct (strip_prefix t []) as [rest|] eqn:Hp; [|discriminate].
    intros _. exists [], rest. exact (strip_prefix_app _ _ _ Hp).
  - destruct (strip_prefix t (c :: s)) as [rest|] eqn:Hp.
    + intros _. exists [], rest. exact (strip_prefix_app _ _ _ Hp).
    + intros Hs. destruct (IH Hs) as (pre & post & ->).
      now exists (c :: pre), post.
Qed.

Lemma strip_prefix_here (t post : str) : strip_prefix t (t ++ post) = Some post.
Proof.
  induction t as [|a t IH]; cbn [strip_prefix app]; [reflexivity|].
  now rewrite N.eqb_refl.
Qed.

(* an occurrence of t in s makes t in s true *)
Lemma occurs_contains (t pre post : str) : contains t (pre ++ t ++ post) = true.
Proof.
  induction pre as [|c pre IH].
  - cbn [app]. destruct (t ++ post) eqn:Heq; cbn [contains];
      rewrite <- Heq, strip_prefix_here; reflexivity.
  - cbn [app contains]. rewrite IH. now destruct (strip_prefix t _).
Qed.

Lemma contains_within (t l pre post : str) :
  contains t l = true -> contains t (pre ++ l ++ post) = true.
Proof.
  intros Hl. apply contains_occurs in Hl as (p & q & ->).
  replace (pre ++ (p ++ t ++ q) ++ post) with ((pre ++ p) ++ t ++ (q ++ post))
    by (now rewrite <- !List.app_assoc).
  apply occurs_contains.
Qed.

Lemma dropwhile_suffix (p : N -> bool) (s : str) :
  exists pre, s = pre ++ dropwhile p s.
Proof.
  induction s as [|c s [pre IH]]; [now exists []|].
  cbn [dropwhile]. destruct (p c); [|now exists []].
  exists (c :: pre). cbn. now f_equal.
Qed.

(* a stripped string is a part of the string *)
Lemma strip_within (s : str) : exists pre post, s = pre ++ strip s ++ post.
Proof.
  unfold strip.
  destruct (dropwhile_suffix is_space s) as [p1 H1].
  destruct (dropwhile_suffix is_space (rev (dropwhile is_space s))) as [p2 H2].
  exists p1, (rev p2). rewrite <- List.rev_app_distr, <- H2, List.rev_involutive.
  exact H1.
Qed.

(* a line of a text is a part of the text *)
Lemma split_lines_within (cur s l : str) :
  In l (split_lines_go cur s) -> exists pre post, rev cur ++ s = pre ++ l ++ post.
Proof.
  revert cur. induction s as [|c s IH]; intros cur; cbn [split_lines_go].
  - intros [<-|[]]. exists [], []. now rewrite List.app_nil_r.
  - destruct (c =? 10)%N.
    + intros [<-|Hin].
      * now exists [], (c :: s).
      * destruct (IH [] Hin) as (pre & post & Heq). cbn in Heq.
        exists (rev cur ++ c :: pre), post. rewrite Heq.
        now rewrite <- List.app_assoc.
    + intros Hin. destruct (IH (c :: cur) Hin) as (pre & post & Heq).
      exists pre, post. rewrite <- Heq. cbn [rev]. now rewrite <- List.app_assoc.
Qed.

Lemma score_line_within (response line : str) :
  In line (Judge.score_lines response) ->
  exists pre post, response = pre ++ line ++ post.
Proof.
  unfold Judge.score_lines. intros Hin.
  apply List.filter_In in Hin as [Hin _].
  apply List.in_map_iff in Hin as (raw & <- & Hraw).
  apply (split_lines_within [] response raw) in Hraw as (p1 & q1 & H1).
  destruct (strip_within raw) as (p2 & q2 & H2).
  exists (p1 ++ p2), (q2 ++ q1). cbn in H1. rewrite H1. rewrite H2 at 1.
  now rewrite <- !List.app_assoc.
Qed.

(* the pattern of a metric only matches where its keyword occurs *)
Lemma re_search_keyword (kw : str) (prev : option N) (s : str)
      (groups : option str * option str) :
  Judge.re_search_from kw prev s = Some groups -> contains kw s = true.
Proof.
  revert prev. induction s as [|c s IH]; intros prev;
    cbn [Judge.re_search_from contains]; unfold Judge.match_here.
  - destruct (strip_prefix kw []); [reflexivity|discriminate].
  - destruct (strip_prefix kw (c :: s)); [reflexivity|]. apply IH.
Qed.

Lemma no_keyword_no_sample (response : str) (m : Judge.metric) :
  contains (Judge.keyword m) response = false ->
  forall line s, In line (Judge.score_lines response) ->
                 Judge.extracted m line s -> s < 0 \/ Judge.max_scores m < s.
Proof.
  intros Hno line s Hin (groups & score_str & Hsearch & _ & _). exfalso.
  apply re_search_keyword in Hsearch.
  destruct (score_line_within response line Hin) as (pre & post & ->).
  rewrite (contains_within _ _ pre post Hsearch) in Hno. discriminate.
Qed.

(** X5.  A response in which one of the three keywords does not occur
    gives no sample. *)
Theorem extract_scores_needs_every_keyword (response : str) (m : Judge.metric) :
  contains (Judge.keyword m) response = false ->
  Judge._extract_scores response = None.
Proof.
  intros Hno. unfold Judge._extract_scores.
  destruct (Judge.score_lines response) as [|l lines] eqn:Hlines; [reflexivity|].
  destruct (Judge.extract_all Judge.metrics (l :: lines) Judge.nothing_yet)
    as [st|] eqn:Hall; cbn [mbind option_bind]; [|reflexivity].
  assert (Hmiss : Judge.missing_required st <> []).
  { eapply (extract_all_misses _ _ _ st m (all_metrics m)); [|exact Hall].
    rewrite <- Hlines. now apply no_keyword_no_sample. }
  now destruct (Judge.missing_required st).
Qed.

End Keywords.

(** ** The format the prompt asks for *)

Section RequestedFormat.
Context {U : UnicodeDB}.

Lemma ascii_digit_is_digit (c : N) :
  (48 <= c)%N /\ (c <= 57)%N -> is_digit c = true.
Proof.
  intros [Hlo Hhi]. unfold is_digit, digit_value.
  replace (c <? 128)%N with true by (symmetry; apply N.ltb_lt; lia).
  replace (48 <=? c)%N with true by (symmetry; apply N.leb_le; lia).
  replace (c <=? 57)%N with true by (symmetry; apply N.leb_le; lia).
  reflexivity.
Qed.

Lemma ascii_digit_no_space (c : N) :
  (48 <= c)%N /\ (c <= 57)%N -> is_space c = false.
Proof.
  intros Hc. destruct (is_space c) eqn:Hs; [|reflexivity].
  apply space_not_digit in Hs. rewrite (ascii_digit_is_digit c Hc) in Hs.
  discriminate.
Qed.

Lemma ascii_digits_all_digits (ds : str) :
  Judge.ascii_digits ds -> List.Forall (fun c => is_digit c = true) ds.
Proof.
  intros Hds. eapply List.Forall_impl; [|exact Hds].
  intros c Hc. now apply ascii_digit_is_digit.
Qed.

Lemma takewhile_all (p : N -> bool) (s : str) :
  List.Forall (fun c => p c = true) s -> takewhile p s = s.
Proof.
  induction 1 as [|c s Hc _ IH]; [reflexivity|].
  cbn [takewhile]. now rewrite Hc, IH.
Qed.

(* a text without newline is one line; a newline ends a line *)
Lemma split_lines_go_last (cur l : str) :
  List.Forall (fun c => c <> 10%N) l -> split_lines_go cur l = [rev cur ++ l].
Proof.
  intros Hl. revert cur. induction Hl as [|c l Hc _ IH]; intros cur.
  - cbn. now rewrite List.app_nil_r.
  - cbn [split_lines_go]. destruct (N.eqb_spec c 10) as [->|_]; [congruence|].
    rewrite IH. cbn [rev]. now rewrite <- List.app_assoc.
Qed.

Lemma split_lines_go_line (cur l s : str) :
  List.Forall (fun c => c <> 10%N) l ->
  split_lines_go cur (l ++ 10%N :: s) = (rev cur ++ l) :: split_lines_go [] s.
Proof.
  intros Hl. revert cur. induction Hl as [|c l Hc _ IH]; intros cur.
  - cbn. now rewrite List.app_nil_r.
  - cbn [split_lines_go app]. destruct (N.eqb_spec c 10) as [->|_]; [congruence|].
    rewrite IH. cbn [rev]. now rewrite <- List.app_assoc.
Qed.

(* strip leaves a string that neither starts nor ends with white space *)
Lemma strip_id (a z : N) (mid : str) :
  is_space a = false -> is_space z = false ->
  strip (a :: mid ++ [z]) = a :: mid ++ [z].
Proof.
  intros Ha Hz. unfold strip. cbn [dropwhile]. rewrite Ha.
  change (a :: mid ++ [z]) with ((a :: mid) ++ [z]).
  rewrite List.rev_app_distr. cbn [rev app dropwhile]. rewrite Hz.
  change (z :: rev mid ++ [a]) with ([z] ++ rev (a :: mid)).
  rewrite List.rev_app_distr, List.rev_involutive. reflexivity.
Qed.

Lemma contains_head_absent (k0 : N) (k s : str) :
  List.Forall (fun c => c <> k0) s -> contains (k0 :: k) s = false.
Proof.
  induction 1 as [|c s Hc _ IH]; [reflexivity|].
  cbn [contains strip_prefix]. destruct (N.eqb_spec k0 c) as [->|_]; [congruence|].
  exact IH.
Qed.

Lemma re_search_absent (m : Judge.metric) (line : str) :
  contains (Judge.keyword m) line = false -> Judge.re_search m line = None.
Proof.
  intros Hno. unfold Judge.re_search.
  destruct (Judge.re_search_from (Judge.keyword m) None line) as [g|] eqn:Hs;
    [|reflexivity].
  apply re_search_keyword in Hs. congruence.
Qed.

(* a line of the format: the keyword, a fullwidth colon, the score *)
Definition format_line (m : Judge.metric) (ds : str) : str :=
  Judge.keyword m ++ 65306%N :: ds.

Lemma ascii_digits_below (ds : str) (k : N) :
  Judge.ascii_digits ds -> (57 < k)%N -> List.Forall (fun c => c <> k) ds.
Proof.
  intros Hds Hk. eapply List.Forall_impl; [|exact Hds].
  intros c [_ Hc]. cbv beta. lia.
Qed.

Lemma ascii_digits_no_newline (ds : str) :
  Judge.ascii_digits ds -> List.Forall (fun c => c <> 10%N) ds.
Proof.
  intros Hds. eapply List.Forall_impl; [|exact Hds].
  intros c [Hc _]. cbv beta. lia.
Qed.

Lemma format_line_no_newline (m : Judge.metric) (ds : str) :
  Judge.ascii_digits ds -> List.Forall (fun c => c <> 10%N) (format_line m ds).
Proof.
  intros Hds. unfold format_line. apply List.Forall_app. split.
  - destruct m; vm_compute; repeat constructor; discriminate.
  - constructor; [discriminate|]. now apply ascii_digits_no_newline.
Qed.

(* the keyword of another metric does not occur in a line of the format *)
Lemma other_keyword_absent (m m' : Judge.metric) (ds : str) :
  m <> m' -> Judge.ascii_digits ds ->
  contains (Judge.keyword m) (format_line m' ds) = false.
Proof.
  intros Hne Hds. unfold format_line.
  destruct m, m'; try congruence;
    match goal with
    | |- contains ?kw (?kw' ++ _) = false =>
      let k := eval vm_compute in kw in
      let k' := eval vm_compute in kw' in
      change kw with k; change kw' with k'
    end;
    apply contains_head_absent; cbn [app];
      repeat (constructor; [discriminate|]);
      (apply ascii_digits_below; [exact Hds|reflexivity]).
Qed.

Lemma format_line_stripped (m : Judge.metric) (ds : str) :
  (forall m, List.Forall (fun c => is_space c = false) (Judge.keyword m)) ->
  ds <> [] -> Judge.ascii_digits ds ->
  strip (format_line m ds) = format_line m ds.
Proof.
  intros Hkw Hne Hds. unfold format_line.
  destruct (exists_last Hne) as (ds' & z & ->).
  specialize (Hkw m).
  assert (Hz : is_space z = false).
  { apply ascii_digit_no_space.
    apply List.Forall_app in Hds as [_ Hz]. now inversion Hz. }
  destruct (Judge.keyword m) as [|a kw] eqn:Hk;
    [destruct m; vm_compute in Hk; discriminate|].
  inversion Hkw as [|? ? Ha _]; subst.
  replace ((a :: kw) ++ 65306%N :: ds' ++ [z])
    with (a :: (kw ++ 65306%N :: ds') ++ [z])
    by (cbn; now rewrite <- List.app_assoc).
  now apply strip_id.
Qed.

Lemma format_line_kept (m : Judge.metric) (ds : str) :
  match format_line m ds with
  | [] => false
  | _ => Judge.has_keyword (format_line m ds)
  end = true.
Proof.
  assert (Hk : Judge.has_keyword (format_line m ds) = true).
  { unfold Judge.has_keyword. apply List.existsb_exists. exists m.
    split; [apply all_metrics|]. apply (occurs_contains _ []). }
  destruct (format_line m ds) eqn:Hl; [|exact Hk].
  vm_compute in Hk. discriminate.
Qed.

Lemma match_here_found (kw : str) (prev : option N) (s : str)
      (groups : option str * option str) :
  Judge.match_here kw prev s = Some groups ->
  Judge.re_search_from kw prev s = Some groups.
Proof. intros Hm. destruct s; cbn [Judge.re_search_from]; now rewrite Hm. Qed.

(* the pattern of a metric reads the digits of its line *)
Lemma format_line_read (m : Judge.metric) (ds : str) :
  ds <> [] -> Judge.ascii_digits ds ->
  Judge.re_search m (format_line m ds) = Some (Some ds, None).
Proof.
  intros Hne Hds. unfold Judge.re_search, format_line.
  apply match_here_found. unfold Judge.match_here.
  rewrite strip_prefix_here. cbn [Judge.after_keyword_colon].
  change (Judge.is_colon 65306) with true. cbv iota.
  destruct ds as [|d ds]; [congruence|].
  pose proof (ascii_digits_all_digits _ Hds) as Hall.
  inversion Hds as [|? ? Hd _]; subst.
  cbn [dropwhile]. rewrite (ascii_digit_no_space d Hd).
  now rewrite (takewhile_all _ _ Hall).
Qed.

Lemma max_scores_le_100 (m : Judge.metric) : Judge.max_scores m <= 100.
Proof. destruct m; cbn; lia. Qed.

Lemma scan_lines_hit (m : Judge.metric) (line : str) (rest : list str)
      (invalid : list Judge.invalid_score) (ds : str) :
  Judge.re_search m line = Some (Some ds, None) ->
  ds <> [] -> Judge.ascii_digits ds ->
  (length ds <= max_str_digits)%nat ->
  decimal_number ds <= Judge.max_scores m ->
  Judge.scan_lines m (line :: rest) invalid = Some (Some (decimal_number ds), invalid).
Proof.
  intros Hsearch Hne Hds Hlen Hmax. cbn [Judge.scan_lines]. rewrite Hsearch.
  cbn [Judge.first_group].
  rewrite (int_of_digits ds Hne (ascii_digits_all_digits ds Hds) Hlen).
  cbn [mbind option_bind].
  pose proof (decimal_number_nonneg ds) as Hpos.
  pose proof (max_scores_le_100 m) as H100.
  replace (decimal_number ds <? 0) with false by (symmetry; apply Z.ltb_ge; lia).
  rewrite !Z.gtb_ltb.
  replace (100 <? decimal_number ds) with false by (symmetry; apply Z.ltb_ge; lia).
  replace (Judge.max_scores m <? decimal_number ds) with false
    by (symmetry; apply Z.ltb_ge; lia).
  reflexivity.
Qed.

Lemma scan_lines_miss (m : Judge.metric) (line : str) (rest : list str)
      (invalid : list Judge.invalid_score) :
  Judge.re_search m line = None ->
  Judge.scan_lines m (line :: rest) invalid = Judge.scan_lines m rest invalid.
Proof. intros Hs. cbn [Judge.scan_lines]. now rewrite Hs. Qed.

Lemma requested_format_lines (c e p : str) :
  (forall m, List.Forall (fun ch => is_space ch = false) (Judge.keyword m)) ->
  c <> [] -> e <> [] -> p <> [] ->
  Judge.ascii_digits c -> Judge.ascii_digits e -> Judge.ascii_digits p ->
  Judge.score_lines (Judge.requested_format c e p)
  = [format_line Judge.M_capability c; format_line Judge.M_experience e;
     format_line Judge.M_potential p].
Proof.
  intros Hkw Hc He Hp Dc De Dp.
  unfold Judge.score_lines, split_lines.
  replace (Judge.requested_format c e p)
    with (format_line Judge.M_capability c
          ++ 10%N :: format_line Judge.M_experience e
          ++ 10%N :: format_line Judge.M_potential p)
    by (unfold Judge.requested_format, format_line;
        now rewrite <- !List.app_assoc).
  rewrite (split_lines_go_line [] _ _ (format_line_no_newline _ c Dc)).
  rewrite (split_lines_go_line [] _ _ (format_line_no_newline _ e De)).
  rewrite (split_lines_go_last [] _ (format_line_no_newline _ p Dp)).
  cbn [rev app List.map List.filter].
  rewrite !format_line_stripped by assumption.
  now rewrite !format_line_kept.
Qed.

(** X6.  A response in the format the prompt asks for (the three
    keywords, each followed by a fullwidth colon and a score written with
    the digits 0 to 9, one per line) with scores of at most 40, 40 and 20,
    none written with more digits than [int] accepts, gives exactly these
    scores and their sum. *)
Theorem requested_format_is_read (c e p : str) :
  (forall m, List.Forall (fun ch => is_space ch = false) (Judge.keyword m)) ->
  c <> [] -> e <> [] -> p <> [] ->
  Judge.ascii_digits c -> Judge.ascii_digits e -> Judge.ascii_digits p ->
  (length c <= max_str_digits)%nat ->
  (length e <= max_str_digits)%nat ->
  (length p <= max_str_digits)%nat ->
  decimal_number c <= 40 -> decimal_number e <= 40 -> decimal_number p <= 20 ->
  Judge._extract_scores (Judge.requested_format c e p)
  = Some {| Judge.capability_score := decimal_number c;
            Judge.experience_score := decimal_number e;
            Judge.potential_score := decimal_number p;
            Judge.total_score :=
              decimal_number c + decimal_number e + decimal_number p |}.
Proof.
  intros Hkw Hc He Hp Dc De Dp Lc Le Lp Rc Re Rp.
  unfold Judge._extract_scores.
  rewrite (requested_format_lines c e p) by assumption.
  unfold Judge.metrics. cbn [Judge.extract_all Judge.nothing_yet Judge.invalid_scores].
  rewrite (scan_lines_hit Judge.M_capability _ _ _ c
             (format_line_read _ c Hc Dc) Hc Dc Lc Rc).
  cbn [mbind option_bind Judge.found Judge.missing_required Judge.invalid_scores app].
  rewrite (scan_lines_miss Judge.M_experience (format_line Judge.M_capability c))
    by (apply re_search_absent, other_keyword_absent; [discriminate|exact Dc]).
  rewrite (scan_lines_hit Judge.M_experience _ _ _ e
             (format_line_read _ e He De) He De Le Re).
  cbn [mbind option_bind Judge.found Judge.missing_required Judge.invalid_scores app].
  rewrite (scan_lines_miss Judge.M_potential (format_line Judge.M_capability c))
    by (apply re_search_absent, other_keyword_absent; [discriminate|exact Dc]).
  rewrite (scan_lines_miss Judge.M_potential (format_line Judge.M_experience e))
    by (apply re_search_absent, other_keyword_absent; [discriminate|exact De]).
  rewrite (scan_lines_hit Judge.M_potential _ _ _ p
             (format_line_read _ p Hp Dp) Hp Dp Lp Rp).
  cbn [mbind option_bind Judge.found Judge.missing_required Judge.invalid_scores app
       Judge.lookup_score Judge.metric_eqb].
  reflexivity.
Qed.

End RequestedFormat.

(** ** ResumeBatchProcessor: what a restart finds *)

Section BatchRestart.
Context {Id : Type} `{Countable Id} {E : Type}.

Local Abbreviation resume := (Batch.resume Id E).

Lemma not_processed_covered (all_resumes processed : list resume) :
  (forall r, In r all_resumes -> In (Batch.id r) (List.map Batch.id processed)) ->
  Batch.not_processed all_resumes processed = [].
Proof.
  intros Hcov. unfold Batch.not_processed.
  induction all_resumes as [|r rest IH]; [reflexivity|].
  cbn [List.filter].
  rewrite bool_decide_eq_false_2.
  - apply IH. intros x Hx. apply Hcov. now right.
  - intros Hnot. apply Hnot, in_ids_of, Hcov. now left.
Qed.

(* the pending records are those of the input that the processed list does
   not cover *)
Lemma not_processed_or_covered (all_resumes processed : list resume) (r : resume) :
  In r all_resumes ->
  In r (Batch.not_processed all_resumes processed)
  \/ In (Batch.id r) (List.map Batch.id processed).
Proof.
  intros Hr.
  destruct (decide (Batch.id r ∈ Batch.ids_of processed)) as [Hin|Hnot].
  - right. now apply in_ids_of.
  - left. apply pending_iff. split; [exact Hr|]. intros Hc. apply Hnot.
    now apply in_ids_of.
Qed.

Variable as_completed :
  list (Batch.resume Id E) -> list (Batch.resume Id E * Batch.future_result E).
Variable faults : nat -> Batch.io_fault.
Variable error_evaluation : str -> str -> E.

Local Abbreviation collect := (@Batch.collect Id E faults error_evaluation).
Local Abbreviation process_resumes :=
  (@Batch.process_resumes Id _ _ E as_completed faults error_evaluation).
Local Abbreviation finish := (@Batch.finish Id E error_evaluation).

(* what the loader returns covers the input *)
Lemma load_covers_input (d : Batch.disk Id E) (all_resumes loaded pending : list resume)
      (ev : list Batch.event) :
  Batch.input_file d = Batch.Snapshot all_resumes ->
  Batch._load_progress d = (Batch.Ok (loaded, pending), ev) ->
  forall x, In x all_resumes ->
            In x pending \/ In (Batch.id x) (List.map Batch.id loaded).
Proof.
  intros Hin. unfold Batch._load_progress. rewrite Hin.
  destruct (Batch.output_file d) as [| | |p];
    [destruct (Batch.temp_file d) as [| | |p]| | |];
    intros [= <- <- _] x Hx;
    first [now apply not_processed_or_covered | now left].
Qed.

(* a run that meets no failure covers the whole input *)
Lemma run_covers_input (d : Batch.disk Id E) (all_resumes loaded pending : list resume)
      (ev : list Batch.event) :
  Batch.input_file d = Batch.Snapshot all_resumes ->
  Batch._load_progress d = (Batch.Ok (loaded, pending), ev) ->
  Batch.evaluated loaded ->
  (forall l, Permutation (List.map fst (as_completed l)) l) ->
  (forall n, faults n = Batch.NoFault) ->
  let r := process_resumes d in
  Batch.outcome r = Batch.Ok tt
  /\ Batch.input_file (Batch.files r) = Batch.Snapshot all_resumes
  /\ (forall x, In x all_resumes ->
                In (Batch.id x) (List.map Batch.id (Batch.processed r)))
  /\ (Batch.submitted r = [] -> Batch.files r = d)
  /\ (Batch.submitted r <> [] ->
      Batch.output_file (Batch.files r) = Batch.Snapshot (Batch.processed r))
  /\ (Batch.submitted r = [] ->
      fst (Batch._load_progress d) = Batch.Ok (Batch.processed r, [])).
Proof.
  intros Hin Hload Hev Hperm Hno. cbv zeta.
  pose proof (load_covers_input d all_resumes loaded pending ev Hin Hload) as Hcov.
  unfold Batch.process_resumes. rewrite Hload. destruct pending as [|p ps].
  - cbn [Batch.outcome Batch.files Batch.processed Batch.submitted fst].
    split; [reflexivity|]. split; [exact Hin|]. split.
    + intros x Hx. destruct (Hcov x Hx) as [[]|Hc]. exact Hc.
    + split; [reflexivity|]. split; [congruence|]. reflexivity.
  - set (pending := p :: ps) in *.
    set (st := {| Batch.outcome := Batch.Ok tt; Batch.submitted := pending;
                  Batch.processed := loaded; Batch.files := d;
                  Batch.log := ev |}).
    destruct (collect_without_write_fault faults error_evaluation
                (as_completed pending) 0 st)
      as (H1 & H2 & H3 & H4 & H5);
      [intros n; left; apply Hno|exact Hev|reflexivity|].
    assert (Hne : as_completed pending <> []).
    { intros Hnil. pose proof (Permutation_length (Hperm pending)) as Hl.
      rewrite Hnil in Hl. discriminate. }
    rewrite H1, H2, H3, H4, H5. cbn [Batch.submitted Batch.processed Batch.files st].
    split; [reflexivity|]. split; [exact Hin|]. split.
    + intros x Hx. rewrite List.map_app. apply List.in_or_app.
      destruct (Hcov x Hx) as [Hp|Hc]; [right|now left].
      rewrite finish_ids. apply List.in_map.
      apply (Permutation_in _ (Permutation_sym (Hperm pending))). exact Hp.
    + split; [discriminate|]. split; [|discriminate]. intros _.
      now apply committed_without_fault.
Qed.

Lemma run_with_nothing_pending (d : Batch.disk Id E) (processed : list resume) :
  fst (Batch._load_progress d) = Batch.Ok (processed, []) ->
  Batch.outcome (process_resumes d) = Batch.Ok tt
  /\ Batch.submitted (process_resumes d) = []
  /\ Batch.files (process_resumes d) = d
  /\ Batch.processed (process_resumes d) = processed.
Proof.
  intros Hload. unfold Batch.process_resumes.
  destruct (Batch._load_progress d) as [res ev]. cbn [fst] in Hload. subst res.
  repeat split; reflexivity.
Qed.

(** X8.  Running [process_resumes] again after a run that met no failure
    does nothing: when the first run could load its progress, found only
    records with evaluations and met no failure while saving, the second
    run submits no record, leaves the files as they are and has the
    processed records of the first run. *)
Theorem second_run_does_nothing
        (d : Batch.disk Id E) (all_resumes loaded pending : list resume)
        (ev : list Batch.event) :
  Batch.input_file d = Batch.Snapshot all_resumes ->
  Batch._load_progress d = (Batch.Ok (loaded, pending), ev) ->
  Batch.evaluated loaded ->
  (forall l, Permutation (List.map fst (as_completed l)) l) ->
  (forall n, faults n = Batch.NoFault) ->
  let first := process_resumes d in
  let second := process_resumes (Batch.files first) in
  Batch.outcome first = Batch.Ok tt
  /\ Batch.outcome second = Batch.Ok tt
  /\ Batch.submitted second = []
  /\ Batch.files second = Batch.files first
  /\ Batch.processed second = Batch.processed first.
Proof.
  intros Hin Hload Hev Hperm Hno. cbv zeta.
  destruct (run_covers_input d all_resumes loaded pending ev Hin Hload Hev Hperm Hno)
    as (Hok & Hin' & Hcov & Hsame & Hout & Hagain).
  split; [exact Hok|].
  apply run_with_nothing_pending.
  destruct (Batch.submitted (process_resumes d)) as [|s ss] eqn:Hsub.
  - rewrite (Hsame eq_refl). exact (Hagain eq_refl).
  - specialize (Hout ltac:(discriminate)).
    unfold Batch._load_progress. rewrite Hin', Hout. cbn [fst].
    now rewrite (not_processed_covered all_resumes _ Hcov).
Qed.

(* the loop does not change the list of the records submitted *)
Lemma collect_submitted (completed : list (resume * Batch.future_result E))
      (cycle : nat) (st : Batch.run Id E) :
  Batch.submitted (collect completed cycle st) = Batch.submitted st.
Proof.
  revert cycle st. induction completed as [|[r f] rest IH]; intros cycle st;
    [reflexivity|].
  cbn [Batch.collect]. destruct (Batch._save_progress _ _ _) as [[[|] ?] ?];
    [|reflexivity].
  destruct (forallb _ _); [now rewrite IH|reflexivity].
Qed.

(* whatever the save cycles meet, the loop records a prefix of the completed
   futures and the output file holds what it held or a prefix recorded *)
Lemma collect_prefix (completed : list (resume * Batch.future_result E))
      (cycle : nat) (st : Batch.run Id E) :
  let r := collect completed cycle st in
  Batch.input_file (Batch.files r) = Batch.input_file (Batch.files st)
  /\ exists j k,
      (k <= j <= length completed)%nat
      /\ Batch.processed r
         = Batch.processed st ++ List.map finish (firstn j completed)
      /\ (Batch.output_file (Batch.files r) = Batch.output_file (Batch.files st)
          \/ (1 <= k)%nat
             /\ Batch.output_file (Batch.files r)
                = Batch.Snapshot
                    (Batch.processed st ++ List.map finish (firstn k completed))).
Proof.
  cbv zeta. revert cycle st.
  induction completed as [|[r f] rest IH]; intros cycle st.
  - cbn. split; [reflexivity|]. exists 0%nat, 0%nat.
    rewrite List.app_nil_r. split; [lia|]. split; [reflexivity|now left].
  - cbn [Batch.collect]. unfold Batch._save_progress.
    change (Batch.with_evaluation error_evaluation r f) with (finish (r, f)).
    assert (Hstep : forall st' : Batch.run Id E,
               Batch.processed st' = Batch.processed st ++ [finish (r, f)] ->
               Batch.input_file (Batch.files st') = Batch.input_file (Batch.files st) ->
               Batch.output_file (Batch.files st') = Batch.output_file (Batch.files st)
               \/ Batch.output_file (Batch.files st')
                  = Batch.Snapshot (Batch.processed st ++ [finish (r, f)]) ->
               Batch.input_file (Batch.files (collect rest (S cycle) st'))
               = Batch.input_file (Batch.files st)
               /\ exists j k,
                   (k <= j <= S (length rest))%nat
                   /\ Batch.processed (collect rest (S cycle) st')
                      = Batch.processed st
                          ++ List.map finish (firstn j ((r, f) :: rest))
                   /\ (Batch.output_file (Batch.files (collect rest (S cycle) st'))
                       = Batch.output_file (Batch.files st)
                       \/ (1 <= k)%nat
                          /\ Batch.output_file
                               (Batch.files (collect rest (S cycle) st'))
                             = Batch.Snapshot
                                 (Batch.processed st
                                    ++ List.map finish (firstn k ((r, f) :: rest))))).
    { intros st' Hp' Hi' Ho'.
      destruct (IH (S cycle) st') as (Hin & j & k & Hjk & Hp & Ho).
      rewrite Hp' in Hp, Ho. rewrite Hi' in Hin.
      split; [exact Hin|].
      destruct Ho as [Ho|[Hk Ho]].
      - destruct Ho' as [Ho'|Ho'].
        + exists (S j), 0%nat. cbn [firstn List.map]. split; [lia|].
          split; [now rewrite Hp, <- List.app_assoc|]. left. congruence.
        + exists (S j), 1%nat. cbn [firstn List.map]. split; [lia|].
          split; [now rewrite Hp, <- List.app_assoc|].
          right. split; [lia|]. rewrite Ho, Ho'. reflexivity.
      - exists (S j), (S k). cbn [firstn List.map]. split; [lia|].
        split; [now rewrite Hp, <- List.app_assoc|].
        right. split; [lia|]. now rewrite Ho, <- List.app_assoc. }
    assert (Hstop : forall st' : Batch.run Id E,
               Batch.processed st' = Batch.processed st ++ [finish (r, f)] ->
               Batch.input_file (Batch.files st') = Batch.input_file (Batch.files st) ->
               Batch.output_file (Batch.files st') = Batch.output_file (Batch.files st)
               \/ Batch.output_file (Batch.files st')
                  = Batch.Snapshot (Batch.processed st ++ [finish (r, f)]) ->
               Batch.input_file (Batch.files st') = Batch.input_file (Batch.files st)
               /\ exists j k,
                   (k <= j <= S (length rest))%nat
                   /\ Batch.processed st'
                      = Batch.processed st
                          ++ List.map finish (firstn j ((r, f) :: rest))
                   /\ (Batch.output_file (Batch.files st')
                       = Batch.output_file (Batch.files st)
                       \/ (1 <= k)%nat
                          /\ Batch.output_file (Batch.files st')
                             = Batch.Snapshot
                                 (Batch.processed st
                                    ++ List.map finish (firstn k ((r, f) :: rest))))).
    { intros st' Hp' Hi' Ho'. split; [exact Hi'|].
      destruct Ho' as [Ho'|Ho'].
      - exists 1%nat, 0%nat. cbn [firstn List.map]. split; [lia|].
        split; [exact Hp'|now left].
      - exists 1%nat, 1%nat. cbn [firstn List.map]. split; [lia|].
        split; [exact Hp'|]. right. split; [lia|exact Ho']. }
    cbn [length].
    destruct (faults cycle) as [| |decodable|];
      try destruct (forallb Batch.has_evaluation
                            (Batch.processed st ++ [finish (r, f)])) eqn:Heval;
      first [apply Hstep | apply Hstop];
      cbn [Batch.processed Batch.files Batch.input_file Batch.output_file];
      auto.
Qed.

(** X9.  Whatever the save cycles meet and whatever the futures hold, a run
    of [process_resumes] leaves the input file as it is.  When the loader
    raises, the run ends with its exception and the files as they were.
    Otherwise the records submitted are the pending ones that the loader
    returned, the processed records are those that it returned followed by
    the records of the first j completed futures, and the output file
    holds either what it held before the run or the records that the
    loader returned followed by those of the first k completed futures,
    with k between 1 and j: it is never left partly written. *)
Theorem output_file_holds_a_recorded_prefix (d : Batch.disk Id E) :
  let r := process_resumes d in
  Batch.input_file (Batch.files r) = Batch.input_file d
  /\ match fst (Batch._load_progress d) with
     | Batch.Raise e => Batch.outcome r = Batch.Raise e /\ Batch.files r = d
     | Batch.Ok (loaded, pending) =>
       Batch.submitted r = pending
       /\ exists j k,
           (k <= j <= length (as_completed pending))%nat
           /\ Batch.processed r
              = loaded ++ List.map finish (firstn j (as_completed pending))
           /\ (Batch.output_file (Batch.files r) = Batch.output_file d
               \/ (1 <= k)%nat
                  /\ Batch.output_file (Batch.files r)
                     = Batch.Snapshot
                         (loaded
                            ++ List.map finish (firstn k (as_completed pending))))
     end.
Proof.
  cbv zeta. unfold Batch.process_resumes.
  destruct (Batch._load_progress d) as [[[loaded pending]|e] ev]; cbn [fst];
    [|repeat split; reflexivity].
  destruct pending as [|p ps].
  - cbn [Batch.files Batch.submitted Batch.processed].
    split; [reflexivity|]. split; [reflexivity|].
    exists 0%nat, 0%nat. cbn [firstn List.map]. rewrite List.app_nil_r.
    split; [lia|]. split; [reflexivity|now left].
  - set (st := {| Batch.outcome := Batch.Ok tt; Batch.submitted := p :: ps;
                  Batch.processed := loaded; Batch.files := d;
                  Batch.log := ev |}).
    destruct (collect_prefix (as_completed (p :: ps)) 0 st)
      as (Hin & j & k & Hjk & Hp & Ho).
    split; [exact Hin|]. split; [apply collect_submitted|].
    exists j, k. split; [exact Hjk|]. split; [exact Hp|exact Ho].
Qed.

End BatchRestart.

(** ** generate_cv_template.py: validation *)

Section ValidationProperties.
Context {U : UnicodeDB}.

Lemma elements_nil_iff (X : gset str) : elements X = [] <-> X = ∅.
Proof.
  split; [intros He; now apply leibniz_equiv, elements_empty_iff|].
  intros ->. apply elements_empty.
Qed.

Lemma map_nil_iff {A B : Type} (f : A -> B) (l : list A) :
  List.map f l = [] <-> l = [].
Proof. destruct l; cbn; split; congruence. Qed.

Lemma app_nil_iff {A : Type} (l k : list A) : l ++ k = [] <-> l = [] /\ k = [].
Proof.
  split; [apply List.app_eq_nil|]. now intros [-> ->].
Qed.

Lemma empty_iff_size (X : gset str) : X = ∅ <-> size X = 0%nat.
Proof.
  rewrite size_empty_iff. split; [now intros ->|apply leibniz_equiv].
Qed.

(** X10.  [validate_resume] reports no issue exactly when the marker check
    and the heuristic check both pass; a resume without issue is valid,
    while a valid resume may come with issues. *)
Theorem no_issue_iff_both_checks
        (text : str) (pos : Gen.TechPosition) (rtype : Gen.RecruitmentType) :
  let v := Gen.validate_resume text pos rtype in
  (Gen.issues v = [] <-> Gen.markers_match text rtype /\ Gen.looks_complete text pos rtype)
  /\ (Gen.issues v = [] -> Gen.is_valid v = true)
  /\ (Gen.is_valid v = true ->
      Gen.issues v
      = List.map (fun section => u "建议添加 " ++ section ++ u " 相关内容")
                 (Gen.missing_sections text pos rtype)
        ++ (if Gen.has_quantitative text then []
            else [u "建议添加更多量化的成果描述"])).
Proof.
  cbv zeta.
  pose proof (is_valid_iff text pos rtype) as Hvalid.
  assert (Hsets : Gen.is_valid (Gen.validate_resume text pos rtype) = true
                  <-> Gen.allowed_tokens rtype ∖ Gen.used_tokens text = ∅
                      /\ Gen.used_tokens text ∖ Gen.allowed_tokens rtype = ∅).
  { unfold Gen.validate_resume. cbn [Gen.is_valid].
    rewrite andb_true_iff, !bool_decide_eq_true, <- !empty_iff_size. reflexivity. }
  assert (Hissues : Gen.issues (Gen.validate_resume text pos rtype) = []
                    <-> (Gen.allowed_tokens rtype ∖ Gen.used_tokens text = ∅
                         /\ Gen.used_tokens text ∖ Gen.allowed_tokens rtype = ∅)
                        /\ Gen.looks_complete text pos rtype).
  { unfold Gen.validate_resume, Gen.looks_complete. cbn [Gen.issues].
    rewrite !app_nil_iff, !map_nil_iff, !elements_nil_iff.
    destruct (Gen.has_quantitative text); intuition congruence. }
  split; [|split].
  - rewrite Hissues, <- Hsets, Hvalid. reflexivity.
  - intros Hno. apply Hsets, Hissues, Hno.
  - intros Hv. apply Hsets in Hv as [Hm He].
    unfold Gen.validate_resume. cbn [Gen.issues].
    rewrite Hm, He, elements_empty. reflexivity.
Qed.

Lemma allowed_tokens_campus (rtype rtype' : Gen.RecruitmentType) :
  Gen.is_campus rtype = Gen.is_campus rtype' ->
  Gen.allowed_tokens rtype = Gen.allowed_tokens rtype'.
Proof. intros Hc. unfold Gen.allowed_tokens. now rewrite Hc. Qed.

Lemma industry_marker (rtype : Gen.RecruitmentType) :
  u "{INDUSTRY}" ∈ Gen.allowed_tokens rtype <-> Gen.is_campus rtype = false.
Proof.
  unfold Gen.allowed_tokens. rewrite elem_of_list_to_set, list_elem_of_In.
  destruct (Gen.is_campus rtype); split; intros Hin; try reflexivity.
  - vm_compute in Hin. repeat (destruct Hin as [Hin|Hin]; [discriminate Hin|]).
    destruct Hin.
  - discriminate.
  - vm_compute. tauto.
Qed.

(** X11.  Whether a resume is valid depends on its text and on whether the
    recruitment type is a campus one, not on the position; and no text is
    valid both for a campus type and for another type, since the markers of
    the career history are required by the one and refused by the other. *)
Theorem validity_depends_on_campus_only
        (text : str) (pos pos' : Gen.TechPosition) (rtype rtype' : Gen.RecruitmentType) :
  (Gen.is_campus rtype = Gen.is_campus rtype' ->
   Gen.is_valid (Gen.validate_resume text pos rtype)
   = Gen.is_valid (Gen.validate_resume text pos' rtype'))
  /\ (Gen.is_campus rtype <> Gen.is_campus rtype' ->
      Gen.is_valid (Gen.validate_resume text pos rtype) = true ->
      Gen.is_valid (Gen.validate_resume text pos' rtype') = false).
Proof.
  split.
  - intros Hc. unfold Gen.validate_resume. cbn [Gen.is_valid].
    now rewrite (allowed_tokens_campus rtype rtype' Hc).
  - intros Hc Hv.
    destruct (Gen.is_valid (Gen.validate_resume text pos' rtype')) eqn:Hv';
      [exfalso|reflexivity].
    apply is_valid_iff in Hv as [Hreq Honly], Hv' as [Hreq' Honly'].
    destruct (Gen.is_campus rtype) eqn:Hr, (Gen.is_campus rtype') eqn:Hr';
      try congruence.
    + apply industry_marker in Hr'. apply Hreq', Honly, industry_marker in Hr'.
      congruence.
    + apply industry_marker in Hr. apply Hreq, Honly', industry_marker in Hr.
      congruence.
Qed.

End ValidationProperties.

(** ** generate_cv_template.py: the generation session *)

Section GenerationSession.
Context {U : UnicodeDB}.
Variable generate_prompt :
  Gen.TechPosition -> Gen.SkillLevel -> Gen.RecruitmentType -> str.
Variable strftime : Zhipu.client -> str.

Local Abbreviation attempt := (Gen.attempt strftime).
Local Abbreviation attempts := (Gen.attempts strftime).
Local Abbreviation generate_resume := (Gen.generate_resume generate_prompt strftime).

(* the metadata of a resume returned for the given item *)
Definition describes (m : Gen.metadata) (text : str) (pos : Gen.TechPosition)
           (level : Gen.SkillLevel) (rtype : Gen.RecruitmentType) : Prop :=
  Gen.position m = Gen.TechPosition_value pos
  /\ Gen.skill_level m = Gen.SkillLevel_value level
  /\ Gen.recruitment_type m = Gen.RecruitmentType_value rtype
  /\ Gen.validation_result m = Some (Gen.validate_resume text pos rtype).

Lemma attempt_cases (pos : Gen.TechPosition) (level : Gen.SkillLevel)
      (rtype : Gen.RecruitmentType) (history : list Zhipu.turn) (w : Zhipu.client) :
  (Gen.attempt_fails pos rtype (Zhipu.answers w (Zhipu.calls w))
   /\ exists history', fst (attempt pos level rtype history w) = Gen.RETRY history')
  \/ (exists text m,
         Zhipu.answers w (Zhipu.calls w) = Zhipu.Content text
         /\ Gen.markers_match text rtype
         /\ describes m text pos level rtype
         /\ fst (attempt pos level rtype history w) = Gen.SUCCESS text m).
Proof.
  unfold Gen.attempt, Zhipu.chat_completion. fold (Zhipu.calls w).
  destruct (Zhipu.answers w (Zhipu.calls w)) as [| | |text] eqn:Hans.
  - left. split; [exact I|]. eexists; reflexivity.
  - left. split; [exact I|]. eexists; reflexivity.
  - left. split; [exact I|]. eexists; reflexivity.
  - destruct (Gen.is_valid (Gen.validate_resume text pos rtype)) eqn:Hv.
    + right. eexists text, _. split; [reflexivity|].
      split; [now apply is_valid_iff in Hv|]. split; [|reflexivity].
      repeat split.
    + left. split; [exact Hv|]. eexists; reflexivity.
Qed.

Lemma attempts_characterised (left : nat) (pos : Gen.TechPosition)
      (level : Gen.SkillLevel) (rtype : Gen.RecruitmentType)
      (history : list Zhipu.turn) (w : Zhipu.client) :
  let res := attempts left pos level rtype history w in
  match fst res with
  | Gen.Returns text m =>
    Gen.markers_match text rtype
    /\ describes m text pos level rtype
    /\ exists j,
        (j < left)%nat
        /\ (forall k, (k < j)%nat ->
                      Gen.attempt_fails pos rtype (Zhipu.answers w (Zhipu.calls w + k)))
        /\ Zhipu.answers w (Zhipu.calls w + j) = Zhipu.Content text
        /\ Zhipu.calls (snd res) = (Zhipu.calls w + S j)%nat
  | Gen.EXHAUSTED =>
    (forall k, (k < left)%nat ->
               Gen.attempt_fails pos rtype (Zhipu.answers w (Zhipu.calls w + k)))
    /\ Zhipu.calls (snd res) = (Zhipu.calls w + left)%nat
  end.
Proof.
  cbv zeta. revert history w. induction left as [|left IH]; intros history w.
  - cbn. split; [intros k Hk; lia|lia].
  - cbn [Gen.attempts].
    destruct (attempt_spec generate_prompt strftime pos level rtype history w)
      as [Hcalls Hanswers].
    destruct (attempt_cases pos level rtype history w)
      as [[Hfails [history' Hretry]]|(text & m & Hans & Hmatch & Hdesc & Hsucc)].
    + destruct (attempt pos level rtype history w) as [tr w1]; cbn [fst snd] in *.
      subst tr. specialize (IH history' w1). rewrite Hcalls, Hanswers in IH.
      destruct (fst (attempts left pos level rtype history' w1)) as [text m|].
      * destruct IH as (Hmatch & Hdesc & j & Hj & Hbefore & Hans & Hn).
        split; [exact Hmatch|]. split; [exact Hdesc|]. exists (S j).
        split; [lia|]. split.
        { intros [|k] Hk; [now rewrite Nat.add_0_r|].
          replace (Zhipu.calls w + S k)%nat with (S (Zhipu.calls w) + k)%nat by lia.
          apply Hbefore. lia. }
        replace (Zhipu.calls w + S j)%nat with (S (Zhipu.calls w) + j)%nat by lia.
        split; [exact Hans|]. rewrite Hn. lia.
      * destruct IH as [Hall Hn]. split.
        { intros [|k] Hk; [now rewrite Nat.add_0_r|].
          replace (Zhipu.calls w + S k)%nat with (S (Zhipu.calls w) + k)%nat by lia.
          apply Hall. lia. }
        rewrite Hn. lia.
    + destruct (attempt pos level rtype history w) as [tr w1]; cbn [fst snd] in *.
      subst tr. cbn [fst snd].
      split; [exact Hmatch|]. split; [exact Hdesc|]. exists 0%nat.
      rewrite Nat.add_0_r. split; [lia|]. split; [intros k Hk; lia|].
      split; [exact Hans|]. lia.
Qed.

(** X12.  [generate_resume] returns the content of the first reply, among
    the first five, that passes the marker check, with metadata that
    describe the item and carry the validation result, and stops there; it
    is exhausted, after five requests, exactly when each of the five
    replies fails.  It never returns a text that fails the marker check. *)
Theorem generate_resume_returns_first_valid_reply
        (pos : Gen.TechPosition) (level : Gen.SkillLevel)
        (rtype : Gen.RecruitmentType) (w : Zhipu.client) :
  let res := generate_resume pos level rtype w in
  match fst res with
  | Gen.Returns text m =>
    Gen.markers_match text rtype
    /\ describes m text pos level rtype
    /\ exists j,
        (j < 5)%nat
        /\ (forall k, (k < j)%nat ->
                      Gen.attempt_fails pos rtype (Zhipu.answers w (Zhipu.calls w + k)))
        /\ Zhipu.answers w (Zhipu.calls w + j) = Zhipu.Content text
        /\ Zhipu.calls (snd res) = (Zhipu.calls w + S j)%nat
  | Gen.EXHAUSTED =>
    (forall k, (k < 5)%nat ->
               Gen.attempt_fails pos rtype (Zhipu.answers w (Zhipu.calls w + k)))
    /\ Zhipu.calls (snd res) = (Zhipu.calls w + 5)%nat
  end.
Proof. apply (attempts_characterised 5). Qed.

(** *** The conversation *)

(* the conversation after a request that did not end the session, by the
   reply the request received: as it was when the request failed or the
   reply had no content, with an assistant turn without text when the
   content was null, with the reply and a correction when the content was
   not valid *)
Definition continued (pos : Gen.TechPosition) (rtype : Gen.RecruitmentType)
           (history : list Zhipu.turn) (r : Zhipu.reply) : list Zhipu.turn :=
  match r with
  | Zhipu.Raises | Zhipu.NoContent => history
  | Zhipu.Null => history ++ [Gen.null_turn]
  | Zhipu.Content text =>
    history ++ [Gen.assistant_turn text;
                Gen.user_turn (Gen.correction_prompt (Gen.validate_resume text pos rtype))]
  end.

(* the requests of a session, the first of which receives the reply
   numbered n: each one sends the conversation as it stands *)
Fixpoint grows (pos : Gen.TechPosition) (rtype : Gen.RecruitmentType)
         (answers : nat -> Zhipu.reply) (n : nat) (history : list Zhipu.turn)
         (sent : list (list Zhipu.turn)) : Prop :=
  match sent with
  | [] => True
  | request :: rest =>
    request = history
    /\ grows pos rtype answers (S n) (continued pos rtype history (answers n)) rest
  end.

Lemma attempt_requests (pos : Gen.TechPosition) (level : Gen.SkillLevel)
      (rtype : Gen.RecruitmentType) (history : list Zhipu.turn) (w : Zhipu.client) :
  Zhipu.requests (snd (attempt pos level rtype history w))
  = Zhipu.requests w ++ [history]
  /\ match fst (attempt pos level rtype history w) with
     | Gen.SUCCESS _ _ => True
     | Gen.RETRY history' =>
       history' = continued pos rtype history (Zhipu.answers w (Zhipu.calls w))
     end.
Proof.
  unfold Gen.attempt, Zhipu.chat_completion, Zhipu.calls.
  destruct (Zhipu.answers w (length (Zhipu.requests w))) as [| | |text];
    cbn [fst snd Zhipu.requests continued]; try (split; reflexivity).
  destruct (Gen.is_valid _); cbn [fst snd Zhipu.requests];
    (split; [reflexivity|]); [exact I|].
  now rewrite <- List.app_assoc.
Qed.

Lemma continued_extends (pos : Gen.TechPosition) (rtype : Gen.RecruitmentType)
      (history : list Zhipu.turn) (r : Zhipu.reply) :
  exists more, continued pos rtype history r = history ++ more.
Proof.
  destruct r as [| | |text]; cbn [continued];
    [exists []; now rewrite List.app_nil_r..|eexists; reflexivity|eexists; reflexivity].
Qed.

Lemma attempts_requests (left : nat) (pos : Gen.TechPosition)
      (level : Gen.SkillLevel) (rtype : Gen.RecruitmentType)
      (history : list Zhipu.turn) (w : Zhipu.client) :
  exists sent,
    Zhipu.requests (snd (attempts left pos level rtype history w))
    = Zhipu.requests w ++ sent
    /\ grows pos rtype (Zhipu.answers w) (Zhipu.calls w) history sent
    /\ (length sent <= left)%nat /\ (left = 0%nat \/ 1 <= length sent)%nat
    /\ List.Forall (fun request => exists more, request = history ++ more) sent.
Proof.
  revert history w. induction left as [|left IH]; intros history w.
  - exists []. cbn. rewrite List.app_nil_r.
    split; [reflexivity|]. split; [exact I|]. split; [lia|].
    split; [now left|constructor].
  - cbn [Gen.attempts].
    destruct (attempt_requests pos level rtype history w) as [Hreq Hnext].
    destruct (attempt_spec generate_prompt strftime pos level rtype history w)
      as [Hcalls Hanswers].
    destruct (attempt pos level rtype history w) as [[text m|history'] w1];
      cbn [fst snd] in *.
    + exists [history]. split; [exact Hreq|]. split.
      * cbn. split; [reflexivity|exact I].
      * split; [cbn; lia|]. split; [right; cbn; lia|]. constructor; [|constructor].
        exists []. now rewrite List.app_nil_r.
    + destruct (IH history' w1) as (sent & Hsent & Hgrows & Hlen & _ & Hpre).
      exists (history :: sent). split; [|split; [|split; [|split]]].
      * rewrite Hsent, Hreq, <- List.app_assoc. reflexivity.
      * cbn [grows]. split; [reflexivity|].
        rewrite Hcalls, Hanswers, Hnext in Hgrows. exact Hgrows.
      * cbn [length]. lia.
      * right. cbn [length]. lia.
      * constructor; [exists []; now rewrite List.app_nil_r|].
        eapply List.Forall_impl; [|exact Hpre].
        intros request [more ->]. rewrite Hnext.
        destruct (continued_extends pos rtype history (Zhipu.answers w (Zhipu.calls w)))
          as [more' ->].
        eexists. now rewrite <- List.app_assoc.
Qed.

(** X13.  The conversation of a session only grows, as the replies
    dictate.  [generate_resume] sends between one and five requests; the
    first is the system turn followed by the prompt, and every request
    sends the conversation as it stands.  Between two requests the
    conversation stays as it is when the request failed or the reply had no
    content, receives an assistant turn without text when the content of
    the reply was null, and receives the reply and the correction drawn
    from its validation when the content was not valid.  Hence every
    request starts with the system turn and the prompt. *)
Theorem conversation_only_grows
        (pos : Gen.TechPosition) (level : Gen.SkillLevel)
        (rtype : Gen.RecruitmentType) (w : Zhipu.client) :
  let initial := [Gen.system_turn; Gen.user_turn (generate_prompt pos level rtype)] in
  exists sent,
    Zhipu.requests (snd (generate_resume pos level rtype w))
    = Zhipu.requests w ++ sent
    /\ grows pos rtype (Zhipu.answers w) (Zhipu.calls w) initial sent
    /\ (1 <= length sent <= 5)%nat
    /\ List.Forall (fun request => exists more, request = initial ++ more) sent.
Proof.
  cbv zeta. unfold Gen.generate_resume.
  destruct (attempts_requests Gen.max_attempts pos level rtype
              [Gen.system_turn; Gen.user_turn (generate_prompt pos level rtype)] w)
    as (sent & Hsent & Hgrows & Hlen & Hone & Hpre).
  exists sent. split; [exact Hsent|]. split; [exact Hgrows|].
  split; [|exact Hpre]. split; [|exact Hlen].
  destruct Hone as [Hzero|Hone]; [discriminate|exact Hone].
Qed.

End GenerationSession.

(** ** generate_cv_template.py: the batch *)

Section GenerationBatch.
Context {U : UnicodeDB}.
Variable generate_prompt :
  Gen.TechPosition -> Gen.SkillLevel -> Gen.RecruitmentType -> str.
Variable strftime : Zhipu.client -> str.

Local Abbreviation attempts := (Gen.attempts strftime).
Local Abbreviation generate_resume := (Gen.generate_resume generate_prompt strftime).
Local Abbreviation generate_item := (Gen.generate_item generate_prompt strftime).
Local Abbreviation levels_loop := (Gen.levels_loop generate_prompt strftime).
Local Abbreviation types_loop := (Gen.types_loop generate_prompt strftime).
Local Abbreviation positions_loop := (Gen.positions_loop generate_prompt strftime).
Local Abbreviation batch_generate_resumes :=
  (Gen.batch_generate_resumes generate_prompt strftime).

#[local] Existing Instances Gen.SkillLevel_eq_dec Gen.RecruitmentType_eq_dec
  Gen.TechPosition_eq_dec.

(* the body of the innermost loop, for one combination *)
Definition item_step (g : Gen.generator)
           (item : Gen.TechPosition * Gen.RecruitmentType * Gen.SkillLevel)
  : Gen.generator :=
  let '(pos, rtype, level) := item in generate_item pos rtype g level.

(** *** The loops *)

Lemma applicable_types_have_levels (pos : Gen.TechPosition) (rtype : Gen.RecruitmentType) :
  In rtype (Gen.get_applicable_recruitment_types pos) ->
  exists levels, Gen.get_applicable_skill_levels rtype = Some levels /\ levels <> [].
Proof.
  destruct pos; vm_compute; intros Hin;
    repeat (destruct Hin as [<-|Hin]; [eexists; split; [reflexivity|discriminate]|]);
    destruct Hin.
Qed.

Lemma levels_loop_fold (pos : Gen.TechPosition) (rtype : Gen.RecruitmentType)
      (levels : list Gen.SkillLevel) (g : Gen.generator) :
  levels_loop pos rtype levels g
  = fold_left item_step (List.map (fun level => (pos, rtype, level)) levels) g.
Proof.
  unfold Gen.levels_loop. revert g.
  induction levels as [|level levels IH]; intros g; [reflexivity|].
  cbn [fold_left List.map]. apply IH.
Qed.

Lemma types_loop_fold (pos : Gen.TechPosition) (types : list Gen.RecruitmentType)
      (g : Gen.generator) :
  (forall rtype, In rtype types -> Gen.get_applicable_skill_levels rtype <> None) ->
  types_loop pos types g
  = (fold_left item_step
               (flat_map (fun rtype =>
                            List.map (fun level => (pos, rtype, level))
                                     (default [] (Gen.get_applicable_skill_levels rtype)))
                         types) g,
     false).
Proof.
  revert g. induction types as [|rtype types IH]; intros g Hall; [reflexivity|].
  cbn [Gen.types_loop flat_map].
  destruct (Gen.get_applicable_skill_levels rtype) as [levels|] eqn:Hl;
    [|exfalso; apply (Hall rtype); [now left|exact Hl]].
  rewrite IH by (intros r Hr; apply Hall; now right).
  cbn [default]. now rewrite List.fold_left_app, levels_loop_fold.
Qed.

Lemma positions_loop_fold (positions : list Gen.TechPosition) (g : Gen.generator) :
  positions_loop positions g
  = fold_left item_step
              (flat_map
                 (fun pos =>
                    flat_map
                      (fun rtype =>
                         List.map (fun level => (pos, rtype, level))
                                  (default [] (Gen.get_applicable_skill_levels rtype)))
                      (Gen.get_applicable_recruitment_types pos))
                 positions) g.
Proof.
  revert g. induction positions as [|pos positions IH]; intros g; [reflexivity|].
  cbn [Gen.positions_loop flat_map].
  rewrite types_loop_fold.
  - rewrite IH, List.fold_left_app. reflexivity.
  - intros rtype Hin.
    destruct (applicable_types_have_levels pos rtype Hin) as (levels & Hl & _).
    congruence.
Qed.

Lemma batch_is_fold (g : Gen.generator) :
  batch_generate_resumes g = fold_left item_step Gen.work_items g.
Proof. apply positions_loop_fold. Qed.

(** X14.  [batch_generate_resumes] goes once, in a fixed order, through the
    59 combinations of a position, a recruitment type applicable to it and
    a skill level applicable to that type, applying the body of the
    innermost loop to each.  Every applicable recruitment type has skill
    levels, so the ValueError of [get_applicable_skill_levels], which would
    end the batch, is never raised; the one type without levels,
    CAMPUS_GENERAL, is applicable to no position. *)
Theorem batch_goes_through_the_work_items (g : Gen.generator) :
  batch_generate_resumes g = fold_left item_step Gen.work_items g
  /\ length Gen.work_items = 59%nat
  /\ List.NoDup Gen.work_items
  /\ (forall pos rtype,
         In rtype (Gen.get_applicable_recruitment_types pos) ->
         exists levels, Gen.get_applicable_skill_levels rtype = Some levels
                        /\ levels <> [])
  /\ Gen.get_applicable_skill_levels Gen.CAMPUS_GENERAL = None
  /\ (forall pos, ~ In Gen.CAMPUS_GENERAL (Gen.get_applicable_recruitment_types pos)).
Proof.
  split; [apply positions_loop_fold|]. split; [reflexivity|]. split.
  - apply NoDup_ListNoDup.
    apply (bool_decide_unpack (NoDup Gen.work_items)). vm_compute. exact I.
  - split; [apply applicable_types_have_levels|]. split; [reflexivity|].
    intros pos Hin. apply applicable_types_have_levels in Hin as (levels & Hl & _).
    discriminate.
Qed.

(** *** One combination *)

Lemma attempts_answers (left : nat) (pos : Gen.TechPosition) (level : Gen.SkillLevel)
      (rtype : Gen.RecruitmentType) (history : list Zhipu.turn) (w : Zhipu.client) :
  Zhipu.answers (snd (attempts left pos level rtype history w)) = Zhipu.answers w.
Proof.
  revert history w. induction left as [|left IH]; intros history w;
    cbn [Gen.attempts]; [reflexivity|].
  destruct (attempt_spec generate_prompt strftime pos level rtype history w)
    as [_ Hanswers].
  destruct (Gen.attempt strftime pos level rtype history w) as [[text m|history'] w1];
    cbn [snd] in *; [exact Hanswers|].
  now rewrite IH.
Qed.

(* the output file holds what save_data writes for the data in memory *)
Definition in_sync (g : Gen.generator) : Prop :=
  Gen.output_file g
  = Gen.Stored {| Gen.doc_metadata := Gen.doc_metadata (Gen.generated_data g);
                  Gen.doc_resumes := List.map Gen.cleaned (Gen.resumes g) |}.

(* what the write numbered [Gen.writes g] does to the output file and to the
   counters when a resume was generated *)
Definition write_outcome (g g' : Gen.generator) : Prop :=
  match Gen.write_faults g (Gen.writes g) with
  | Gen.WriteOk =>
    in_sync g'
    /\ Gen.total_generated g' = S (Gen.total_generated g)
    /\ Gen.total_errors g' = Gen.total_errors g
  | Gen.OpenFails =>
    Gen.output_file g' = Gen.output_file g
    /\ Gen.total_generated g' = Gen.total_generated g
    /\ Gen.total_errors g' = S (Gen.total_errors g)
  | Gen.DumpFails decodable =>
    Gen.output_file g' = (if decodable then Gen.Invalid else Gen.Undecodable)
    /\ Gen.total_generated g' = Gen.total_generated g
    /\ Gen.total_errors g' = S (Gen.total_errors g)
  end.

Lemma generate_item_cases (pos : Gen.TechPosition) (rtype : Gen.RecruitmentType)
      (level : Gen.SkillLevel) (g : Gen.generator) :
  let g' := generate_item pos rtype g level in
  (Gen._resume_exists pos rtype level g = true /\ g' = g)
  \/ (Gen._resume_exists pos rtype level g = false
      /\ Zhipu.answers (Gen.client g') = Zhipu.answers (Gen.client g)
      /\ (Zhipu.calls (Gen.client g) < Zhipu.calls (Gen.client g'))%nat
      /\ (Zhipu.calls (Gen.client g') <= Zhipu.calls (Gen.client g) + 5)%nat
      /\ Gen.write_faults g' = Gen.write_faults g
      /\ ((exists text m,
              describes m text pos level rtype
              /\ Gen.markers_match text rtype
              /\ Gen.resumes g'
                 = Gen.resumes g ++ [{| Gen.entry_metadata := m; Gen.entry_content := text |}]
              /\ Gen.writes g' = S (Gen.writes g)
              /\ write_outcome g g')
          \/ (Gen.generated_data g' = Gen.generated_data g
              /\ Gen.writes g' = Gen.writes g
              /\ Gen.output_file g' = Gen.output_file g
              /\ Gen.total_generated g' = Gen.total_generated g
              /\ Gen.total_errors g' = S (Gen.total_errors g)))).
Proof.
  cbv zeta. unfold Gen.generate_item.
  destruct (Gen._resume_exists pos rtype level g) eqn:Hex; [left; now split|].
  right. split; [reflexivity|].
  pose proof (attempts_characterised
                generate_prompt strftime 5 pos level rtype
                [Gen.system_turn; Gen.user_turn (generate_prompt pos level rtype)]
                (Gen.client g)) as Hres.
  pose proof (attempts_answers
                5 pos level rtype
                [Gen.system_turn; Gen.user_turn (generate_prompt pos level rtype)]
                (Gen.client g)) as Hans.
  cbv zeta in Hres. unfold Gen.generate_resume, Gen.max_attempts.
  destruct (Gen.attempts strftime 5 pos level rtype _ (Gen.client g))
    as [[text m|] w1]; cbn [fst snd] in *.
  - destruct Hres as (Hmatch & Hdesc & j & Hj & _ & _ & Hcalls).
    unfold Gen.save_data, write_outcome, in_sync, Gen.resumes.
    cbn [Gen.append_resume Gen.write_faults Gen.writes Gen.generated_data
         Gen.doc_resumes Gen.doc_metadata Gen.client Gen.output_file
         Gen.total_generated Gen.total_errors].
    destruct (Gen.write_faults g (Gen.writes g)) as [| |decodable];
      cbn [Gen.count_generated Gen.count_error Gen.write_faults Gen.writes
           Gen.generated_data Gen.doc_resumes Gen.doc_metadata Gen.client
           Gen.output_file Gen.total_generated Gen.total_errors];
      (split; [exact Hans|]); (split; [lia|]); (split; [lia|]);
      (split; [reflexivity|]); left; exists text, m;
      (split; [exact Hdesc|]); (split; [exact Hmatch|]); repeat split.
  - destruct Hres as [_ Hcalls]. unfold Gen.resumes.
    cbn [Gen.count_error Gen.with_client Gen.write_faults Gen.writes
         Gen.generated_data Gen.client Gen.output_file Gen.total_generated
         Gen.total_errors].
    split; [exact Hans|]. split; [lia|]. split; [lia|]. split; [reflexivity|].
    right. repeat split.
Qed.

Lemma describes_accepted (m : Gen.metadata) (text : str) (pos : Gen.TechPosition)
      (level : Gen.SkillLevel) (rtype : Gen.RecruitmentType) :
  describes m text pos level rtype ->
  Gen.markers_match text rtype ->
  Gen.accepted {| Gen.entry_metadata := m; Gen.entry_content := text |}.
Proof.
  intros (Hpos & _ & Hrt & Hval) Hmatch. exists text, pos, rtype.
  cbn [Gen.entry_content Gen.entry_metadata]. repeat split; try assumption; apply Hmatch.
Qed.

(** *** A run of the loop body over a list of combinations *)

Lemma failed_writes_cons (faults : nat -> Gen.write_fault) (first n : nat) :
  Gen.failed_writes faults first (S n)
  = match faults first with
    | Gen.WriteOk => []
    | _ => [first]
    end ++ Gen.failed_writes faults (S first) n.
Proof.
  unfold Gen.failed_writes. cbn [List.seq List.filter].
  now destruct (faults first).
Qed.

Lemma failed_writes_length (faults : nat -> Gen.write_fault) (first n : nat) :
  (length (Gen.failed_writes faults first n) <= n)%nat.
Proof.
  revert first. induction n as [|n IH]; intros first; [cbn; lia|].
  rewrite failed_writes_cons, List.length_app. specialize (IH (S first)).
  destruct (faults first); cbn [length]; lia.
Qed.

Lemma failed_writes_none (faults : nat -> Gen.write_fault) (first n : nat) :
  Gen.failed_writes faults first n = [] <->
  forall k, (first <= k < first + n)%nat -> faults k = Gen.WriteOk.
Proof.
  revert first. induction n as [|n IH]; intros first.
  - split; [intros _ k Hk; lia|reflexivity].
  - rewrite failed_writes_cons. split.
    + intros Hnil k Hk. apply List.app_eq_nil in Hnil as [Hhead Hrest].
      destruct (Nat.eq_dec k first) as [->|Hne].
      * destruct (faults first); [reflexivity|discriminate..].
      * apply (proj1 (IH (S first)) Hrest). lia.
    + intros Hall. rewrite (Hall first) by lia. cbn [List.app].
      apply IH. intros k Hk. apply Hall. lia.
Qed.

Lemma fold_progress
      (items : list (Gen.TechPosition * Gen.RecruitmentType * Gen.SkillLevel))
      (g : Gen.generator) :
  let g' := fold_left item_step items g in
  exists (new : list Gen.resume_entry) (exhausted : nat),
    let failed :=
      length (Gen.failed_writes (Gen.write_faults g) (Gen.writes g) (length new)) in
    Gen.resumes g' = Gen.resumes g ++ new
    /\ List.Forall Gen.accepted new
    /\ Gen.write_faults g' = Gen.write_faults g
    /\ Gen.writes g' = (Gen.writes g + length new)%nat
    /\ (Gen.total_generated g' + failed = Gen.total_generated g + length new)%nat
    /\ Gen.total_errors g' = (Gen.total_errors g + (exhausted + failed))%nat
    /\ (length new + exhausted <= length items)%nat
    /\ (Zhipu.calls (Gen.client g) + (length new + exhausted)
        <= Zhipu.calls (Gen.client g'))%nat
    /\ (Zhipu.calls (Gen.client g')
        <= Zhipu.calls (Gen.client g) + 5 * (length new + exhausted))%nat
    /\ Zhipu.answers (Gen.client g') = Zhipu.answers (Gen.client g)
    /\ (new = [] ->
        Gen.output_file g' = Gen.output_file g
        /\ Gen.generated_data g' = Gen.generated_data g)
    /\ (new <> [] ->
        Gen.write_faults g (Gen.writes g' - 1) = Gen.WriteOk -> in_sync g').
Proof.
  cbv zeta. revert g. induction items as [|[[pos rtype] level] items IH]; intros g.
  - exists [], 0%nat. cbn [fold_left length]. rewrite List.app_nil_r.
    repeat match goal with |- _ /\ _ => split end;
      try reflexivity; try (cbn; lia); try (now constructor).
    intros Hnew. now destruct Hnew.
  - cbn [fold_left item_step].
    destruct (IH (generate_item pos rtype g level))
      as (new & exhausted & Hres & Hacc & Hfaults & Hwrites & Hgen & Herr & Hlen
          & Hlow & Hhigh & Hans & Hkept & Hsync).
    destruct (generate_item_cases pos rtype level g)
      as [[_ Hsame]|(_ & Hans1 & Hlow1 & Hhigh1 & Hfaults1 & Hcase)].
    + cbv zeta in Hsame. rewrite Hsame in *.
      exists new, exhausted. cbn [length].
      repeat match goal with |- _ /\ _ => split end; try assumption; lia.
    + cbv zeta in Hans1, Hlow1, Hhigh1, Hfaults1, Hcase.
      destruct Hcase as [(text & m & Hdesc & Hmatch & Hres1 & Hwrites1 & Hout)
                        |(Hdata1 & Hwrites1 & Hout1 & Hgen1 & Herr1)].
      * exists ({| Gen.entry_metadata := m; Gen.entry_content := text |} :: new),
               exhausted.
        cbn [length]. rewrite failed_writes_cons, List.length_app.
        rewrite Hfaults1, Hwrites1 in Hgen, Herr.
        assert (Hcount :
                  (Gen.total_generated (generate_item pos rtype g level)
                   + length match Gen.write_faults g (Gen.writes g) with
                            | Gen.WriteOk => []
                            | _ => [Gen.writes g]
                            end
                   = S (Gen.total_generated g))%nat
                  /\ Gen.total_errors (generate_item pos rtype g level)
                     = (Gen.total_errors g
                        + length match Gen.write_faults g (Gen.writes g) with
                                 | Gen.WriteOk => []
                                 | _ => [Gen.writes g]
                                 end)%nat).
        { unfold write_outcome in Hout.
          destruct (Gen.write_faults g (Gen.writes g));
            destruct Hout as (_ & Hg & He); cbn [length]; lia. }
        destruct Hcount as [Hgen1 Herr1].
        split; [rewrite Hres, Hres1, <- List.app_assoc; reflexivity|].
        split; [constructor; [now apply (describes_accepted m text pos level rtype)
                             |exact Hacc]|].
        split; [congruence|]. split; [lia|]. split; [lia|]. split; [lia|].
        split; [lia|]. split; [lia|]. split; [lia|].
        split; [congruence|]. split; [discriminate|]. intros _ Hlast.
        destruct new as [|e new].
        -- cbn [length] in Hwrites. rewrite Hwrites, Hwrites1 in Hlast.
           replace (S (Gen.writes g) + 0 - 1)%nat with (Gen.writes g) in Hlast by lia.
           unfold write_outcome in Hout. rewrite Hlast in Hout.
           destruct Hout as (Hsync1 & _ & _).
           destruct (Hkept eq_refl) as [Hfile Hdata].
           unfold in_sync, Gen.resumes in *. rewrite Hfile, Hdata. exact Hsync1.
        -- apply Hsync; [discriminate|]. now rewrite Hfaults1.
      * exists new, (S exhausted). cbn [length].
        rewrite Hfaults1, Hwrites1 in Hgen, Herr.
        split; [unfold Gen.resumes in *; rewrite Hres, Hdata1; reflexivity|].
        split; [exact Hacc|].
        split; [congruence|]. split; [lia|]. split; [lia|]. split; [lia|].
        split; [lia|]. split; [lia|]. split; [lia|].
        split; [congruence|]. split.
        -- intros Hnil. destruct (Hkept Hnil) as [Hfile Hdata].
           split; congruence.
        -- intros Hnew Hlast. apply Hsync; [exact Hnew|]. now rewrite Hfaults1.
Qed.

(** X15.  What a batch costs.  With [generated] and [failed] the numbers
    by which the batch raises its two counters, at most 59 combinations
    are attempted, every attempted combination costs between one and five
    requests, so the batch sends at most 295 requests, and the client's
    replies are consumed in order, none twice. *)
Theorem batch_request_bounds (g : Gen.generator) :
  let g' := batch_generate_resumes g in
  exists generated failed : nat,
    Gen.total_generated g' = (Gen.total_generated g + generated)%nat
    /\ Gen.total_errors g' = (Gen.total_errors g + failed)%nat
    /\ (generated + failed <= 59)%nat
    /\ (Zhipu.calls (Gen.client g) + (generated + failed)
        <= Zhipu.calls (Gen.client g'))%nat
    /\ (Zhipu.calls (Gen.client g')
        <= Zhipu.calls (Gen.client g) + 5 * (generated + failed))%nat
    /\ (Zhipu.calls (Gen.client g') <= Zhipu.calls (Gen.client g) + 295)%nat
    /\ Zhipu.answers (Gen.client g') = Zhipu.answers (Gen.client g).
Proof.
  cbv zeta. rewrite batch_is_fold.
  destruct (fold_progress Gen.work_items g)
    as (new & exhausted & _ & _ & _ & _ & Hgen & Herr & Hlen & Hlow & Hhigh & Hans & _).
  cbv zeta in *. change (length Gen.work_items) with 59%nat in Hlen.
  pose proof (failed_writes_length (Gen.write_faults g) (Gen.writes g) (length new))
    as Hfailed.
  revert Hgen Herr Hlow Hhigh Hans.
  generalize (fold_left item_step Gen.work_items g). intros g1 Hgen Herr Hlow Hhigh Hans.
  exists (length new
          - length (Gen.failed_writes (Gen.write_faults g) (Gen.writes g) (length new)))%nat,
         (exhausted
          + length (Gen.failed_writes (Gen.write_faults g) (Gen.writes g) (length new)))%nat.
  repeat split; try assumption; lia.
Qed.

(** X16.  What a batch stores.  The resumes in memory before the batch
    are kept, in order; the batch appends one resume for each write of the
    output file, each with the content of a reply that passed the marker
    check for the recruitment type in its metadata and with that
    validation result.  The resumes whose write succeeded are counted as
    generated; those whose write failed stay in memory and are counted as
    errors.  If no resume was appended the output file is as it was; if
    the write for the last resume appended succeeded, the output file
    holds the time stamps and the resumes in memory, each resume without
    its validation result. *)
Theorem batch_appends_accepted_resumes (g : Gen.generator) :
  let g' := batch_generate_resumes g in
  exists new : list Gen.resume_entry,
    let failed :=
      length (Gen.failed_writes (Gen.write_faults g) (Gen.writes g) (length new)) in
    Gen.resumes g' = Gen.resumes g ++ new
    /\ List.Forall Gen.accepted new
    /\ Gen.writes g' = (Gen.writes g + length new)%nat
    /\ (Gen.total_generated g' + failed = Gen.total_generated g + length new)%nat
    /\ (Gen.total_errors g + failed <= Gen.total_errors g')%nat
    /\ (new = [] -> Gen.output_file g' = Gen.output_file g)
    /\ (new <> [] ->
        Gen.write_faults g (Gen.writes g' - 1) = Gen.WriteOk ->
        exists data,
          Gen.output_file g' = Gen.Stored data
          /\ Gen.doc_metadata data = Gen.doc_metadata (Gen.generated_data g')
          /\ Gen.doc_resumes data = List.map Gen.cleaned (Gen.resumes g')
          /\ List.Forall (fun e => Gen.validation_result (Gen.entry_metadata e) = None)
                         (Gen.doc_resumes data)).
Proof.
  cbv zeta. rewrite batch_is_fold.
  destruct (fold_progress Gen.work_items g)
    as (new & exhausted & Hres & Hacc & _ & Hwrites & Hgen & Herr & _ & _ & _ & _
        & Hkept & Hsync).
  cbv zeta in *. revert Hres Hwrites Hgen Herr Hkept Hsync.
  generalize (fold_left item_step Gen.work_items g).
  intros g1 Hres Hwrites Hgen Herr Hkept Hsync. exists new.
  split; [exact Hres|]. split; [exact Hacc|]. split; [exact Hwrites|].
  split; [exact Hgen|]. split; [lia|].
  split; [intros Hnil; apply (Hkept Hnil)|].
  intros Hnew Hlast. specialize (Hsync Hnew Hlast). unfold in_sync in Hsync.
  eexists. split; [exact Hsync|]. cbn [Gen.doc_metadata Gen.doc_resumes].
  split; [reflexivity|]. split; [reflexivity|]. apply List.Forall_forall.
  intros e Hin. apply List.in_map_iff in Hin as (r & <- & _). reflexivity.
Qed.

(** *** The resumes that exist *)

Lemma TechPosition_value_inj (p p' : Gen.TechPosition) :
  Gen.TechPosition_value p = Gen.TechPosition_value p' -> p = p'.
Proof. destruct p, p'; intros H; try reflexivity; vm_compute in H; discriminate. Qed.

Lemma RecruitmentType_value_inj (r r' : Gen.RecruitmentType) :
  Gen.RecruitmentType_value r = Gen.RecruitmentType_value r' -> r = r'.
Proof. destruct r, r'; intros H; try reflexivity; vm_compute in H; discriminate. Qed.

Lemma SkillLevel_value_inj (l l' : Gen.SkillLevel) :
  Gen.SkillLevel_value l = Gen.SkillLevel_value l' -> l = l'.
Proof. destruct l, l'; intros H; try reflexivity; vm_compute in H; discriminate. Qed.

Lemma str_eqb_true (a b : str) : Gen.str_eqb a b = true <-> a = b.
Proof.
  unfold Gen.str_eqb. split; intros H.
  - now apply bool_decide_eq_true in H.
  - now apply bool_decide_eq_true.
Qed.

Lemma resume_exists_app (pos : Gen.TechPosition) (rtype : Gen.RecruitmentType)
      (level : Gen.SkillLevel) (g g' : Gen.generator) (new : list Gen.resume_entry) :
  Gen.resumes g' = Gen.resumes g ++ new ->
  Gen._resume_exists pos rtype level g'
  = Gen._resume_exists pos rtype level g
    || existsb (fun r =>
                  Gen.str_eqb (Gen.position (Gen.entry_metadata r))
                              (Gen.TechPosition_value pos)
                  && Gen.str_eqb (Gen.recruitment_type (Gen.entry_metadata r))
                                 (Gen.RecruitmentType_value rtype)
                  && Gen.str_eqb (Gen.skill_level (Gen.entry_metadata r))
                                 (Gen.SkillLevel_value level)) new.
Proof. intros Hres. unfold Gen._resume_exists. now rewrite Hres, List.existsb_app. Qed.

Lemma resume_exists_described (pos pos' : Gen.TechPosition)
      (rtype rtype' : Gen.RecruitmentType) (level level' : Gen.SkillLevel)
      (m : Gen.metadata) (text : str) :
  describes m text pos level rtype ->
  Gen.str_eqb (Gen.position m) (Gen.TechPosition_value pos')
  && Gen.str_eqb (Gen.recruitment_type m) (Gen.RecruitmentType_value rtype')
  && Gen.str_eqb (Gen.skill_level m) (Gen.SkillLevel_value level') = true
  <-> (pos', rtype', level') = (pos, rtype, level).
Proof.
  intros (Hpos & Hlevel & Hrt & _). rewrite Hpos, Hlevel, Hrt.
  rewrite !andb_true_iff, !str_eqb_true. split.
  - intros [[Hp Hr] Hl].
    apply TechPosition_value_inj in Hp. apply RecruitmentType_value_inj in Hr.
    apply SkillLevel_value_inj in Hl. congruence.
  - intros Heq. injection Heq as -> -> ->. repeat split.
Qed.

(** X17.  What the loop body does for one combination to the resumes
    that exist.  Afterwards the combination exists exactly when it existed
    before or a resume was generated for it, which is when the output file
    was written.  It is counted as generated exactly when that write
    succeeded, and as an error exactly when it did not exist before and
    either no resume was generated or the write failed; in the latter case
    the combination exists in memory although an error was counted.  When
    the combination does not exist afterwards the data in memory and the
    output file are as before.  Whether any other combination exists is
    not changed: the values of the three enumerations tell their members
    apart. *)
Theorem generate_item_records_the_item
        (pos : Gen.TechPosition) (rtype : Gen.RecruitmentType)
        (level : Gen.SkillLevel) (g : Gen.generator) :
  let g' := generate_item pos rtype g level in
  let written := Gen.writes g' = S (Gen.writes g) in
  let saved := Gen.write_faults g (Gen.writes g) = Gen.WriteOk in
  (Gen._resume_exists pos rtype level g' = true
   <-> Gen._resume_exists pos rtype level g = true \/ written)
  /\ (Gen.total_generated g' = S (Gen.total_generated g) <-> written /\ saved)
  /\ (Gen.total_errors g' = S (Gen.total_errors g)
      <-> Gen._resume_exists pos rtype level g = false /\ ~ (written /\ saved))
  /\ (Gen._resume_exists pos rtype level g' = false ->
      Gen.total_errors g' = S (Gen.total_errors g)
      /\ Gen.generated_data g' = Gen.generated_data g
      /\ Gen.output_file g' = Gen.output_file g)
  /\ (forall pos' rtype' level',
         (pos', rtype', level') <> (pos, rtype, level) ->
         Gen._resume_exists pos' rtype' level' g'
         = Gen._resume_exists pos' rtype' level' g).
Proof.
  cbv zeta.
  destruct (generate_item_cases pos rtype level g)
    as [[Hex Hsame]|(Hex & _ & _ & _ & _ & Hcase)]; cbv zeta in *.
  - rewrite Hsame, Hex.
    split; [tauto|]. split; [split; [lia|intros [Hw _]; lia]|].
    split; [split; [lia|intros [Hno _]; discriminate]|].
    split; [discriminate|reflexivity].
  - destruct Hcase as [(text & m & Hdesc & _ & Hres & Hwrites & Hout)
                      |(Hdata & Hwrites & Hfile & Hgen & Herr)].
    + assert (Hall : forall pos' rtype' level',
                 Gen._resume_exists pos' rtype' level'
                                    (generate_item pos rtype g level) = true
                 <-> Gen._resume_exists pos' rtype' level' g = true
                     \/ (pos', rtype', level') = (pos, rtype, level)).
      { intros pos' rtype' level'.
        rewrite (resume_exists_app pos' rtype' level' _ _ _ Hres).
        cbn [existsb Gen.entry_metadata]. rewrite orb_false_r, orb_true_iff.
        now rewrite (resume_exists_described pos pos' rtype rtype' level level' m text Hdesc). }
      pose proof (proj2 (Hall pos rtype level) (or_intror eq_refl)) as Hnow.
      unfold write_outcome in Hout.
      split; [split; [intros _; right; exact Hwrites|intros _; exact Hnow]|].
      split; [|split; [|split]].
      * destruct (Gen.write_faults g (Gen.writes g)) as [| |decodable];
          destruct Hout as (_ & Hgen & _);
          (split; [intros Hg|intros [_ Hs]]); try discriminate; try lia.
        split; [exact Hwrites|reflexivity].
      * destruct (Gen.write_faults g (Gen.writes g)) as [| |decodable];
          destruct Hout as (_ & _ & Herr);
          (split; [intros He|intros [_ Hs]]); try lia.
        -- exfalso. apply Hs. split; [exact Hwrites|reflexivity].
        -- split; [exact Hex|]. intros [_ Hs]. discriminate.
        -- split; [exact Hex|]. intros [_ Hs]. discriminate.
      * intros Hno. congruence.
      * intros pos' rtype' level' Hother.
        destruct (Gen._resume_exists pos' rtype' level' g) eqn:Hbefore.
        { apply Hall. now left. }
        destruct (Gen._resume_exists pos' rtype' level' (generate_item pos rtype g level))
                 eqn:Hafter; [|reflexivity].
        apply Hall in Hafter as [Habs|Habs]; [congruence|contradiction].
    + assert (Hsame : forall pos' rtype' level',
                 Gen._resume_exists pos' rtype' level' (generate_item pos rtype g level)
                 = Gen._resume_exists pos' rtype' level' g).
      { intros pos' rtype' level'. unfold Gen._resume_exists, Gen.resumes.
        now rewrite Hdata. }
      split; [|split; [|split; [|split]]].
      * rewrite Hsame, Hex, Hwrites. split; [discriminate|intros [H|H]; [discriminate|lia]].
      * rewrite Hgen, Hwrites. split; [lia|intros [Hw _]; lia].
      * rewrite Hwrites. split; [intros _; split; [exact Hex|intros [Hw _]; lia]|].
        intros _. exact Herr.
      * intros _. split; [exact Herr|]. split; [exact Hdata|exact Hfile].
      * intros pos' rtype' level' _. apply Hsame.
Qed.

(** *** A batch after a batch *)

Definition item_exists (g : Gen.generator)
           (item : Gen.TechPosition * Gen.RecruitmentType * Gen.SkillLevel) : bool :=
  let '(pos, rtype, level) := item in Gen._resume_exists pos rtype level g.

Lemma fold_keeps_existing
      (items : list (Gen.TechPosition * Gen.RecruitmentType * Gen.SkillLevel))
      (g : Gen.generator)
      (item : Gen.TechPosition * Gen.RecruitmentType * Gen.SkillLevel) :
  item_exists g item = true ->
  item_exists (fold_left item_step items g) item = true.
Proof.
  destruct item as [[pos rtype] level]. cbn [item_exists]. intros Hex.
  destruct (fold_progress items g) as (new & failed & Hres & _). cbv zeta in Hres.
  rewrite (resume_exists_app pos rtype level _ _ _ Hres), Hex. reflexivity.
Qed.

Lemma fold_without_error
      (items : list (Gen.TechPosition * Gen.RecruitmentType * Gen.SkillLevel))
      (g : Gen.generator) :
  Gen.total_errors (fold_left item_step items g) = Gen.total_errors g ->
  forall item, In item items ->
               item_exists (fold_left item_step items g) item = true.
Proof.
  revert g. induction items as [|[[pos rtype] level] items IH]; intros g Herr item Hin;
    [destruct Hin|].
  cbn [fold_left item_step] in *.
  destruct (fold_progress items (generate_item pos rtype g level))
    as (new & exhausted & _ & _ & _ & _ & _ & Herr2 & _). cbv zeta in Herr2.
  assert (Hstep : Gen.total_errors (generate_item pos rtype g level) = Gen.total_errors g
                  /\ Gen._resume_exists pos rtype level (generate_item pos rtype g level)
                     = true).
  { destruct (generate_item_cases pos rtype level g)
      as [[Hex Hsame]|(Hex & _ & _ & _ & _ & Hcase)]; cbv zeta in *.
    - rewrite Hsame. now split.
    - destruct Hcase as [(text & m & Hdesc & _ & Hres & _ & Hout)
                        |(_ & _ & _ & _ & Herr1)]; [|lia].
      assert (Herr1 : Gen.total_errors (generate_item pos rtype g level)
                      = Gen.total_errors g).
      { unfold write_outcome in Hout.
        destruct (Gen.write_faults g (Gen.writes g));
          destruct Hout as (_ & _ & He); [exact He|lia..]. }
      split; [exact Herr1|].
      rewrite (resume_exists_app pos rtype level _ _ _ Hres).
      cbn [existsb Gen.entry_metadata].
      rewrite (proj2 (resume_exists_described pos pos rtype rtype level level m text Hdesc)
                     eq_refl).
      now rewrite orb_true_r. }
  destruct Hstep as [Herr1 Hex1].
  destruct Hin as [<-|Hin].
  - now apply (fold_keeps_existing items _ (pos, rtype, level)).
  - apply IH; [congruence|exact Hin].
Qed.

Lemma fold_over_existing
      (items : list (Gen.TechPosition * Gen.RecruitmentType * Gen.SkillLevel))
      (g : Gen.generator) :
  (forall item, In item items -> item_exists g item = true) ->
  fold_left item_step items g = g.
Proof.
  induction items as [|[[pos rtype] level] items IH]; intros Hall; [reflexivity|].
  cbn [fold_left item_step].
  assert (Hsame : generate_item pos rtype g level = g).
  { unfold Gen.generate_item.
    pose proof (Hall (pos, rtype, level) (or_introl eq_refl)) as Hex.
    cbn [item_exists] in Hex. now rewrite Hex. }
  rewrite Hsame. apply IH. intros item Hin. apply Hall. now right.
Qed.

(** X18.  A batch that raises no error leaves nothing to do: every one of
    the 59 combinations then exists, and a second batch on the same
    generator skips them all, sending no request and changing nothing. *)
Theorem batch_without_error_is_complete (g : Gen.generator) :
  Gen.total_errors (batch_generate_resumes g) = Gen.total_errors g ->
  (forall pos rtype level,
      In (pos, rtype, level) Gen.work_items ->
      Gen._resume_exists pos rtype level (batch_generate_resumes g) = true)
  /\ batch_generate_resumes (batch_generate_resumes g) = batch_generate_resumes g.
Proof.
  rewrite (batch_is_fold (batch_generate_resumes g)), (batch_is_fold g).
  pose proof (fold_without_error Gen.work_items g) as Hall. revert Hall.
  generalize (fold_left item_step Gen.work_items g). intros g1 Hall Herr.
  specialize (Hall Herr). split.
  - intros pos rtype level Hin. specialize (Hall (pos, rtype, level) Hin).
    cbv beta iota delta [item_exists] in Hall. exact Hall.
  - apply fold_over_existing. exact Hall.
Qed.

(** *** The output file *)

Lemma resume_exists_cleaned (pos : Gen.TechPosition) (rtype : Gen.RecruitmentType)
      (level : Gen.SkillLevel) (g g' : Gen.generator) :
  Gen.resumes g' = List.map Gen.cleaned (Gen.resumes g) ->
  Gen._resume_exists pos rtype level g' = Gen._resume_exists pos rtype level g.
Proof.
  intros Hres. unfold Gen._resume_exists. rewrite Hres. clear Hres.
  induction (Gen.resumes g) as [|r rs IH]; [reflexivity|].
  cbn [List.map existsb]. rewrite IH. reflexivity.
Qed.

Lemma fold_without_error_stored
      (items : list (Gen.TechPosition * Gen.RecruitmentType * Gen.SkillLevel))
      (g : Gen.generator) :
  Gen.total_errors (fold_left item_step items g) = Gen.total_errors g ->
  Gen.total_generated (fold_left item_step items g) <> Gen.total_generated g
  \/ Gen.stores (Gen.output_file g) (List.map Gen.cleaned (Gen.resumes g)) ->
  Gen.stores (Gen.output_file (fold_left item_step items g))
             (List.map Gen.cleaned (Gen.resumes (fold_left item_step items g))).
Proof.
  pose proof (fold_progress items g) as Hprogress. cbv zeta in Hprogress.
  revert Hprogress. generalize (fold_left item_step items g).
  intros g1 (new & exhausted & Hres & _ & _ & Hwrites & Hgen & Herr & _ & _ & _ & _
             & Hkept & Hsync) Hnoerr Hcase.
  assert (Hnone : Gen.failed_writes (Gen.write_faults g) (Gen.writes g) (length new) = []).
  { destruct (Gen.failed_writes _ _ _); [reflexivity|cbn [length] in Herr; lia]. }
  rewrite Hnone in Hgen. cbn [length] in Hgen.
  destruct new as [|e new].
  - destruct (Hkept eq_refl) as [Hfile Hdata].
    unfold Gen.resumes. rewrite Hfile, Hdata.
    destruct Hcase as [Hcase|Hcase]; [cbn [length] in Hgen; lia|exact Hcase].
  - eexists. apply Hsync; [discriminate|].
    apply (proj1 (failed_writes_none _ _ _) Hnone). cbn [length] in *. lia.
Qed.

(** X20.  Restart.  When a batch that raised no error has generated a
    resume, or started with the output file holding the resumes in memory,
    a generator can be created from the output file it leaves, whatever
    the writes of the new generator meet; the new generator finds every
    combination as existing: its batch sends no request and changes
    nothing. *)
Theorem restart_after_complete_batch (g : Gen.generator)
        (faults : nat -> Gen.write_fault) (w : Zhipu.client) :
  Gen.total_errors (batch_generate_resumes g) = Gen.total_errors g ->
  Gen.total_generated (batch_generate_resumes g) <> Gen.total_generated g
  \/ Gen.stores (Gen.output_file g) (List.map Gen.cleaned (Gen.resumes g)) ->
  exists g',
    Gen.load_or_create_output_file strftime
      (Gen.output_file (batch_generate_resumes g)) faults w = Batch.Ok g'
    /\ Gen.resumes g' = List.map Gen.cleaned (Gen.resumes (batch_generate_resumes g))
    /\ batch_generate_resumes g' = g'
    /\ Zhipu.requests (Gen.client (batch_generate_resumes g')) = Zhipu.requests w.
Proof.
  rewrite (batch_is_fold g).
  pose proof (fold_without_error_stored Gen.work_items g) as Hstored.
  pose proof (fold_without_error Gen.work_items g) as Hall.
  revert Hstored Hall.
  generalize (fold_left item_step Gen.work_items g). intros g1 Hstored Hall Herr Hcase.
  specialize (Hall Herr). destruct (Hstored Herr Hcase) as [metadata Hfile].
  rewrite Hfile. cbn [Gen.load_or_create_output_file].
  eexists. split; [reflexivity|]. split; [reflexivity|].
  match goal with |- batch_generate_resumes ?g2 = _ /\ _ => set (loaded := g2) end.
  assert (Hsame : batch_generate_resumes loaded = loaded).
  { rewrite batch_is_fold. apply fold_over_existing. intros [[pos rtype] level] Hin.
    cbv beta iota delta [item_exists].
    rewrite (resume_exists_cleaned pos rtype level g1); [|reflexivity].
    exact (Hall (pos, rtype, level) Hin). }
  rewrite Hsame. split; reflexivity.
Qed.

End GenerationBatch.

(** ** generate_cv_template.py: the heuristic checks of validate_resume *)

Section HeuristicChecks.
Context {U : UnicodeDB}.

#[local] Existing Instances Gen.SkillLevel_eq_dec Gen.RecruitmentType_eq_dec
  Gen.TechPosition_eq_dec.

(* a digit or a full stop *)
Definition digit_or_dot (c : N) : bool := is_digit c || (c =? 46)%N.

(* every word of the expression holds a digit or a full stop *)
Fixpoint needs_digit_or_dot (r : Regex.regex) : Prop :=
  match r with
  | Regex.Void => True
  | Regex.Eps => False
  | Regex.Chr p => forall c, p c = true -> digit_or_dot c = true
  | Regex.Cat a b => needs_digit_or_dot a \/ needs_digit_or_dot b
  | Regex.Alt a b => needs_digit_or_dot a /\ needs_digit_or_dot b
  | Regex.Star _ => False
  end.

Lemma needs_not_nullable (r : Regex.regex) :
  needs_digit_or_dot r -> Regex.nullable r = false.
Proof.
  induction r as [| |p|a IHa b IHb|a IHa b IHb|a IHa]; cbn; try tauto.
  - intros [H|H]; [now rewrite IHa|rewrite IHb by exact H; apply andb_false_r].
  - intros [Ha Hb]. now rewrite IHa, IHb.
Qed.

Lemma needs_cat (a b : Regex.regex) :
  needs_digit_or_dot a \/ needs_digit_or_dot b -> needs_digit_or_dot (Regex.cat a b).
Proof. destruct a, b; cbn; tauto. Qed.

Lemma needs_alt (a b : Regex.regex) :
  needs_digit_or_dot a -> needs_digit_or_dot b -> needs_digit_or_dot (Regex.alt a b).
Proof. destruct a, b; cbn; tauto. Qed.

Lemma needs_deriv (c : N) (r : Regex.regex) :
  digit_or_dot c = false ->
  needs_digit_or_dot r -> needs_digit_or_dot (Regex.deriv c r).
Proof.
  intros Hc. induction r as [| |p|a IHa b IHb|a IHa b IHb|a IHa];
    cbn [Regex.deriv needs_digit_or_dot]; try tauto.
  - intros Hp. destruct (p c) eqn:Hpc; [|exact I].
    apply Hp in Hpc. congruence.
  - intros Hab. destruct (Regex.nullable a) eqn:Hnull.
    + destruct Hab as [Ha|Hb]; [apply needs_not_nullable in Ha; congruence|].
      apply needs_alt; [apply needs_cat; now right|now apply IHb].
    + apply needs_cat. destruct Hab as [Ha|Hb]; [left; now apply IHa|now right].
  - intros [Ha Hb]. apply needs_alt; [now apply IHa|now apply IHb].
Qed.

Lemma needs_no_prefix (s : str) (r : Regex.regex) :
  (forall c, In c s -> digit_or_dot c = false) ->
  needs_digit_or_dot r -> Regex.matches_prefix r s = false.
Proof.
  revert r. induction s as [|c s IH]; intros r Hs Hr; cbn [Regex.matches_prefix];
    rewrite (needs_not_nullable r Hr); [reflexivity|].
  cbn [orb]. apply IH; [intros d Hd; apply Hs; now right|].
  apply needs_deriv; [apply Hs; now left|exact Hr].
Qed.

Lemma needs_no_match (s : str) (r : Regex.regex) :
  (forall c, In c s -> digit_or_dot c = false) ->
  needs_digit_or_dot r -> Regex.search r s = false.
Proof.
  intros Hs Hr. induction s as [|c s IH]; cbn [Regex.search];
    rewrite (needs_no_prefix _ r Hs Hr); [reflexivity|].
  cbn [orb]. apply IH. intros d Hd. apply Hs. now right.
Qed.

Lemma digits_needed : needs_digit_or_dot (Regex.Plus Gen.digit).
Proof.
  left. intros c Hc. unfold digit_or_dot. now rewrite Hc.
Qed.

Lemma patterns_need_digit_or_dot :
  List.Forall needs_digit_or_dot Gen.quantitative_patterns.
Proof.
  unfold Gen.quantitative_patterns.
  repeat (apply List.Forall_cons; [|]); try apply List.Forall_nil.
  - left. apply digits_needed.
  - left. apply digits_needed.
  - left. apply digits_needed.
  - right. right. apply digits_needed.
  - left. apply digits_needed.
  - right. right. apply digits_needed.
  - left. left. intros c Hc. exact Hc.
Qed.

(** X21.  A text without a digit and without a full stop matches none of
    the seven quantitative patterns, so [validate_resume] ends its list of
    issues with the suggestion to add quantified results. *)
Theorem no_digit_no_quantitative_result
        (text : str) (pos : Gen.TechPosition) (rtype : Gen.RecruitmentType) :
  (forall c, In c text -> is_digit c = false /\ c <> 46%N) ->
  Gen.has_quantitative text = false
  /\ exists before,
      Gen.issues (Gen.validate_resume text pos rtype)
      = before ++ [u "建议添加更多量化的成果描述"].
Proof.
  intros Hno.
  assert (Hq : Gen.has_quantitative text = false).
  { unfold Gen.has_quantitative.
    assert (Hs : forall c, In c text -> digit_or_dot c = false).
    { intros c Hc. destruct (Hno c Hc) as [Hd Hdot]. unfold digit_or_dot.
      rewrite Hd. cbn [orb]. now apply N.eqb_neq. }
    pose proof patterns_need_digit_or_dot as Hall.
    induction Hall as [|r rs Hr _ IH]; [reflexivity|].
    cbn [existsb]. now rewrite (needs_no_match text r Hs Hr), IH. }
  split; [exact Hq|].
  unfold Gen.validate_resume. cbv zeta. cbn [Gen.issues]. rewrite Hq.
  eexists. rewrite !List.app_assoc. reflexivity.
Qed.

(** *** The sections *)

Lemma work_history_never_required (pos : Gen.TechPosition) :
  forallb (fun section => negb (Gen.str_eqb section (u "工作经历")))
          (Gen.required_sections pos Gen.position_requirements) = true.
Proof. destruct pos; vm_compute; reflexivity. Qed.

(** X22.  The section check does not depend on the recruitment type: no
    position requires the section that campus recruitment is exempted
    from, so the exemption never applies.  The sections reported are
    required sections of the position none of whose variants occurs in
    the text. *)
Theorem section_check_ignores_recruitment_type
        (text : str) (pos : Gen.TechPosition) (rtype rtype' : Gen.RecruitmentType) :
  Gen.missing_sections text pos rtype = Gen.missing_sections text pos rtype'
  /\ forall section,
      In section (Gen.missing_sections text pos rtype)
      <-> In section (Gen.required_sections pos Gen.position_requirements)
          /\ forall variant,
              In variant (Gen.variants_of section Gen.section_variants) ->
              contains variant text = false.
Proof.
  pose proof (work_history_never_required pos) as Hnever.
  rewrite List.forallb_forall in Hnever.
  assert (Hfilter : forall rt section,
             In section (Gen.required_sections pos Gen.position_requirements) ->
             (if Gen.is_campus rt && Gen.str_eqb section (u "工作经历") then false
              else negb (existsb (fun variant => contains variant text)
                                 (Gen.variants_of section Gen.section_variants)))
             = negb (existsb (fun variant => contains variant text)
                             (Gen.variants_of section Gen.section_variants))).
  { intros rt section Hin. apply Hnever in Hin. apply negb_true_iff in Hin.
    now rewrite Hin, andb_false_r. }
  split.
  - unfold Gen.missing_sections. apply List.filter_ext_in.
    intros section Hin. now rewrite !Hfilter.
  - intros section. unfold Gen.missing_sections. rewrite List.filter_In. split.
    + intros [Hin Hmiss]. split; [exact Hin|]. rewrite Hfilter in Hmiss by exact Hin.
      apply negb_true_iff in Hmiss. intros variant Hv.
      destruct (contains variant text) eqn:Hc; [|reflexivity].
      assert (existsb (fun variant => contains variant text)
                      (Gen.variants_of section Gen.section_variants) = true)
        by (apply List.existsb_exists; now exists variant).
      congruence.
    + intros [Hin Hnone]. split; [exact Hin|]. rewrite Hfilter by exact Hin.
      apply negb_true_iff.
      destruct (existsb _ _) eqn:Hex; [|reflexivity].
      apply List.existsb_exists in Hex as (variant & Hv & Hc).
      rewrite (Hnone variant Hv) in Hc. discriminate.
Qed.

End HeuristicChecks.

(** ** generate_cv_template.py: the markers found in a text *)

Section Markers.

(* the token is an opening brace, a body without closing brace and a closing
   brace, and stands in the text *)
Definition marker_in (text token : str) : Prop :=
  exists pre body post,
    text = pre ++ 123%N :: body ++ 125%N :: post
    /\ body <> []
    /\ ~ In 125%N body
    /\ token = 123%N :: body ++ [125%N].

Lemma marker_in_later (c : N) (text token : str) :
  marker_in text token -> marker_in (c :: text) token.
Proof.
  intros (pre & body & post & -> & Hne & Hno & ->).
  exists (c :: pre), body, post. repeat split; assumption.
Qed.

(* the token closes the brace that is open, after which [acc] was read *)
Definition closes (acc s token : str) : Prop :=
  exists rest post,
    s = rest ++ 125%N :: post
    /\ ~ In 125%N rest
    /\ rev acc ++ rest <> []
    /\ token = 123%N :: rev acc ++ rest ++ [125%N].

Lemma closes_later (c : N) (acc s token : str) :
  c <> 125%N -> closes (c :: acc) s token -> closes acc (c :: s) token.
Proof.
  intros Hc (rest & post & -> & Hno & Hne & ->).
  exists (c :: rest), post. cbn [rev] in *. rewrite <- !List.app_assoc in *. cbn [app] in *.
  repeat split; try assumption.
  intros [Habs|Habs]; [congruence|contradiction].
Qed.

Lemma findall_go_shape (s : str) (inside : option str) (token : str) :
  In token (Gen.findall_go inside s) ->
  marker_in s token
  \/ exists acc, inside = Some acc /\ closes acc s token.
Proof.
  revert inside. induction s as [|c s IH]; intros inside Hin; [destruct Hin|].
  cbn [Gen.findall_go] in Hin. destruct inside as [[|a acc]|].
  - destruct (N.eqb_spec c 125) as [->|Hc].
    + apply IH in Hin as [Hm|(acc & Habs & _)]; [|discriminate].
      left. now apply marker_in_later.
    + apply IH in Hin as [Hm|(acc & Hacc & Hcl)].
      * left. now apply marker_in_later.
      * injection Hacc as <-. right. exists []. split; [reflexivity|].
        now apply closes_later.
  - destruct (N.eqb_spec c 125) as [->|Hc].
    + destruct Hin as [<-|Hin].
      * right. exists (a :: acc). split; [reflexivity|].
        exists [], s. cbn [app]. rewrite List.app_nil_r.
        split; [reflexivity|]. split; [intros []|]. split; [|reflexivity].
        cbn [rev]. intros Habs. apply List.app_eq_nil in Habs as [_ Habs].
        discriminate.
      * apply IH in Hin as [Hm|(acc' & Habs & _)]; [|discriminate].
        left. now apply marker_in_later.
    + apply IH in Hin as [Hm|(acc' & Hacc & Hcl)].
      * left. now apply marker_in_later.
      * injection Hacc as <-. right. exists (a :: acc). split; [reflexivity|].
        now apply closes_later.
  - destruct (N.eqb_spec c 123) as [->|Hc].
    + apply IH in Hin as [Hm|(acc & Hacc & Hcl)].
      * left. now apply marker_in_later.
      * injection Hacc as <-. left.
        destruct Hcl as (rest & post & -> & Hno & Hne & ->). cbn [rev app] in *.
        exists [], rest, post. repeat split; assumption.
    + apply IH in Hin as [Hm|(acc & Habs & _)]; [|discriminate].
      left. now apply marker_in_later.
Qed.

(** X23.  Every marker that [validate_resume] finds in a text stands in
    the text and consists of an opening brace, at least one character,
    none of them a closing brace, and a closing brace.  The body may hold
    further opening braces, and an empty pair of braces is no marker. *)
Theorem found_markers_are_braced (text : str) :
  List.Forall (marker_in text) (Gen.findall_tokens text)
  /\ Gen.findall_tokens (u "{}") = []
  /\ Gen.findall_tokens (u "{{NAME}}") = [u "{{NAME}"].
Proof.
  split; [|split; reflexivity].
  apply List.Forall_forall. intros token Hin.
  apply findall_go_shape in Hin as [Hm|(acc & Habs & _)]; [exact Hm|discriminate].
Qed.

End Markers.

(** ** Concrete runs for the further properties, with the database [cjk_db] *)

Section FurtherRuns.

Lemma judge_evaluate_multiple_means_witness :
  let w := Ollama.fresh (Ollama.scripted [Some in_bounds_response; None; None; None;
                                          Some in_bounds_response]) in
  exists t c e p stamp,
    fst (@Judge.evaluate_multiple cjk_db Statistics.exact_arith
                                  (u "后端开发工程师") (u "{NAME}") 3 (u "now") w)
    = Some (Judge.EvalScores t c e p stamp)
    /\ exists mt mc me mp : Q,
        Judge.mean t = Some mt /\ Judge.mean c = Some mc
        /\ Judge.mean e = Some me /\ Judge.mean p = Some mp
        /\ @Design.is_mean Statistics.exact_arith (Judge.scores t) mt
        /\ (0 <= mt)%Q /\ (mt <= 100)%Q.
Proof.
  cbv zeta.
  destruct (fst (@Judge.evaluate_multiple
                   cjk_db Statistics.exact_arith
                   (u "后端开发工程师") (u "{NAME}") 3 (u "now")
                   (Ollama.fresh (Ollama.scripted [Some in_bounds_response; None; None; None;
                                                   Some in_bounds_response]))))
    as [[error stamp|t c e p stamp]|] eqn:Hrun;
    [vm_compute in Hrun; discriminate Hrun| |vm_compute in Hrun; discriminate Hrun].
  exists t, c, e, p, stamp. split; [reflexivity|].
  destruct (@judge_evaluate_multiple_means
              cjk_db Statistics.exact_arith _ _ _ _ _ t c e p stamp Hrun)
    as (mt & mc & me & mp & Ht & Hc & He & Hp & Hmt & _ & _ & _ & _ & Hlow & Hhigh & _).
  exists mt, mc, me, mp. repeat split; assumption.
Defined.

Lemma extract_scores_needs_every_keyword_witness :
  let response := u "专业能力：35
项目经验：30" in
  contains (Judge.keyword Judge.M_potential) response = false
  /\ @Judge._extract_scores cjk_db response = None.
Proof.
  cbv zeta. split; [vm_compute; reflexivity|].
  apply (@extract_scores_needs_every_keyword cjk_db _ Judge.M_potential).
  vm_compute. reflexivity.
Defined.

Lemma requested_format_is_read_witness :
  @Judge._extract_scores cjk_db (Judge.requested_format (u "35") (u "30") (u "18"))
  = Some {| Judge.capability_score := 35; Judge.experience_score := 30;
            Judge.potential_score := 18; Judge.total_score := 83 |}.
Proof.
  apply (@requested_format_is_read cjk_db (u "35") (u "30") (u "18")).
  - intros m. destruct m; repeat (constructor; [vm_compute; reflexivity|]); constructor.
  - discriminate.
  - discriminate.
  - discriminate.
  - repeat (constructor; [vm_compute; split; discriminate|]). constructor.
  - repeat (constructor; [vm_compute; split; discriminate|]). constructor.
  - repeat (constructor; [vm_compute; split; discriminate|]). constructor.
  - apply Nat.leb_le. vm_compute. reflexivity.
  - apply Nat.leb_le. vm_compute. reflexivity.
  - apply Nat.leb_le. vm_compute. reflexivity.
  - vm_compute. discriminate.
  - vm_compute. discriminate.
  - vm_compute. discriminate.
Defined.

Lemma second_run_does_nothing_witness :
  let first := Batch.process_resumes in_order no_fault Judge.EvalError first_run in
  let second :=
      Batch.process_resumes in_order no_fault Judge.EvalError (Batch.files first) in
  Batch.outcome first = Batch.Ok tt
  /\ Batch.outcome second = Batch.Ok tt
  /\ Batch.submitted second = []
  /\ Batch.files second = Batch.files first
  /\ Batch.processed second = Batch.processed first.
Proof.
  apply (second_run_does_nothing
           in_order no_fault Judge.EvalError first_run
           [pending_record 1; pending_record 2] []
           [pending_record 1; pending_record 2] [Batch.Opened Batch.InputFile]
           eq_refl eq_refl).
  - intros r [].
  - intros l. unfold in_order. rewrite List.map_map. cbn. rewrite List.map_id.
    reflexivity.
  - reflexivity.
Defined.

Lemma validity_depends_on_campus_only_witness :
  Gen.is_valid (@Gen.validate_resume cjk_db markers_only Gen.BACKEND Gen.SOCIAL_DEV)
  = Gen.is_valid (@Gen.validate_resume cjk_db markers_only Gen.PM_TECH Gen.SOCIAL_PM)
  /\ Gen.is_valid (@Gen.validate_resume cjk_db markers_only Gen.FRONTEND Gen.CAMPUS_TECH)
     = false.
Proof.
  split.
  - apply (proj1 (@validity_depends_on_campus_only
                    cjk_db markers_only Gen.BACKEND Gen.PM_TECH
                    Gen.SOCIAL_DEV Gen.SOCIAL_PM)).
    reflexivity.
  - apply (proj2 (@validity_depends_on_campus_only
                    cjk_db markers_only Gen.BACKEND Gen.FRONTEND
                    Gen.SOCIAL_DEV Gen.CAMPUS_TECH)).
    + vm_compute. discriminate.
    + vm_compute. reflexivity.
Defined.

(* the markers of a resume for campus recruitment *)
Definition campus_markers : str :=
  u "{NAME}{AGE}{GENDER}{MARRIAGE}{HUKOU}{DISABILITY}{POLITICAL}".

(* a service whose n-th reply carries the markers that the n-th combination
   of the batch requires *)
Definition answers_in_order : Zhipu.client :=
  Zhipu.fresh
    (fun n =>
       match nth_error Gen.work_items n with
       | Some (_, rtype, _) =>
         Zhipu.Content (if Gen.is_campus rtype then campus_markers else markers_only)
       | None => Zhipu.Raises
       end).

Lemma batch_without_error_is_complete_witness :
  let g := empty_generator answers_in_order in
  let g' := @Gen.batch_generate_resumes cjk_db short_prompt fixed_clock g in
  Gen.total_errors g' = 0%nat
  /\ Gen.total_generated g' = 59%nat
  /\ @Gen.batch_generate_resumes cjk_db short_prompt fixed_clock g' = g'.
Proof.
  cbv zeta. split; [vm_compute; reflexivity|]. split; [vm_compute; reflexivity|].
  apply (proj2 (@batch_without_error_is_complete
                  cjk_db short_prompt fixed_clock (empty_generator answers_in_order)
                  ltac:(vm_compute; reflexivity))).
Defined.

Lemma restart_after_complete_batch_witness :
  let g := empty_generator answers_in_order in
  let file := Gen.output_file (@Gen.batch_generate_resumes cjk_db short_prompt fixed_clock g) in
  exists g',
    Gen.load_or_create_output_file fixed_clock file (fun _ => Gen.OpenFails) always_down
    = Batch.Ok g'
    /\ length (Gen.resumes g') = 59%nat
    /\ @Gen.batch_generate_resumes cjk_db short_prompt fixed_clock g' = g'.
Proof.
  cbv zeta.
  assert (Herr : Gen.total_errors
                   (@Gen.batch_generate_resumes cjk_db short_prompt fixed_clock
                      (empty_generator answers_in_order))
                 = Gen.total_errors (empty_generator answers_in_order))
    by (vm_compute; reflexivity).
  destruct (@restart_after_complete_batch
              cjk_db short_prompt fixed_clock (empty_generator answers_in_order)
              (fun _ => Gen.OpenFails) always_down Herr
              (or_intror (ex_intro _ _ eq_refl)))
    as (g' & Hload & Hres & Hsame & _).
  exists g'. split; [exact Hload|]. split; [|exact Hsame].
  rewrite Hres, List.length_map. vm_compute. reflexivity.
Defined.

(* a generator without resumes whose writes are all cut short *)
Definition failing_writes (w : Zhipu.client) : Gen.generator :=
  {| Gen.generated_data := empty_document;
     Gen.output_file := Gen.Stored empty_document;
     Gen.write_faults := fun _ => Gen.DumpFails true;
     Gen.writes := 0;
     Gen.client := w;
     Gen.total_generated := 0; Gen.total_errors := 0 |}.

(* when the write fails the resume stays in memory, the combination
   exists, and the item is counted as an error *)
Example failed_write_keeps_the_resume :
  let g' := @Gen.generate_item cjk_db short_prompt fixed_clock Gen.BACKEND
                               Gen.SOCIAL_DEV (failing_writes answers_markers)
                               Gen.MEDIUM in
  List.map Gen.entry_content (Gen.resumes g') = [markers_only]
  /\ Gen._resume_exists Gen.BACKEND Gen.SOCIAL_DEV Gen.MEDIUM g' = true
  /\ Gen.total_generated g' = 0%nat
  /\ Gen.total_errors g' = 1%nat
  /\ Gen.writes g' = 1%nat
  /\ Gen.output_file g' = Gen.Invalid.
Proof. cbv zeta. repeat split; vm_compute; reflexivity. Qed.

(* a service whose replies have a null content: every request adds a turn
   without text to the conversation *)
Example null_content_is_appended :
  let initial :=
    [Gen.system_turn;
     Gen.user_turn (short_prompt Gen.BACKEND Gen.MEDIUM Gen.SOCIAL_DEV)] in
  Zhipu.requests
    (snd (@Gen.generate_resume cjk_db short_prompt fixed_clock
                               Gen.BACKEND Gen.MEDIUM Gen.SOCIAL_DEV
                               (Zhipu.fresh (fun _ => Zhipu.Null))))
  = [initial;
     initial ++ [Gen.null_turn];
     initial ++ [Gen.null_turn; Gen.null_turn];
     initial ++ [Gen.null_turn; Gen.null_turn; Gen.null_turn];
     initial ++ [Gen.null_turn; Gen.null_turn; Gen.null_turn; Gen.null_turn]].
Proof. reflexivity. Qed.

Lemma no_digit_no_quantitative_result_witness :
  @Gen.has_quantitative cjk_db (u "负责后端开发") = false.
Proof.
  apply (proj1 (@no_digit_no_quantitative_result
                  cjk_db (u "负责后端开发") Gen.BACKEND Gen.SOCIAL_DEV
                  ltac:(intros c Hin; vm_compute in Hin;
                        repeat (destruct Hin as [<-|Hin];
                                [split; [vm_compute; reflexivity|discriminate]|]);
                        destruct Hin))).
Defined.

End FurtherRuns.
